(** * memoryman: the record codec, the SQLite backend and the retrieval engine

    A shallow embedding of
      - memoryman/utils/serialization.py   (serialize_data, deserialize_data),
      - memoryman/core/retrieval.py        (SimpleRetriever),
      - memoryman/storage/sqlite_backend.py (SQLiteStorage),
    together with the parts of the Python runtime these files rely on
    (str, dict, ==, <, sorted, slicing, json.dumps, json.loads, sqlite3).

    Python values are restricted to what a record can hold after a trip
    through the codec: None, bool, int, str, list and dict with str keys.
    float is not part of the embedding. *)

From Stdlib Require Import ZArith Ascii String Sorted DecimalPos DecimalZ.
From stdpp Require Import base tactics option list numbers sorting.

Local Open Scope Z_scope.

(** ** Python strings *)

(** A Python [str] is a sequence of Unicode code points (0 .. 0x10FFFF,
    lone surrogates included). *)
Definition pystr := list Z.

Definition valid_codepoint (c : Z) : bool := (0 <=? c) && (c <? 1114112).

(** ASCII literals of the development, as code points. *)
Definition lit (s : string) : pystr :=
  (fun a => Z.of_N (N_of_ascii a)) <$> list_ascii_of_string s.

(** [a < b] on [str]: lexicographic on code points. *)
Fixpoint str_ltb (a b : pystr) : bool :=
  match a, b with
  | [], [] => false
  | [], _ :: _ => true
  | _ :: _, [] => false
  | x :: a', y :: b' =>
      if x <? y then true else if y <? x then false else str_ltb a' b'
  end.

(** [needle in hay] on [str]: substring test. *)
Fixpoint starts_with (needle hay : pystr) : bool :=
  match needle, hay with
  | [], _ => true
  | _ :: _, [] => false
  | x :: n', y :: h' => (x =? y) && starts_with n' h'
  end.

Fixpoint str_contains (needle hay : pystr) : bool :=
  starts_with needle hay ||
  match hay with
  | [] => false
  | _ :: h' => str_contains needle h'
  end.

(** ** Python values *)

#[warnings="-register-all"]
Inductive value : Type :=
| PNone
| PBool (b : bool)
| PInt (n : Z)
| PStr (s : pystr)
| PList (l : list value)
| PDict (d : list (pystr * value)).

(** A [dict] with [str] keys, in insertion order. *)
Definition record := list (pystr * value).

(** [d.get(k)] as an option; [k in d] holds when it is [Some]. *)
Fixpoint dict_get (d : record) (k : pystr) : option value :=
  match d with
  | [] => None
  | (k', v) :: d' => if bool_decide (k' = k) then Some v else dict_get d' k
  end.

(** [d[k] = v]: an existing key keeps its position, a new key goes last. *)
Fixpoint dict_set (d : record) (k : pystr) (v : value) : record :=
  match d with
  | [] => [(k, v)]
  | (k', v') :: d' =>
      if bool_decide (k' = k) then (k', v) :: d' else (k', v') :: dict_set d' k v
  end.

Definition int_of_bool (b : bool) : Z := if b then 1 else 0.

(** [a == b]. bool is a subclass of int ([True == 1]); dict equality
    ignores insertion order; values of unrelated types are unequal. *)
Fixpoint py_eq (a b : value) {struct a} : bool :=
  match a, b with
  | PNone, PNone => true
  | PBool x, PBool y => int_of_bool x =? int_of_bool y
  | PBool x, PInt y => int_of_bool x =? y
  | PInt x, PBool y => x =? int_of_bool y
  | PInt x, PInt y => x =? y
  | PStr x, PStr y => bool_decide (x = y)
  | PList xs, PList ys =>
      (fix go (xs ys : list value) : bool :=
         match xs, ys with
         | [], [] => true
         | x :: xs', y :: ys' => py_eq x y && go xs' ys'
         | _, _ => false
         end) xs ys
  | PDict m, PDict m' =>
      (length m =? length m')%nat &&
      (fix go (m : record) : bool :=
         match m with
         | [] => true
         | (k, v) :: r =>
             match dict_get m' k with
             | Some v' => py_eq v v'
             | None => false
             end && go r
         end) m
  | _, _ => false
  end.

(** [a < b]; [None] stands for the TypeError Python raises on operands
    that do not support the comparison. Lists compare at the first index
    whose items are not [==]. *)
Fixpoint py_lt (a b : value) {struct a} : option bool :=
  match a, b with
  | PBool x, PBool y => Some (int_of_bool x <? int_of_bool y)
  | PBool x, PInt y => Some (int_of_bool x <? y)
  | PInt x, PBool y => Some (x <? int_of_bool y)
  | PInt x, PInt y => Some (x <? y)
  | PStr x, PStr y => Some (str_ltb x y)
  | PList xs, PList ys =>
      (fix go (xs ys : list value) : option bool :=
         match xs, ys with
         | [], [] => Some false
         | [], _ :: _ => Some true
         | _ :: _, [] => Some false
         | x :: xs', y :: ys' => if py_eq x y then go xs' ys' else py_lt x y
         end) xs ys
  | _, _ => None
  end.

(** ** memoryman/core/retrieval.py *)

(** [item.get(field)]: a missing field reads as None. *)
Definition get_or_none (item : record) (field : pystr) : value :=
  default PNone (dict_get item field).

(** [[item for item in items if item.get(field) == value]] *)
Definition filter_by_field (items : list record) (field : pystr) (v : value)
  : list record :=
  List.filter (fun item => py_eq (get_or_none item field) v) items.

(** The loop over [filters.items()], in the dict's order. *)
Definition filter_by_multiple (items : list record) (filters : record)
  : list record :=
  foldl (fun result fv => filter_by_field result (fst fv) (snd fv)) items filters.

(** [items[:limit]]; a negative bound counts from the end of the list. *)
Definition limit_results (items : list record) (limit : Z) : list record :=
  if 0 <=? limit then take (Z.to_nat limit) items
  else take (Z.to_nat (Z.of_nat (length items) + limit)) items.

(** ** Text forms: [repr] and [str] *)

Definition hexdigit (n : Z) : Z := if n <? 10 then 48 + n else 87 + n.

(** [width] lower-case hexadecimal digits of [c], most significant first. *)
Fixpoint hex_digits (width : nat) (c : Z) : pystr :=
  match width with
  | O => []
  | S w => hexdigit (Z.land (Z.shiftr c (4 * Z.of_nat w)) 15) :: hex_digits w c
  end.

Fixpoint uint_codes (d : Decimal.uint) : pystr :=
  match d with
  | Decimal.Nil => []
  | Decimal.D0 d => 48 :: uint_codes d
  | Decimal.D1 d => 49 :: uint_codes d
  | Decimal.D2 d => 50 :: uint_codes d
  | Decimal.D3 d => 51 :: uint_codes d
  | Decimal.D4 d => 52 :: uint_codes d
  | Decimal.D5 d => 53 :: uint_codes d
  | Decimal.D6 d => 54 :: uint_codes d
  | Decimal.D7 d => 55 :: uint_codes d
  | Decimal.D8 d => 56 :: uint_codes d
  | Decimal.D9 d => 57 :: uint_codes d
  end.

(** [repr(n)] for an int: decimal digits, a leading minus sign when
    negative. The interpreter's configurable cap on the number of digits
    in int/str conversions (sys.set_int_max_str_digits) is taken as
    switched off. *)
Definition int_repr (n : Z) : pystr :=
  match Z.to_int n with
  | Decimal.Pos d => uint_codes d
  | Decimal.Neg d => 45 :: uint_codes d
  end.

(** [sep.join(parts)] *)
Fixpoint join_with (sep : pystr) (parts : list pystr) : pystr :=
  match parts with
  | [] => []
  | [p] => p
  | p :: ps => p ++ sep ++ join_with sep ps
  end.

Section UnicodeDatabase.

(** The two functions of the interpreter that consult the Unicode
    character database: [str.isprintable] on one code point, used by
    [repr], and [str.lower]. *)
Variable isprintable : Z -> bool.
Variable lower : pystr -> pystr.

(** One character of [repr(s)], with [quote] the delimiter chosen. *)
Definition repr_char (quote c : Z) : pystr :=
  if (c =? quote) || (c =? 92) then [92; c]
  else if c =? 9 then [92; 116]
  else if c =? 10 then [92; 110]
  else if c =? 13 then [92; 114]
  else if (c <? 32) || (c =? 127) then 92 :: 120 :: hex_digits 2 c
  else if c <? 127 then [c]
  else if isprintable c then [c]
  else if c <=? 255 then 92 :: 120 :: hex_digits 2 c
  else if c <=? 65535 then 92 :: 117 :: hex_digits 4 c
  else 92 :: 85 :: hex_digits 8 c.

(** [repr(s)] for a str: single quotes, unless the text has a single
    quote and no double quote. *)
Definition str_repr (s : pystr) : pystr :=
  let quote :=
    if existsb (Z.eqb 39) s && negb (existsb (Z.eqb 34) s) then 34 else 39 in
  quote :: concat (repr_char quote <$> s) ++ [quote].

Fixpoint py_repr (v : value) : pystr :=
  match v with
  | PNone => lit "None"
  | PBool true => lit "True"
  | PBool false => lit "False"
  | PInt n => int_repr n
  | PStr s => str_repr s
  | PList l => 91 :: join_with (lit ", ") (List.map py_repr l) ++ [93]
  | PDict d =>
      123 :: join_with (lit ", ")
               (List.map (fun kv => str_repr (fst kv) ++ lit ": " ++ py_repr (snd kv)) d)
          ++ [125]
  end.

(** [str(v)]: a str is its own text form, anything else prints as [repr]. *)
Definition py_str (v : value) : pystr :=
  match v with
  | PStr s => s
  | _ => py_repr v
  end.

(** The inner loop of [search_text] when [fields] is truthy: the first
    listed field that is present and whose text form holds the term
    appends the item and breaks. *)
Fixpoint scan_fields (term_lower : pystr) (item : record) (fields : list pystr)
  : bool :=
  match fields with
  | [] => false
  | field :: rest =>
      match dict_get item field with
      | Some v =>
          if str_contains term_lower (lower (py_str v)) then true
          else scan_fields term_lower item rest
      | None => scan_fields term_lower item rest
      end
  end.

(** The inner loop over [item.items()] otherwise. *)
Fixpoint scan_items (term_lower : pystr) (entries : record) : bool :=
  match entries with
  | [] => false
  | (_, PStr s) :: rest =>
      if str_contains term_lower (lower s) then true
      else scan_items term_lower rest
  | _ :: rest => scan_items term_lower rest
  end.

(** [if fields:] is false for None and for the empty list alike. *)
Definition truthy_fields (fields : option (list pystr)) : bool :=
  match fields with
  | Some (_ :: _) => true
  | _ => false
  end.

Definition search_text (items : list record) (search_term : pystr)
    (fields : option (list pystr)) : list record :=
  let search_term_lower := lower search_term in
  foldl (fun results item =>
           if truthy_fields fields
           then if scan_fields search_term_lower item (default [] fields)
                then results ++ [item] else results
           else if scan_items search_term_lower item
                then results ++ [item] else results)
        [] items.

(** The spec's wording of the match, for comparison with [search_text].
    With a field list: the term is a substring of the lower-cased text
    form of some listed field that is present. *)
Definition spec_field_match (term : pystr) (fields : list pystr)
    (item : record) : bool :=
  existsb (fun field =>
             match dict_get item field with
             | Some v => str_contains (lower term) (lower (py_str v))
             | None => false
             end) fields.

(** Without one: the term is a substring of some field whose value is a
    string, compared in lower case. *)
Definition spec_string_match (term : pystr) (item : record) : bool :=
  existsb (fun kv =>
             match snd kv with
             | PStr s => str_contains (lower term) (lower s)
             | _ => false
             end) item.

End UnicodeDatabase.

(** Lower-casing of ASCII letters only; [str.lower] agrees with it on
    ASCII text. *)
Definition ascii_lower (s : pystr) : pystr :=
  (fun c => if (65 <=? c) && (c <=? 90) then c + 32 else c) <$> s.

(** ** [sorted] and [sort_by_field] *)

Section Sorting.
Context {A : Type}.
Variable key : A -> value.

(** Place [x] behind every element it is not smaller than. Only [<] is
    used, with the new element on the left, as list.sort does; a
    comparison that raises aborts the sort. *)
Fixpoint insert_sorted (x : A) (l : list A) : option (list A) :=
  match l with
  | [] => Some [x]
  | y :: l' =>
      match py_lt (key x) (key y) with
      | None => None
      | Some true => Some (x :: y :: l')
      | Some false =>
          match insert_sorted x l' with
          | None => None
          | Some r => Some (y :: r)
          end
      end
  end.

Fixpoint insertion_sort (done todo : list A) : option (list A) :=
  match todo with
  | [] => Some done
  | x :: todo' =>
      match insert_sorted x done with
      | None => None
      | Some done' => insertion_sort done' todo'
      end
  end.

(** [sorted(l, key=key, reverse=rev)]: a stable sort on the keys; with
    [reverse] the list is reversed before and after, which keeps equal
    keys in their input order. [None] is TypeError. *)
Definition py_sorted (rev : bool) (l : list A) : option (list A) :=
  if rev then reverse <$> insertion_sort [] (reverse l)
  else insertion_sort [] l.
End Sorting.

(** [x.get(field, '')]: a missing field reads as the empty string. *)
Definition sort_key (field : pystr) (item : record) : value :=
  default (PStr []) (dict_get item field).

Definition sort_by_field (items : list record) (field : pystr) (rev : bool)
  : list record :=
  match py_sorted (sort_key field) rev items with
  | Some sorted_items => sorted_items
  | None => items
  end.

Definition get_recent (items : list record) (timestamp_field : pystr) (limit : Z)
  : list record :=
  let sorted_items := sort_by_field items timestamp_field true in
  limit_results sorted_items limit.

(** The spec's wording of [most_recent], for comparison with [get_recent]:
    limit(sort_by_field(records, timestamp_field, descending=true), n). *)
Definition spec_limit (records : list record) (n : Z) : list record :=
  limit_results records n.

Definition spec_most_recent (records : list record) (timestamp_field : pystr)
    (n : Z) : list record :=
  spec_limit (sort_by_field records timestamp_field true) n.

(** ** json.dumps (default options: ensure_ascii, separators ", " and ": ") *)

(** One character of a JSON string literal: the short escapes, printable
    ASCII as it is, [\uXXXX] otherwise, a surrogate pair above U+FFFF. *)
Definition escape_char (c : Z) : pystr :=
  if c =? 34 then [92; 34]
  else if c =? 92 then [92; 92]
  else if c =? 10 then [92; 110]
  else if c =? 13 then [92; 114]
  else if c =? 9 then [92; 116]
  else if c =? 8 then [92; 98]
  else if c =? 12 then [92; 102]
  else if (32 <=? c) && (c <=? 126) then [c]
  else if c <? 65536 then 92 :: 117 :: hex_digits 4 c
  else
    let n := c - 65536 in
    let s1 := Z.lor 55296 (Z.land (Z.shiftr n 10) 1023) in
    let s2 := Z.lor 56320 (Z.land n 1023) in
    (92 :: 117 :: hex_digits 4 s1) ++ (92 :: 117 :: hex_digits 4 s2).

Definition encode_basestring_ascii (s : pystr) : pystr :=
  34 :: concat (escape_char <$> s) ++ [34].

Fixpoint dumps (v : value) : pystr :=
  match v with
  | PNone => lit "null"
  | PBool true => lit "true"
  | PBool false => lit "false"
  | PInt n => int_repr n
  | PStr s => encode_basestring_ascii s
  | PList l => 91 :: join_with (lit ", ") (List.map dumps l) ++ [93]
  | PDict d =>
      123 :: join_with (lit ", ")
               (List.map (fun kv => encode_basestring_ascii (fst kv)
                                      ++ lit ": " ++ dumps (snd kv)) d)
          ++ [125]
  end.

(** ** json.loads *)

Definition is_ws (c : Z) : bool :=
  (c =? 32) || (c =? 9) || (c =? 10) || (c =? 13).

Fixpoint skip_ws (s : pystr) : pystr :=
  match s with
  | c :: r => if is_ws c then skip_ws r else s
  | [] => []
  end.

Definition is_digit (c : Z) : bool := (48 <=? c) && (c <=? 57).

Definition hexval (c : Z) : option Z :=
  if is_digit c then Some (c - 48)
  else if (97 <=? c) && (c <=? 102) then Some (c - 87)
  else if (65 <=? c) && (c <=? 70) then Some (c - 55)
  else None.

Definition hex4 (a b c d : Z) : option Z :=
  match hexval a, hexval b, hexval c, hexval d with
  | Some x, Some y, Some z, Some w => Some (((x * 16 + y) * 16 + z) * 16 + w)
  | _, _, _, _ => None
  end.

Definition is_high_surrogate (c : Z) : bool := (55296 <=? c) && (c <=? 56319).
Definition is_low_surrogate (c : Z) : bool := (56320 <=? c) && (c <=? 57343).

Definition join_surrogates (hi lo : Z) : Z :=
  65536 + Z.lor (Z.shiftl (hi - 55296) 10) (lo - 56320).

(** What the string scanner finds at the head of the text. *)
Inductive chunk : Type :=
| ChunkEnd (rest : pystr)
| ChunkChar (c : Z) (rest : pystr)
| ChunkError.

(** One round of the scanner's loop, in strict mode: the closing quote,
    an escape, or a literal character that is not a control character.
    A [\uXXXX] escape of a high surrogate that is followed by a [\uXXXX]
    escape of a low surrogate is read as one code point. *)
Definition scan_step (s : pystr) : chunk :=
  match s with
  | [] => ChunkError
  | c :: r =>
      if c =? 34 then ChunkEnd r
      else if c =? 92 then
        match r with
        | [] => ChunkError
        | e :: r1 =>
            if e =? 117 then
              match r1 with
              | h1 :: h2 :: h3 :: h4 :: r2 =>
                  match hex4 h1 h2 h3 h4 with
                  | None => ChunkError
                  | Some uni =>
                      if is_high_surrogate uni then
                        match r2 with
                        | b :: u :: g1 :: g2 :: g3 :: g4 :: r3 =>
                            if (b =? 92) && (u =? 117) then
                              match hex4 g1 g2 g3 g4 with
                              | None => ChunkError
                              | Some uni2 =>
                                  if is_low_surrogate uni2
                                  then ChunkChar (join_surrogates uni uni2) r3
                                  else ChunkChar uni r2
                              end
                            else ChunkChar uni r2
                        | _ => ChunkChar uni r2
                        end
                      else ChunkChar uni r2
                  end
              | _ => ChunkError
              end
            else if e =? 34 then ChunkChar 34 r1
            else if e =? 92 then ChunkChar 92 r1
            else if e =? 47 then ChunkChar 47 r1
            else if e =? 98 then ChunkChar 8 r1
            else if e =? 102 then ChunkChar 12 r1
            else if e =? 110 then ChunkChar 10 r1
            else if e =? 114 then ChunkChar 13 r1
            else if e =? 116 then ChunkChar 9 r1
            else ChunkError
        end
      else if c <? 32 then ChunkError
      else ChunkChar c r
  end.

(** The scanner's loop, entered behind the opening quote. Every round
    consumes at least one character, so the length of the text bounds the
    number of rounds. *)
Fixpoint scanstring_loop (rounds : nat) (s : pystr) : option (pystr * pystr) :=
  match rounds with
  | O => None
  | S n =>
      match scan_step s with
      | ChunkEnd r => Some ([], r)
      | ChunkChar c r =>
          match scanstring_loop n r with
          | Some (cs, r') => Some (c :: cs, r')
          | None => None
          end
      | ChunkError => None
      end
  end.

Definition scanstring (s : pystr) : option (pystr * pystr) :=
  scanstring_loop (length s) s.

Fixpoint take_digits (acc : Z) (s : pystr) : Z * pystr :=
  match s with
  | c :: r => if is_digit c then take_digits (10 * acc + (c - 48)) r else (acc, s)
  | [] => (acc, [])
  end.

(** The integer part of NUMBER_RE: an optional minus sign, then either a
    single 0 or a digit 1-9 followed by any digits; read with [int]. *)
Definition match_integer (s : pystr) : option (Z * pystr) :=
  let negative := match s with c :: _ => c =? 45 | [] => false end in
  let s1 := if negative then drop 1 s else s in
  match s1 with
  | [] => None
  | c :: r =>
      if c =? 48 then Some (0, r)
      else if is_digit c then
        let '(n, r') := take_digits (c - 48) r in
        Some (if negative then - n else n, r')
      else None
  end.

(** The fraction of NUMBER_RE (a dot and at least one digit) and its
    exponent (e or E, an optional sign, at least one digit). *)
Definition has_frac (s : pystr) : bool :=
  match s with
  | d :: c :: _ => (d =? 46) && is_digit c
  | _ => false
  end.

Definition has_exp (s : pystr) : bool :=
  match s with
  | e :: c :: r =>
      ((e =? 101) || (e =? 69)) &&
      (is_digit c ||
       (((c =? 43) || (c =? 45)) &&
        match r with c2 :: _ => is_digit c2 | [] => false end))
  | _ => false
  end.

(** A number at the head of the text. A literal with a fraction or an
    exponent is a float, and NaN, Infinity and -Infinity are floats too:
    they are outside the embedding and are reported like an error. *)
Definition scan_number (s : pystr) : option (value * pystr) :=
  match match_integer s with
  | Some (n, r) => if has_frac r || has_exp r then None else Some (PInt n, r)
  | None => None
  end.

(** [dict(pairs)]: a repeated key keeps its first position and takes the
    last value. *)
Definition dict_of_pairs (pairs : record) : record :=
  foldl (fun d kv => dict_set d (fst kv) (snd kv)) [] pairs.

(** The scanner: [scan_once] dispatches on the first character;
    [array_loop] is the loop of JSONArray, entered at the first value;
    [object_loop] is the loop of JSONObject, entered behind the opening
    quote of a key. [depth] makes the recursion structural; [loads]
    passes a depth that no successful run needs more than
    ([loads_depth_adequate] below). *)
Fixpoint scan_once (depth : nat) (s : pystr) : option (value * pystr) :=
  match depth with
  | O => None
  | S n =>
      match s with
      | [] => None
      | c :: r =>
          if c =? 34 then
            match scanstring r with
            | Some (str, r') => Some (PStr str, r')
            | None => None
            end
          else if c =? 123 then
            match skip_ws r with
            | [] => None
            | q :: r1 =>
                if q =? 125 then Some (PDict [], r1)
                else if q =? 34 then
                  match object_loop n r1 with
                  | Some (pairs, r') => Some (PDict (dict_of_pairs pairs), r')
                  | None => None
                  end
                else None
            end
          else if c =? 91 then
            match skip_ws r with
            | [] => None
            | q :: r1 =>
                if q =? 93 then Some (PList [], r1)
                else
                  match array_loop n (q :: r1) with
                  | Some (values, r') => Some (PList values, r')
                  | None => None
                  end
            end
          else if starts_with (lit "null") s then Some (PNone, drop 4 s)
          else if starts_with (lit "true") s then Some (PBool true, drop 4 s)
          else if starts_with (lit "false") s then Some (PBool false, drop 5 s)
          else scan_number s
      end
  end
with array_loop (depth : nat) (s : pystr) : option (list value * pystr) :=
  match depth with
  | O => None
  | S n =>
      match scan_once n s with
      | None => None
      | Some (v, r) =>
          match skip_ws r with
          | [] => None
          | c :: r1 =>
              if c =? 93 then Some ([v], r1)
              else if c =? 44 then
                match array_loop n (skip_ws r1) with
                | Some (vs, r') => Some (v :: vs, r')
                | None => None
                end
              else None
          end
      end
  end
with object_loop (depth : nat) (s : pystr) : option (record * pystr) :=
  match depth with
  | O => None
  | S n =>
      match scanstring s with
      | None => None
      | Some (k, r) =>
          match skip_ws r with
          | [] => None
          | c :: r1 =>
              if c =? 58 then
                match scan_once n (skip_ws r1) with
                | None => None
                | Some (v, r2) =>
                    match skip_ws r2 with
                    | [] => None
                    | c2 :: r3 =>
                        if c2 =? 125 then Some ([(k, v)], r3)
                        else if c2 =? 44 then
                          match skip_ws r3 with
                          | [] => None
                          | q :: r4 =>
                              if q =? 34 then
                                match object_loop n r4 with
                                | Some (ps, r') => Some ((k, v) :: ps, r')
                                | None => None
                                end
                              else None
                          end
                        else None
                    end
                end
              else None
          end
      end
  end.

(** [json.loads(s)]: one value, white space around it, nothing else.
    [None] is json.JSONDecodeError. *)
Definition loads (s : pystr) : option value :=
  let s0 := skip_ws s in
  match scan_once (S (length s0)) s0 with
  | Some (v, r) => match skip_ws r with [] => Some v | _ :: _ => None end
  | None => None
  end.

(** ** memoryman/utils/serialization.py *)

(** [json.dumps(data, default=str)]. The [default] hook is only called
    for objects json cannot encode, of which a record has none. *)
Definition serialize_data (data : record) : pystr := dumps (PDict data).

(** [json.loads(data_str)]; [None] is json.JSONDecodeError. *)
Definition deserialize_data (data_str : pystr) : option value := loads data_str.

(** ** memoryman/storage/sqlite_backend.py *)

(** The exceptions the backend can let through. *)
Inductive pyexc : Type :=
| ProgrammingError  (** sqlite3: Cannot operate on a closed database. *)
| JSONDecodeError   (** json: the payload is not a JSON text. *)
| AttributeError.   (** a decoded payload that is no dict has no [get]. *)

Inductive result (A : Type) : Type :=
| Ok (a : A)
| Raise (e : pyexc).
Arguments Ok {A} a.
Arguments Raise {A} e.

#[global] Instance result_ret : MRet result := fun A a => Ok a.
#[global] Instance result_bind : MBind result := fun A B k m =>
  match m with
  | Ok a => k a
  | Raise e => Raise e
  end.

(** Evaluation of a list comprehension whose element expression may raise:
    left to right, the first exception ends it. *)
Fixpoint comprehension {A B : Type} (f : A -> result B) (l : list A)
  : result (list B) :=
  match l with
  | [] => Ok []
  | x :: l' => y ← f x; ys ← comprehension f l'; Ok (y :: ys)
  end.

(** Table [memories]. *)
Record memories_row : Type := {
  m_memory_id : pystr;
  m_memory_type : option pystr;
  m_created_at : Z
}.

(** Table [memory_data]; UNIQUE(memory_id, key). *)
Record data_row : Type := {
  d_id : Z;
  d_memory_id : pystr;
  d_key : pystr;
  d_data : pystr;
  d_created_at : Z;
  d_updated_at : Z
}.

(** The database file: both tables in rowid order, and the AUTOINCREMENT
    counter of [memory_data] (its entry in sqlite_sequence). *)
Record database : Type := {
  memories : list memories_row;
  memory_data : list data_row;
  sequence : Z
}.

(** A [SQLiteStorage] object: its connection, open or closed, and the
    database behind it. *)
Record SQLiteStorage : Type := {
  conn_closed : bool;
  db : database
}.

Definition row_is (memory_id key : pystr) (row : data_row) : bool :=
  bool_decide (d_memory_id row = memory_id) && bool_decide (d_key row = key).

Definition row_in (memory_id : pystr) (row : data_row) : bool :=
  bool_decide (d_memory_id row = memory_id).

(** [self.conn.cursor()] raises on a closed connection. *)
Definition cursor (self : SQLiteStorage) : result unit :=
  if conn_closed self then Raise ProgrammingError else Ok tt.

(** INSERT OR IGNORE INTO memories (memory_id) VALUES (?) *)
Definition insert_or_ignore_memory (now : Z) (memory_id : pystr)
    (ms : list memories_row) : list memories_row :=
  if existsb (fun m => bool_decide (m_memory_id m = memory_id)) ms then ms
  else ms ++ [{| m_memory_id := memory_id; m_memory_type := None;
                 m_created_at := now |}].

(** The rowid an AUTOINCREMENT table hands out next. *)
Definition next_rowid (d : database) : Z :=
  1 + foldr Z.max (sequence d) (d_id <$> memory_data d).

(** INSERT INTO memory_data (memory_id, key, data) VALUES (?, ?, ?)
    ON CONFLICT(memory_id, key) DO UPDATE
      SET data = excluded.data, updated_at = CURRENT_TIMESTAMP *)
Definition upsert (now : Z) (memory_id key serialized : pystr) (new_id : Z)
    (rows : list data_row) : list data_row :=
  if existsb (row_is memory_id key) rows then
    (fun row =>
       if row_is memory_id key row then
         {| d_id := d_id row; d_memory_id := d_memory_id row; d_key := d_key row;
            d_data := serialized;
            d_created_at := d_created_at row; d_updated_at := now |}
       else row) <$> rows
  else
    rows ++ [{| d_id := new_id; d_memory_id := memory_id; d_key := key;
                d_data := serialized;
                d_created_at := now; d_updated_at := now |}].

(** [store]; [now] is the value of CURRENT_TIMESTAMP. The rowid reserved
    for the insert is spent even when the statement ends up updating. *)
Definition store (now : Z) (self : SQLiteStorage) (memory_id key : pystr)
    (data : record) : result unit * SQLiteStorage :=
  match cursor self with
  | Raise e => (Raise e, self)
  | Ok _ =>
      let d := db self in
      let ms := insert_or_ignore_memory now memory_id (memories d) in
      let serialized := serialize_data data in
      let new_id := next_rowid d in
      let rows := upsert now memory_id key serialized new_id (memory_data d) in
      (Ok tt,
       {| conn_closed := conn_closed self;
          db := {| memories := ms; memory_data := rows; sequence := new_id |} |})
  end.

Definition decode_row (row : data_row) : result value :=
  match deserialize_data (d_data row) with
  | Some v => Ok v
  | None => Raise JSONDecodeError
  end.

(** [retrieve]: [cursor.fetchone()] is the first matching row. *)
Definition retrieve (self : SQLiteStorage) (memory_id key : pystr)
  : result (option value) :=
  _ ← cursor self;
  match List.find (row_is memory_id key) (memory_data (db self)) with
  | Some row => v ← decode_row row; Ok (Some v)
  | None => Ok None
  end.

(** [item.get(field) == value] on a decoded payload. *)
Definition item_matches (field : pystr) (v : value) (item : value) : result bool :=
  match item with
  | PDict d => Ok (py_eq (get_or_none d field) v)
  | _ => Raise AttributeError
  end.

Fixpoint filter_items (field : pystr) (v : value) (items : list value)
  : result (list value) :=
  match items with
  | [] => Ok []
  | item :: rest =>
      keep ← item_matches field v item;
      kept ← filter_items field v rest;
      Ok (if (keep : bool) then item :: kept else kept)
  end.

Fixpoint apply_filters (filters : record) (items : list value)
  : result (list value) :=
  match filters with
  | [] => Ok items
  | (field, v) :: filters' =>
      kept ← filter_items field v items;
      apply_filters filters' kept
  end.

(** [query]: the rows of the namespace in table order (the statement has
    no ORDER BY), all decoded, then filtered. *)
Definition query (self : SQLiteStorage) (memory_id : pystr) (filters : record)
  : result (list value) :=
  _ ← cursor self;
  let rows := List.filter (row_in memory_id) (memory_data (db self)) in
  all_data ← comprehension decode_row rows;
  apply_filters filters all_data.

(** [delete]: [cursor.rowcount > 0] tells whether a row went away. *)
Definition delete (self : SQLiteStorage) (memory_id key : pystr)
  : result bool * SQLiteStorage :=
  match cursor self with
  | Raise e => (Raise e, self)
  | Ok _ =>
      let d := db self in
      let rowcount := length (List.filter (row_is memory_id key) (memory_data d)) in
      let rows := List.filter (fun row => negb (row_is memory_id key row))
                    (memory_data d) in
      (Ok (0 <? Z.of_nat rowcount),
       {| conn_closed := conn_closed self;
          db := {| memories := memories d; memory_data := rows;
                   sequence := sequence d |} |})
  end.

(** [delete_memory] *)
Definition delete_memory (self : SQLiteStorage) (memory_id : pystr)
  : result unit * SQLiteStorage :=
  match cursor self with
  | Raise e => (Raise e, self)
  | Ok _ =>
      let d := db self in
      (Ok tt,
       {| conn_closed := conn_closed self;
          db := {| memories :=
                     List.filter
                       (fun m => negb (bool_decide (m_memory_id m = memory_id)))
                       (memories d);
                   memory_data :=
                     List.filter (fun row => negb (row_in memory_id row))
                       (memory_data d);
                   sequence := sequence d |} |})
  end.

(** [close]: closing a closed connection does nothing. *)
Definition close (self : SQLiteStorage) : result unit * SQLiteStorage :=
  (Ok tt, {| conn_closed := true; db := db self |}).

(** [SQLiteStorage(db_path)] on a new file. *)
Definition new_storage : SQLiteStorage :=
  {| conn_closed := false;
     db := {| memories := []; memory_data := []; sequence := 0 |} |}.

(** ** Vocabulary for the statements about the codec *)

(** The invariants of the Python objects themselves: every code point of
    every str is in range, and the keys of a dict are distinct. *)
Fixpoint wf_value (v : value) : bool :=
  match v with
  | PNone | PBool _ | PInt _ => true
  | PStr s => forallb valid_codepoint s
  | PList l => forallb wf_value l
  | PDict d =>
      bool_decide (NoDup (fst <$> d)) &&
      forallb (fun kv => forallb valid_codepoint (fst kv) && wf_value (snd kv)) d
  end.

(** A high surrogate immediately followed by a low surrogate. *)
Fixpoint has_surrogate_pair (s : pystr) : bool :=
  match s with
  | a :: (b :: _) as r =>
      (is_high_surrogate a && is_low_surrogate b) || has_surrogate_pair r
  | _ => false
  end.

(** No str of the value, key or field value, has such a pair. *)
Fixpoint no_surrogate_pairs (v : value) : bool :=
  match v with
  | PNone | PBool _ | PInt _ => true
  | PStr s => negb (has_surrogate_pair s)
  | PList l => forallb no_surrogate_pairs l
  | PDict d =>
      forallb (fun kv => negb (has_surrogate_pair (fst kv))
                         && no_surrogate_pairs (snd kv)) d
  end.

(** The text behind a value inside an array or an object, or at the end
    of the document: nothing, or a comma, or a closing bracket. *)
Definition value_end (rest : pystr) : Prop :=
  match rest with
  | [] => True
  | c :: _ => c = 44 \/ c = 93 \/ c = 125
  end.

(** The text begins with the [\uXXXX] escape of a low surrogate, or with
    a [\u] escape the scanner rejects. *)
Definition low_escape_ahead (s : pystr) : bool :=
  match s with
  | b :: u :: g1 :: g2 :: g3 :: g4 :: _ =>
      (b =? 92) && (u =? 117) &&
      match hex4 g1 g2 g3 g4 with
      | Some uni2 => is_low_surrogate uni2
      | None => true
      end
  | _ => false
  end.

(** The scanner reads the text of [v] back, whatever follows it inside a
    document, when given depth enough for the text. *)
Definition scans_back (v : value) : Prop :=
  forall (depth : nat) (rest : pystr),
    wf_value v = true -> no_surrogate_pairs v = true ->
    (length (dumps v) <= depth)%nat -> value_end rest ->
    scan_once depth (dumps v ++ rest) = Some (v, rest).

(** ** Vocabulary for the statements about [sort_by_field] *)

(** The two kinds of key the interpreter can order among themselves:
    numbers (int and bool) and strings. *)
Definition is_number (v : value) : Prop :=
  match v with PInt _ | PBool _ => True | _ => False end.

Definition is_string (v : value) : Prop :=
  match v with PStr _ => True | _ => False end.


Definition number_rank (v : value) : Z :=
  match v with PInt n => n | PBool b => int_of_bool b | _ => 0 end.

Definition string_rank (v : value) : pystr :=
  match v with PStr s => s | _ => [] end.

(** All keys are numbers, or all keys are strings. *)
Definition one_kind {A : Type} (key : A -> value) (l : list A) : Prop :=
  Forall (fun y => is_number (key y)) l \/ Forall (fun y => is_string (key y)) l.

(** No later element is smaller than an earlier one. *)
Definition ascending {A : Type} (key : A -> value) (l : list A) : Prop :=
  StronglySorted (fun a b => py_lt (key b) (key a) = Some false) l.

(** No later element is greater than an earlier one. *)
Definition descending {A : Type} (key : A -> value) (l : list A) : Prop :=
  StronglySorted (fun a b => py_lt (key a) (key b) = Some false) l.

(** Neither key is smaller than the other. *)
Definition key_equiv (a b : value) : bool :=
  match py_lt a b, py_lt b a with
  | Some false, Some false => true
  | _, _ => false
  end.

(** Stability: the elements whose key ties with [k] come in the same
    order in both lists, whatever [k] is among the keys of kind [kind]. *)
Definition same_order_of_ties {A : Type} (key : A -> value)
    (kind : value -> Prop) (l l' : list A) : Prop :=
  forall k, kind k ->
    List.filter (fun x => key_equiv k (key x)) l'
    = List.filter (fun x => key_equiv k (key x)) l.

(** ** memoryman/storage/sqlite_backend.py: enumeration *)

(** ORDER BY created_at, as SQLite's sorter yields it: ascending, rows
    with the same created_at in the order the scan delivers them, which
    is table order here. *)
Fixpoint insert_by_created_at (row : data_row) (sorted : list data_row)
  : list data_row :=
  match sorted with
  | [] => [row]
  | r :: rest =>
      if d_created_at row <? d_created_at r then row :: r :: rest
      else r :: insert_by_created_at row rest
  end.

Definition order_by_created_at (rows : list data_row) : list data_row :=
  foldl (fun sorted row => insert_by_created_at row sorted) [] rows.

(** [list_keys] *)
Definition list_keys (self : SQLiteStorage) (memory_id : pystr)
  : result (list pystr) :=
  _ ← cursor self;
  Ok (d_key <$> order_by_created_at
                  (List.filter (row_in memory_id) (memory_data (db self)))).

(** What the schema declares and the operations maintain: UNIQUE
    (memory_id, key) on memory_data, its AUTOINCREMENT rowids (distinct,
    never above the counter), PRIMARY KEY memory_id on memories, and
    every data row's memory_id present in memories. *)
Definition db_ok (d : database) : Prop :=
  NoDup ((fun row => (d_memory_id row, d_key row)) <$> memory_data d) /\
  NoDup (d_id <$> memory_data d) /\
  Forall (fun row => d_id row <= sequence d) (memory_data d) /\
  NoDup (m_memory_id <$> memories d) /\
  Forall (fun row => d_memory_id row ∈ (m_memory_id <$> memories d))
    (memory_data d).

(** The rows of a namespace hold the encodings of [records], one each, in
    table order, and every record is one the codec restores. *)
Definition holds_records (d : database) (memory_id : pystr)
    (records : list record) : Prop :=
  Forall2 (fun row r => d_data row = serialize_data r /\
                        wf_value (PDict r) = true /\
                        no_surrogate_pairs (PDict r) = true)
    (List.filter (row_in memory_id) (memory_data d)) records.

(** ** memoryman/memory_types/long_term.py *)

(** The exceptions of the layers above the backend: those the backend
    lets through, and two more. *)
Inductive pyerror : Type :=
| Exc (e : pyexc)
| TypeError    (** an operand of a kind the operation does not take *)
| ValueError.  (** MemoryManager: unknown memory type *)

Inductive outcome (A : Type) : Type :=
| Return (a : A)
| Fail (e : pyerror).
Arguments Return {A} a.
Arguments Fail {A} e.

#[global] Instance outcome_ret : MRet outcome := fun A a => Return a.
#[global] Instance outcome_bind : MBind outcome := fun A B k m =>
  match m with
  | Return a => k a
  | Fail e => Fail e
  end.

Definition of_result {A : Type} (r : result A) : outcome A :=
  match r with
  | Ok a => Return a
  | Raise e => Fail (Exc e)
  end.

(** Truth value of an object: None, False, zero and the empty str, list
    and dict are false. *)
Definition truthy (v : value) : bool :=
  match v with
  | PNone => false
  | PBool b => b
  | PInt n => negb (n =? 0)
  | PStr s => match s with [] => false | _ :: _ => true end
  | PList l => match l with [] => false | _ :: _ => true end
  | PDict d => match d with [] => false | _ :: _ => true end
  end.

(** The four classes. A memory object holds its [memory_id]; the storage
    engine it points to is shared with the other memory objects and is
    passed along. ([created_at], set by [Memory.__init__], is never
    read.) *)
Inductive memory_class : Type :=
| ShortTermMemory
| LongTermMemory
| EpisodicMemory
| SemanticMemory.

Record Memory : Type := {
  mem_class : memory_class;
  mem_id : pystr
}.

(** [if k not in data: data[k] = v] *)
Definition set_default (data : record) (k : pystr) (v : value) : record :=
  match dict_get data k with
  | Some _ => data
  | None => dict_set data k v
  end.

(** The metadata [store] adds to the caller's dict; [stamp] is
    [datetime.now().isoformat()]. *)
Definition add_metadata (c : memory_class) (key stamp : pystr) (data : record)
  : record :=
  let data := set_default data (lit "timestamp") (PStr stamp) in
  match c with
  | ShortTermMemory =>
      set_default data (lit "memory_type") (PStr (lit "short_term"))
  | LongTermMemory =>
      let data := set_default data (lit "memory_type") (PStr (lit "long_term")) in
      set_default data (lit "category") (PStr (lit "general"))
  | EpisodicMemory =>
      let data := set_default data (lit "memory_type") (PStr (lit "episodic")) in
      set_default data (lit "episode_id") (PStr key)
  | SemanticMemory =>
      let data := set_default data (lit "memory_type") (PStr (lit "semantic")) in
      set_default data (lit "tags") (PList [])
  end.

(** [store]: the result, the storage afterwards, and the caller's dict
    afterwards, which is changed in place before the backend is called. *)
Definition mem_store (now : Z) (stamp : pystr) (self : Memory)
    (storage : SQLiteStorage) (key : pystr) (data : record)
  : outcome unit * SQLiteStorage * record :=
  let data := add_metadata (mem_class self) key stamp data in
  let after := store now storage (mem_id self) key data in
  (of_result (fst after), snd after, data).

(** [retrieve]; Python's None is the result both for no row and for a
    row whose payload is JSON null. *)
Definition mem_retrieve (self : Memory) (storage : SQLiteStorage) (key : pystr)
  : outcome value :=
  of_result (found ← retrieve storage (mem_id self) key; Ok (default PNone found)).

(** [Memory.list_keys] and [Memory.count] (core/memory_base.py) *)
Definition mem_list_keys (self : Memory) (storage : SQLiteStorage)
  : outcome (list pystr) :=
  of_result (list_keys storage (mem_id self)).

Definition mem_count (self : Memory) (storage : SQLiteStorage) : outcome Z :=
  keys ← mem_list_keys self storage; Return (Z.of_nat (length keys)).

(** [[self.retrieve(key) for key in all_keys if self.retrieve(key)]]:
    each key is retrieved for the test and, when the result is true,
    once more for the element. *)
Fixpoint retrieve_each (self : Memory) (storage : SQLiteStorage)
    (all_keys : list pystr) : outcome (list value) :=
  match all_keys with
  | [] => Return []
  | key :: rest =>
      test ← mem_retrieve self storage key;
      head ← (if truthy test
              then item ← mem_retrieve self storage key; Return [item]
              else Return []);
      tail ← retrieve_each self storage rest;
      Return (head ++ tail)
  end.

Definition all_data (self : Memory) (storage : SQLiteStorage)
  : outcome (list value) :=
  all_keys ← of_result (list_keys storage (mem_id self));
  retrieve_each self storage all_keys.

(** *** SimpleRetriever on what the storage returned

    The retrieved objects are dicts when the rows were written by
    [store]; an object of another kind has no [get] and no [items]. *)
Definition as_dict (item : value) : result record :=
  match item with
  | PDict d => Ok d
  | _ => Raise AttributeError
  end.

(** [items[:limit]] *)
Definition slice_to {A : Type} (items : list A) (limit : Z) : list A :=
  if 0 <=? limit then take (Z.to_nat limit) items
  else take (Z.to_nat (Z.of_nat (length items) + limit)) items.

(** [sort_by_field]: [sorted] computes the key of every item before it
    compares any two, and only TypeError is caught. *)
Definition sort_objects (items : list value) (field : pystr) (rev : bool)
  : result (list value) :=
  records ← comprehension as_dict items;
  Ok (PDict <$> sort_by_field records field rev).

(** [SimpleRetriever.get_recent(all_data, limit=limit)] *)
Definition get_recent_objects (items : list value) (limit : Z)
  : result (list value) :=
  sorted_items ← sort_objects items (lit "timestamp") true;
  Ok (slice_to sorted_items limit).

Section MemoryTypes.
Variable isprintable : Z -> bool.
Variable lower : pystr -> pystr.

(** [search_text(result, query)]: without a field list every item is
    asked for its [items()]. *)
Definition search_objects (items : list value) (search_term : pystr)
  : result (list value) :=
  records ← comprehension as_dict items;
  Ok (PDict <$> search_text isprintable lower records search_term None).

(** The loop over a non-empty field list, for one item. [field in item]
    is a key test on a dict, a substring test on a str, a comparison with
    the members on a list, and a TypeError otherwise; where it holds on
    a str or a list, [item[field]] is a TypeError. *)
Fixpoint scan_fields_object (term_lower : pystr) (item : value)
    (fields : list pystr) : outcome bool :=
  match fields with
  | [] => Return false
  | field :: rest =>
      match item with
      | PDict d =>
          match dict_get d field with
          | Some v =>
              if str_contains term_lower (lower (py_str isprintable v))
              then Return true
              else scan_fields_object term_lower item rest
          | None => scan_fields_object term_lower item rest
          end
      | PStr s =>
          if str_contains field s then Fail TypeError
          else scan_fields_object term_lower item rest
      | PList l =>
          if existsb (fun x => py_eq x (PStr field)) l then Fail TypeError
          else scan_fields_object term_lower item rest
      | PNone | PBool _ | PInt _ => Fail TypeError
      end
  end.

Fixpoint search_fields_loop (term_lower : pystr) (items : list value)
    (fields : list pystr) : outcome (list value) :=
  match items with
  | [] => Return []
  | item :: rest =>
      hit ← scan_fields_object term_lower item fields;
      kept ← search_fields_loop term_lower rest fields;
      Return (if (hit : bool) then item :: kept else kept)
  end.

(** [search_text(result, query, fields=[...])] for a non-empty list. *)
Definition search_fields_objects (items : list value) (search_term : pystr)
    (fields : list pystr) : outcome (list value) :=
  search_fields_loop (lower search_term) items fields.

(** [query] of the four classes: filters when there are any, text search
    when the query is not empty (SemanticMemory in three named fields),
    and for ShortTermMemory and EpisodicMemory the newest first. The
    filter loop of [filter_by_multiple] is the one of the backend's
    [query], [apply_filters]. *)
Definition mem_query (self : Memory) (storage : SQLiteStorage) (query : pystr)
    (kwargs : record) : outcome (list value) :=
  all_data ← all_data self storage;
  filtered ← match kwargs with
              | [] => Return all_data
              | _ :: _ => of_result (apply_filters kwargs all_data)
              end;
  found ← match query with
           | [] => Return filtered
           | _ :: _ =>
               match mem_class self with
               | SemanticMemory =>
                   search_fields_objects filtered query
                     [lit "title"; lit "content"; lit "tags"]
               | _ => of_result (search_objects filtered query)
               end
           end;
  match mem_class self with
  | ShortTermMemory | EpisodicMemory =>
      of_result (sort_objects found (lit "timestamp") true)
  | LongTermMemory | SemanticMemory => Return found
  end.

(** [ShortTermMemory.get_recent] *)
Definition mem_get_recent (self : Memory) (storage : SQLiteStorage) (limit : Z)
  : outcome (list value) :=
  all_data ← all_data self storage;
  of_result (get_recent_objects all_data limit).

(** [LongTermMemory.get_by_category] *)
Definition get_by_category (self : Memory) (storage : SQLiteStorage)
    (category : pystr) : outcome (list value) :=
  mem_query self storage [] [(lit "category", PStr category)].

(** [start_date <= item.get("timestamp", "") <= end_date]; a str
    compares with a str only. *)
Definition in_date_range (start_date end_date : pystr) (item : value)
  : outcome bool :=
  match item with
  | PDict d =>
      match sort_key (lit "timestamp") d with
      | PStr t =>
          Return (if str_ltb t start_date then false else negb (str_ltb end_date t))
      | _ => Fail TypeError
      end
  | _ => Fail (Exc AttributeError)
  end.

Fixpoint date_range_loop (start_date end_date : pystr) (items : list value)
  : outcome (list value) :=
  match items with
  | [] => Return []
  | item :: rest =>
      keep ← in_date_range start_date end_date item;
      kept ← date_range_loop start_date end_date rest;
      Return (if (keep : bool) then item :: kept else kept)
  end.

(** [EpisodicMemory.get_by_date_range] *)
Definition get_by_date_range (self : Memory) (storage : SQLiteStorage)
    (start_date end_date : pystr) : outcome (list value) :=
  all_data ← all_data self storage;
  result ← date_range_loop start_date end_date all_data;
  of_result (sort_objects result (lit "timestamp") true).

(** [tag in item.get("tags", [])], [tag] a str. *)
Definition tag_in (tag : pystr) (tags_of_item : value) : outcome bool :=
  match tags_of_item with
  | PList l => Return (existsb (fun x => py_eq x (PStr tag)) l)
  | PStr s => Return (str_contains tag s)
  | PDict d => Return (match dict_get d tag with Some _ => true | None => false end)
  | PNone | PBool _ | PInt _ => Fail TypeError
  end.

(** [any(tag in item.get("tags", []) for tag in tags)]: nothing of the
    item is looked at when [tags] is empty. *)
Fixpoint any_tag (tags : list pystr) (item : value) : outcome bool :=
  match tags with
  | [] => Return false
  | tag :: rest =>
      match item with
      | PDict d =>
          hit ← tag_in tag (default (PList []) (dict_get d (lit "tags")));
          if (hit : bool) then Return true else any_tag rest item
      | _ => Fail (Exc AttributeError)
      end
  end.

Fixpoint tags_loop (tags : list pystr) (items : list value)
  : outcome (list value) :=
  match items with
  | [] => Return []
  | item :: rest =>
      keep ← any_tag tags item;
      kept ← tags_loop tags rest;
      Return (if (keep : bool) then item :: kept else kept)
  end.

(** [SemanticMemory.search_by_tags] *)
Definition search_by_tags (self : Memory) (storage : SQLiteStorage)
    (tags : list pystr) : outcome (list value) :=
  all_data ← all_data self storage;
  tags_loop tags all_data.

End MemoryTypes.

(** [delete] and [clear] *)
Definition mem_delete (self : Memory) (storage : SQLiteStorage) (key : pystr)
  : outcome bool * SQLiteStorage :=
  let after := delete storage (mem_id self) key in
  (of_result (fst after), snd after).

Definition mem_clear (self : Memory) (storage : SQLiteStorage)
  : outcome unit * SQLiteStorage :=
  let after := delete_memory storage (mem_id self) in
  (of_result (fst after), snd after).

(** ** memoryman/core/memory_manager.py *)

(** [self.memory_types], in the order of the dict display: one memory
    object per type, its [memory_id] the name of the type, all four on
    the manager's one storage. *)
Definition memory_types : list (pystr * Memory) :=
  [(lit "short_term",
    {| mem_class := ShortTermMemory; mem_id := lit "short_term" |});
   (lit "long_term",
    {| mem_class := LongTermMemory; mem_id := lit "long_term" |});
   (lit "episodic",
    {| mem_class := EpisodicMemory; mem_id := lit "episodic" |});
   (lit "semantic",
    {| mem_class := SemanticMemory; mem_id := lit "semantic" |})].

(** [self.memory_types[memory_type]]; [None] when
    [memory_type not in self.memory_types]. *)
Definition memory_of (memory_type : pystr) : option Memory :=
  snd <$> List.find (fun entry => bool_decide (fst entry = memory_type))
            memory_types.

(** The [data] argument of [MemoryManager.store]: a str or a dict. *)
Inductive store_data : Type :=
| Text (s : pystr)
| Fields (d : record).

(** [MemoryManager.store]: the key used, and the storage afterwards. *)
Definition mgr_store (now : Z) (stamp : pystr) (storage : SQLiteStorage)
    (memory_type : pystr) (data : store_data) (key : option pystr)
  : outcome pystr * SQLiteStorage :=
  match memory_of memory_type with
  | None => (Fail ValueError, storage)
  | Some memory =>
      let data := match data with
                  | Text s => [(lit "content", PStr s)]
                  | Fields d => d
                  end in
      let chosen := match key with
                    | Some k => Return k
                    | None =>
                        n ← mem_count memory storage;
                        Return (memory_type ++ lit "_" ++ int_repr n)
                    end in
      match chosen with
      | Fail e => (Fail e, storage)
      | Return k =>
          let after := mem_store now stamp memory storage k data in
          (_ ← fst (fst after); Return k, snd (fst after))
      end
  end.

Definition mgr_retrieve (storage : SQLiteStorage) (memory_type key : pystr)
  : outcome value :=
  match memory_of memory_type with
  | None => Fail ValueError
  | Some memory => mem_retrieve memory storage key
  end.

Section Manager.
Variable isprintable : Z -> bool.
Variable lower : pystr -> pystr.

(** [MemoryManager.query]: [search_query or ""] goes to the parameter
    [query] of the memory's method, so a filter of that name (or named
    [self]) cannot be passed on: the call raises TypeError. *)
Definition mgr_query (storage : SQLiteStorage) (memory_type : pystr)
    (search_query : option pystr) (filters : record) : outcome (list value) :=
  match memory_of memory_type with
  | None => Fail ValueError
  | Some memory =>
      match dict_get filters (lit "query"), dict_get filters (lit "self") with
      | None, None =>
          mem_query isprintable lower memory storage (default [] search_query)
            filters
      | _, _ => Fail TypeError
      end
  end.

(** [MemoryManager.get_recent]: of the four classes only ShortTermMemory
    has a [get_recent]; the others take the fallback. *)
Definition mgr_get_recent (storage : SQLiteStorage) (memory_type : pystr)
    (limit : Z) : outcome (list value) :=
  match memory_of memory_type with
  | None => Fail ValueError
  | Some memory =>
      match mem_class memory with
      | ShortTermMemory => mem_get_recent memory storage limit
      | _ =>
          all_data ← all_data memory storage;
          sorted_data ← of_result (sort_objects all_data (lit "timestamp") true);
          Return (slice_to sorted_data limit)
      end
  end.

(** The loop of [MemoryManager.search]; [results] maps a type to the
    list found for it. *)
Fixpoint search_loop (storage : SQLiteStorage) (query : pystr)
    (types : list pystr) (limit : Z) (results : record) : outcome record :=
  match types with
  | [] => Return results
  | mem_type :: rest =>
      match memory_of mem_type with
      | Some _ =>
          search_results ← mgr_query storage mem_type (Some query) [];
          search_loop storage query rest limit
            (dict_set results mem_type (PList (slice_to search_results limit)))
      | None => search_loop storage query rest limit results
      end
  end.

Definition mgr_search (storage : SQLiteStorage) (query : pystr)
    (types : option (list pystr)) (limit : Z) : outcome record :=
  search_loop storage query (default (fst <$> memory_types) types) limit [].

End Manager.

Definition mgr_delete (storage : SQLiteStorage) (memory_type key : pystr)
  : outcome bool * SQLiteStorage :=
  match memory_of memory_type with
  | None => (Fail ValueError, storage)
  | Some memory => mem_delete memory storage key
  end.

Definition mgr_clear (storage : SQLiteStorage) (memory_type : pystr)
  : outcome unit * SQLiteStorage :=
  match memory_of memory_type with
  | None => (Fail ValueError, storage)
  | Some memory => mem_clear memory storage
  end.

(** [clear_all]: one [clear] after the other; an exception ends it. *)
Fixpoint clear_loop (storage : SQLiteStorage) (types : list pystr)
  : outcome unit * SQLiteStorage :=
  match types with
  | [] => (Return tt, storage)
  | mem_type :: rest =>
      match mgr_clear storage mem_type with
      | (Return _, storage') => clear_loop storage' rest
      | (Fail e, storage') => (Fail e, storage')
      end
  end.

Definition mgr_clear_all (storage : SQLiteStorage) : outcome unit * SQLiteStorage :=
  clear_loop storage (fst <$> memory_types).

(** The rows of a namespace stand in the table in the order of their
    creation times, as they do when the clock never ran backwards
    between two stores. *)
Definition in_creation_order (d : database) (memory_id : pystr) : Prop :=
  StronglySorted (fun a b => d_created_at a <= d_created_at b)
    (List.filter (row_in memory_id) (memory_data d)).

(** * Properties *)

Arguments deserialize_data : simpl never.
Arguments serialize_data : simpl never.
Arguments decode_row : simpl never.

(** ** Retrieval engine: filters, search, limit *)

Lemma py_eq_none_l (v : value) : py_eq PNone v = true <-> v = PNone.
Proof. destruct v; simpl; split; congruence. Qed.

Lemma list_filter_sublist {A : Type} (p : A -> bool) (l : list A) :
  List.filter p l `sublist_of` l.
Proof.
  induction l as [|x l IH]; simpl.
  - constructor.
  - destruct (p x); constructor; exact IH.
Qed.

Lemma filter_by_field_sublist items field v :
  filter_by_field items field v `sublist_of` items.
Proof. apply list_filter_sublist. Qed.

Lemma filter_by_multiple_sublist filters : forall items,
  filter_by_multiple items filters `sublist_of` items.
Proof.
  induction filters as [|[f v] filters IH]; intros items; simpl.
  - reflexivity.
  - etrans; [apply IH|]. apply filter_by_field_sublist.
Qed.

Lemma limit_results_sublist items limit :
  limit_results items limit `sublist_of` items.
Proof. unfold limit_results. destruct (0 <=? limit); apply sublist_take. Qed.

Lemma foldl_append_filter {A : Type} (p : A -> bool) (l : list A) :
  forall acc,
    foldl (fun results x => if p x then results ++ [x] else results) acc l
    = acc ++ List.filter p l.
Proof.
  induction l as [|x l IH]; intros acc; simpl.
  - by rewrite app_nil_r.
  - rewrite IH. destruct (p x); [|done]. by rewrite <- app_assoc.
Qed.

Section SearchText.
Variable isprintable : Z -> bool.
Variable lower : pystr -> pystr.

Lemma scan_fields_spec term item fields :
  scan_fields isprintable lower (lower term) item fields
  = spec_field_match isprintable lower term fields item.
Proof.
  induction fields as [|f fields IH]; simpl; [done|].
  destruct (dict_get item f) as [v|]; simpl; [|exact IH].
  destruct (str_contains _ _); [done|exact IH].
Qed.

Lemma scan_items_spec term item :
  scan_items lower (lower term) item = spec_string_match lower term item.
Proof.
  induction item as [|[k v] item IH]; simpl; [done|].
  destruct v; simpl; try exact IH.
  destruct (str_contains _ _); [done|exact IH].
Qed.

(** [search_text] is the filter by the predicate its two inner loops
    compute; which loop runs depends on the truth value of [fields]. *)
Lemma search_text_filter items term fields :
  search_text isprintable lower items term fields
  = List.filter
      (fun item =>
         if truthy_fields fields
         then spec_field_match isprintable lower term (default [] fields) item
         else spec_string_match lower term item)
      items.
Proof.
  unfold search_text.
  destruct (truthy_fields fields) eqn:Ht.
  - rewrite (foldl_append_filter
               (fun item => scan_fields isprintable lower (lower term) item
                              (default [] fields))).
    simpl. apply List.filter_ext. intros item. apply scan_fields_spec.
  - rewrite (foldl_append_filter
               (fun item => scan_items lower (lower term) item)).
    simpl. apply List.filter_ext. intros item. apply scan_items_spec.
Qed.

Lemma search_text_sublist items term fields :
  search_text isprintable lower items term fields `sublist_of` items.
Proof. rewrite search_text_filter. apply list_filter_sublist. Qed.

End SearchText.

(** C7 (as stated): a record that lacks the field is kept when the filter
    value is None, because [item.get(field)] reads a missing field as None. *)
Lemma C7_missing_field_kept_for_none :
  let item := [(lit "name", PStr (lit "ada"))] in
  dict_get item (lit "age") = None /\
  In item (filter_by_field [item] (lit "age") PNone).
Proof. split; [reflexivity|]. left. reflexivity. Qed.

(** C7 (amended): [filter_by_field] keeps exactly the records whose value
    at the field, read as None when the field is missing, is [==] to the
    filter value; it is a total function, so it never raises; a record in
    which the field is missing is kept if the filter value is None and
    excluded for every other filter value. *)
Theorem C7_filter_by_field_amended (items : list record) (field : pystr) (v : value) :
  (forall item,
      In item (filter_by_field items field v)
      <-> In item items /\ py_eq (get_or_none item field) v = true) /\
  (forall item,
      dict_get item field = None -> In item items ->
      (In item (filter_by_field items field v) <-> v = PNone)).
Proof.
  split.
  - intros item. unfold filter_by_field. apply List.filter_In.
  - intros item Hmiss Hin. unfold filter_by_field.
    rewrite List.filter_In. unfold get_or_none. rewrite Hmiss.
    change (default PNone None) with PNone.
    rewrite py_eq_none_l. tauto.
Qed.

Lemma C7_filter_by_field_amended_witness :
  let item := [(lit "name", PStr (lit "ada"))] in
  (In item (filter_by_field [item] (lit "age") PNone) <-> PNone = PNone) /\
  (In item (filter_by_field [item] (lit "age") (PInt 36)) <-> PInt 36 = PNone).
Proof.
  split.
  - apply (proj2 (C7_filter_by_field_amended
                    [[(lit "name", PStr (lit "ada"))]] (lit "age") PNone));
      [reflexivity | left; reflexivity].
  - apply (proj2 (C7_filter_by_field_amended
                    [[(lit "name", PStr (lit "ada"))]] (lit "age") (PInt 36)));
      [reflexivity | left; reflexivity].
Defined.

(** C10: [filter_by_field], [filter_by_multiple], [search_text] and
    [limit_results] each return a subsequence of their input (elements of
    the input, in the input's order, none repeated that the input does not
    repeat), and so does the pipeline filter, then search, then limit. *)
Theorem C10_retrieval_subsequence (isprintable : Z -> bool) (lower : pystr -> pystr)
    (items : list record) (field : pystr) (v : value) (filters : record)
    (term : pystr) (fields : option (list pystr)) (limit : Z) :
  filter_by_field items field v `sublist_of` items /\
  filter_by_multiple items filters `sublist_of` items /\
  search_text isprintable lower items term fields `sublist_of` items /\
  limit_results items limit `sublist_of` items /\
  limit_results
    (search_text isprintable lower (filter_by_multiple items filters) term fields)
    limit `sublist_of` items /\
  (NoDup items ->
   NoDup (filter_by_field items field v) /\
   NoDup (filter_by_multiple items filters) /\
   NoDup (search_text isprintable lower items term fields) /\
   NoDup (limit_results items limit)).
Proof.
  pose proof (filter_by_field_sublist items field v) as H1.
  pose proof (filter_by_multiple_sublist filters items) as H2.
  pose proof (search_text_sublist isprintable lower items term fields) as H3.
  pose proof (limit_results_sublist items limit) as H4.
  repeat split; try assumption.
  - etrans; [apply limit_results_sublist|].
    etrans; [apply search_text_sublist|]. exact H2.
  - eapply sublist_NoDup; eassumption.
  - eapply sublist_NoDup; eassumption.
  - eapply sublist_NoDup; eassumption.
  - eapply sublist_NoDup; eassumption.
Qed.

Lemma C10_retrieval_subsequence_witness :
  let a := [(lit "role", PStr (lit "user"))] in
  let b := [(lit "role", PStr (lit "assistant"))] in
  NoDup (filter_by_field [a; b] (lit "role") (PStr (lit "user"))) /\
  NoDup (limit_results [a; b] 1).
Proof.
  pose proof (C10_retrieval_subsequence (fun _ => true) ascii_lower
                [[(lit "role", PStr (lit "user"))];
                 [(lit "role", PStr (lit "assistant"))]]
                (lit "role") (PStr (lit "user")) [] (lit "u") None 1) as H.
  destruct H as (_ & _ & _ & _ & _ & H).
  assert (Hnd : NoDup [[(lit "role", PStr (lit "user"))];
                       [(lit "role", PStr (lit "assistant"))]]).
  { apply NoDup_cons_2; [|apply NoDup_singleton].
    rewrite list_elem_of_singleton. vm_compute. discriminate. }
  destruct (H Hnd) as (Ha & _ & _ & Hb). split; assumption.
Defined.

(** C2 (as stated): with an empty field list given, no listed field can
    match, yet the record is kept: [if fields:] sends the empty list to the
    scan of all string fields. *)
Lemma C2_empty_field_list_scans_all :
  let item := [(lit "note", PStr (lit "Hello world"))] in
  spec_field_match (fun _ => true) ascii_lower (lit "hello") [] item = false /\
  search_text (fun _ => true) ascii_lower [item] (lit "hello") (Some []) = [item].
Proof. split; reflexivity. Qed.

(** C2 (amended): [search_text] keeps, in input order and once per
    occurrence in the input, exactly the records that match: with a
    non-empty field list, those for which the lower-cased term is a
    substring of the lower-cased text form of some listed field that is
    present; with no field list or an empty one, those for which it is a
    substring of the lower-cased value of some field whose value is a
    string. In particular a search for hello keeps a record holding
    Hello world and drops one holding goodbye. *)
Theorem C2_search_text_amended (isprintable : Z -> bool) (lower : pystr -> pystr)
    (items : list record) (term : pystr) (fields : option (list pystr)) :
  search_text isprintable lower items term fields
  = List.filter
      (fun item =>
         match fields with
         | Some (f :: fs) => spec_field_match isprintable lower term (f :: fs) item
         | Some [] | None => spec_string_match lower term item
         end)
      items /\
  search_text isprintable ascii_lower
    [[(lit "content", PStr (lit "Hello world")); (lit "n", PInt 1)];
     [(lit "content", PStr (lit "goodbye")); (lit "n", PInt 2)]]
    (lit "hello") None
  = [[(lit "content", PStr (lit "Hello world")); (lit "n", PInt 1)]].
Proof.
  split; [|reflexivity].
  rewrite search_text_filter. apply List.filter_ext. intros item.
  destruct fields as [[|f fs]|]; reflexivity.
Qed.

(** ** Persistence backend *)

Lemma rowcount_positive {A : Type} (p : A -> bool) (l : list A) :
  (0 <? Z.of_nat (length (List.filter p l))) = existsb p l.
Proof.
  induction l as [|x l IH]; simpl; [done|].
  destruct (p x); simpl; [|exact IH].
  apply Z.ltb_lt. lia.
Qed.

Lemma filter_negb_twice {A : Type} (p : A -> bool) (l : list A) :
  List.filter p (List.filter (fun x => negb (p x)) l) = [].
Proof.
  induction l as [|x l IH]; simpl; [done|].
  destruct (p x) eqn:Hp; simpl; [exact IH|]. by rewrite Hp.
Qed.

Lemma filter_negb_idem {A : Type} (p : A -> bool) (l : list A) :
  List.filter (fun x => negb (p x)) (List.filter (fun x => negb (p x)) l)
  = List.filter (fun x => negb (p x)) l.
Proof.
  induction l as [|x l IH]; simpl; [done|].
  destruct (p x) eqn:Hp; simpl; [exact IH|]. rewrite Hp. simpl. by rewrite IH.
Qed.

Lemma filter_negb_none {A : Type} (p : A -> bool) (l : list A) :
  existsb p l = false -> List.filter (fun x => negb (p x)) l = l.
Proof.
  induction l as [|x l IH]; simpl; [done|].
  intros [Hx Hl]%orb_false_iff. rewrite Hx. simpl. by rewrite IH.
Qed.



Lemma decode_row_some (row : data_row) (v : value) :
  deserialize_data (d_data row) = Some v -> decode_row row = Ok v.
Proof. unfold decode_row. by intros ->. Qed.



(** C5: once [close] has run, [store], [retrieve] and [query] (and the
    two deletes) fail with the closed-connection error, which the code
    raises as sqlite3.ProgrammingError and the spec calls
    ClosedBackendError; the state is left as it was, and a second [close]
    succeeds and changes nothing. *)
Theorem C5_closed_backend_guard (self : SQLiteStorage) (now : Z)
    (memory_id key : pystr) (data filters : record) :
  let closed := snd (close self) in
  fst (close self) = Ok tt /\
  store now closed memory_id key data = (Raise ProgrammingError, closed) /\
  retrieve closed memory_id key = Raise ProgrammingError /\
  query closed memory_id filters = Raise ProgrammingError /\
  delete closed memory_id key = (Raise ProgrammingError, closed) /\
  delete_memory closed memory_id = (Raise ProgrammingError, closed) /\
  close closed = (Ok tt, closed).
Proof. repeat split. Qed.

(** C6: on an open backend [store] succeeds; when the (namespace, key)
    already holds a row, the table keeps its length and every row its
    place, the matching row keeps id, namespace, key and created_at and
    gets the new payload and updated_at, and every other row is unchanged;
    when the key is new, one row is appended with created_at and
    updated_at set to the current time; the namespace tracking entry is
    appended if absent and the tracking table is unchanged otherwise. *)
Theorem C6_store_replace_semantics (now : Z) (self : SQLiteStorage)
    (memory_id key : pystr) (data : record)
    (Hopen : conn_closed self = false) :
  let after := snd (store now self memory_id key data) in
  let rows := memory_data (db self) in
  let rows' := memory_data (db after) in
  fst (store now self memory_id key data) = Ok tt /\
  conn_closed after = false /\
  (existsb (row_is memory_id key) rows = true ->
   length rows' = length rows /\
   forall (i : nat) (row : data_row),
     rows !! i = Some row ->
     exists row', rows' !! i = Some row' /\
       if row_is memory_id key row
       then d_data row' = serialize_data data /\
            d_updated_at row' = now /\
            d_created_at row' = d_created_at row /\
            d_id row' = d_id row /\
            d_memory_id row' = d_memory_id row /\
            d_key row' = d_key row
       else row' = row) /\
  (existsb (row_is memory_id key) rows = false ->
   exists new_row,
     rows' = rows ++ [new_row] /\
     d_memory_id new_row = memory_id /\ d_key new_row = key /\
     d_data new_row = serialize_data data /\
     d_created_at new_row = now /\ d_updated_at new_row = now) /\
  (if existsb (fun m => bool_decide (m_memory_id m = memory_id)) (memories (db self))
   then memories (db after) = memories (db self)
   else memories (db after)
        = memories (db self)
            ++ [{| m_memory_id := memory_id; m_memory_type := None;
                   m_created_at := now |}]).
Proof.
  unfold store, cursor. rewrite Hopen. simpl.
  split; [done|]. split; [done|].
  split; [|split].
  - intros Hex. unfold upsert. rewrite Hex. split.
    + by rewrite length_fmap.
    + intros i row Hi. rewrite list_lookup_fmap, Hi. simpl.
      eexists; split; [reflexivity|].
      destruct (row_is memory_id key row); simpl; done.
  - intros Hex. unfold upsert. rewrite Hex. eexists; split; [reflexivity|].
    simpl. done.
  - unfold insert_or_ignore_memory.
    by destruct (existsb _ (memories (db self))).
Qed.

Lemma C6_store_replace_semantics_witness :
  let first := snd (store 100 new_storage (lit "x") (lit "a")
                      [(lit "v", PInt 1)]) in
  let second := snd (store 200 first (lit "x") (lit "a") [(lit "v", PInt 2)]) in
  fst (store 200 first (lit "x") (lit "a") [(lit "v", PInt 2)]) = Ok tt /\
  length (memory_data (db second)) = length (memory_data (db first)).
Proof.
  pose proof (C6_store_replace_semantics 200
                (snd (store 100 new_storage (lit "x") (lit "a")
                        [(lit "v", PInt 1)]))
                (lit "x") (lit "a") [(lit "v", PInt 2)] eq_refl) as H.
  destruct H as (Hok & _ & Hold & _).
  split; [exact Hok|]. apply Hold. reflexivity.
Defined.

(** C9: on an open backend [delete] removes the rows of (namespace, key)
    and returns whether there was one; a second call returns false and
    leaves the state of the first call; with no row to remove the state
    does not change, and in no case does the call raise. *)
Theorem C9_delete_idempotent (self : SQLiteStorage) (memory_id key : pystr)
    (Hopen : conn_closed self = false) :
  let first := delete self memory_id key in
  let second := delete (snd first) memory_id key in
  fst first = Ok (existsb (row_is memory_id key) (memory_data (db self))) /\
  fst second = Ok false /\
  snd second = snd first /\
  (forall row, In row (memory_data (db (snd first)))
               <-> In row (memory_data (db self)) /\ row_is memory_id key row = false) /\
  memories (db (snd first)) = memories (db self) /\
  (existsb (row_is memory_id key) (memory_data (db self)) = false ->
   snd first = self).
Proof.
  unfold delete, cursor. rewrite Hopen. simpl. rewrite ?Hopen. simpl.
  rewrite rowcount_positive, filter_negb_twice, filter_negb_idem. simpl.
  repeat split; try done.
  - apply List.filter_In in H. tauto.
  - apply List.filter_In in H. destruct H as [_ H].
    by apply negb_true_iff in H.
  - intros [Hin Hrow]. apply List.filter_In. split; [done|]. by rewrite Hrow.
  - intros Hex. rewrite (filter_negb_none _ _ Hex).
    destruct self as [c [ms rows s]]. simpl in *. by subst c.
Qed.

Lemma C9_delete_idempotent_witness :
  let self := snd (store 100 new_storage (lit "x") (lit "a") [(lit "v", PInt 1)]) in
  fst (delete self (lit "x") (lit "a")) = Ok true /\
  fst (delete (snd (delete self (lit "x") (lit "a"))) (lit "x") (lit "a")) = Ok false /\
  snd (delete (snd (delete self (lit "x") (lit "a"))) (lit "x") (lit "a"))
  = snd (delete self (lit "x") (lit "a")).
Proof.
  pose proof (C9_delete_idempotent
                (snd (store 100 new_storage (lit "x") (lit "a") [(lit "v", PInt 1)]))
                (lit "x") (lit "a") eq_refl) as H.
  destruct H as (H1 & H2 & H3 & _).
  split; [exact H1|]. split; [exact H2|exact H3].
Defined.




(** ** Order on strings *)

Lemma str_ltb_irrefl (a : pystr) : str_ltb a a = false.
Proof.
  induction a as [|x a IH]; simpl; [done|].
  by rewrite Z.ltb_irrefl.
Qed.

Lemma str_ltb_asym (a : pystr) : forall b,
  str_ltb a b = true -> str_ltb b a = false.
Proof.
  induction a as [|x a IH]; intros [|y b]; simpl; try done.
  destruct (Z.ltb_spec x y), (Z.ltb_spec y x); try done; try lia.
  apply IH.
Qed.

Lemma str_ltb_trans (a : pystr) : forall b c,
  str_ltb a b = true -> str_ltb b c = true -> str_ltb a c = true.
Proof.
  induction a as [|x a IH]; intros [|y b] [|z c]; simpl; try done.
  destruct (Z.ltb_spec x y), (Z.ltb_spec y x), (Z.ltb_spec y z),
    (Z.ltb_spec z y), (Z.ltb_spec x z), (Z.ltb_spec z x);
    try done; try lia.
  apply IH.
Qed.

Lemma str_ltb_total (a : pystr) : forall b,
  str_ltb a b = false -> str_ltb b a = false -> a = b.
Proof.
  induction a as [|x a IH]; intros [|y b]; simpl; try done.
  destruct (Z.ltb_spec x y), (Z.ltb_spec y x); try done; try lia.
  intros Ha Hb. f_equal; [lia|]. by apply IH.
Qed.

Lemma str_ltb_ntrans (a b c : pystr) :
  str_ltb a b = false -> str_ltb b c = false -> str_ltb a c = false.
Proof.
  intros Hab Hbc. destruct (str_ltb a c) eqn:Hac; [|done].
  destruct (str_ltb b a) eqn:Hba.
  - by rewrite (str_ltb_trans _ _ _ Hba Hac) in Hbc.
  - rewrite (str_ltb_total _ _ Hab Hba) in Hac. by rewrite Hac in Hbc.
Qed.


(** ** [sorted] on keys of one kind *)

Lemma list_filter_reverse {A : Type} (p : A -> bool) (l : list A) :
  List.filter p (reverse l) = reverse (List.filter p l).
Proof.
  induction l as [|x l IH]; simpl; [done|].
  rewrite reverse_cons, List.filter_app, IH. simpl.
  destruct (p x); [by rewrite reverse_cons|by rewrite app_nil_r].
Qed.

Lemma StronglySorted_reverse {A : Type} (R : A -> A -> Prop) (l : list A) :
  StronglySorted R l -> StronglySorted (fun a b => R b a) (reverse l).
Proof.
  induction 1 as [|x l Hl IH Hx]; [constructor|].
  rewrite reverse_cons. apply StronglySorted_app_2; [|exact IH|repeat constructor].
  intros a b Ha Hb. apply list_elem_of_singleton in Hb. subst b.
  rewrite elem_of_reverse in Ha.
  rewrite Forall_forall in Hx. exact (Hx a Ha).
Qed.

Lemma list_filter_none {A : Type} (p : A -> bool) (l : list A) :
  Forall (fun x => p x = false) l -> List.filter p l = [].
Proof.
  induction 1 as [|x l Hx _ IH]; simpl; [done|]. by rewrite Hx.
Qed.
Lemma list_filter_cons {A : Type} (p : A -> bool) (x : A) (l : list A) :
  List.filter p (x :: l) = (if p x then [x] else []) ++ List.filter p l.
Proof. simpl. by destruct (p x). Qed.

Section SortTheory.
Context {A R : Type}.
Variable key : A -> value.
Variable kind : value -> Prop.
Variable rank : value -> R.
Variable ltR : R -> R -> bool.
Hypothesis Hcmp :
  forall a b, kind a -> kind b -> py_lt a b = Some (ltR (rank a) (rank b)).
Hypothesis Hasym : forall a b, ltR a b = true -> ltR b a = false.
Hypothesis Hntrans :
  forall a b c, ltR a b = false -> ltR b c = false -> ltR a c = false.

Lemma key_equiv_rank (a b : value) :
  kind a -> kind b ->
  key_equiv a b = negb (ltR (rank a) (rank b)) && negb (ltR (rank b) (rank a)).
Proof.
  intros Ha Hb. unfold key_equiv. rewrite (Hcmp a b), (Hcmp b a) by done.
  by destruct (ltR (rank a) (rank b)), (ltR (rank b) (rank a)).
Qed.

(** A key that ties with [k] cannot tie with a strictly greater one. *)
Lemma key_equiv_above (k a b : value) :
  kind k -> kind a -> kind b ->
  ltR (rank a) (rank b) = true -> key_equiv k a = true -> key_equiv k b = false.
Proof.
  intros Hk Ha Hb Hab. rewrite !key_equiv_rank by done.
  intros [_ Hak%negb_true_iff]%andb_true_iff.
  destruct (ltR (rank k) (rank b)) eqn:Hkb; [done|]. simpl.
  destruct (ltR (rank b) (rank k)) eqn:Hbk; [done|].
  by rewrite (Hntrans _ _ _ Hak Hkb) in Hab.
Qed.

(** Inserting into an ascending list of keys of the kind succeeds, keeps
    the list ascending, and puts the new element behind its ties. *)
Lemma insert_sorted_ok (x : A) (l : list A) :
  kind (key x) -> Forall (fun y => kind (key y)) l -> ascending key l ->
  exists r,
    insert_sorted key x l = Some r /\
    x :: l ≡ₚ r /\
    ascending key r /\
    forall k, kind k ->
      List.filter (fun y => key_equiv k (key y)) r
      = List.filter (fun y => key_equiv k (key y)) l
          ++ List.filter (fun y => key_equiv k (key y)) [x].
Proof.
  intros Hx. induction l as [|y l IH]; intros Hl Hs.
  - exists [x]. repeat split; try done. repeat constructor.
  - apply Forall_cons in Hl as [Hy Hl].
    apply StronglySorted_inv in Hs as [Hs Hyl].
    cbn [insert_sorted]. rewrite (Hcmp _ _ Hx Hy).
    destruct (ltR (rank (key x)) (rank (key y))) eqn:Hxy.
    + exists (x :: y :: l).
      assert (Hbelow : Forall (fun z => ltR (rank (key x)) (rank (key z)) = true)
                         (y :: l)).
      { constructor; [done|].
        rewrite Forall_forall in Hyl, Hl. apply Forall_forall. intros z Hz.
        specialize (Hyl z Hz). rewrite (Hcmp _ _ (Hl z Hz) Hy) in Hyl.
        injection Hyl as Hzy.
        destruct (ltR (rank (key x)) (rank (key z))) eqn:Hxz; [done|].
        by rewrite (Hntrans _ _ _ Hxz Hzy) in Hxy. }
      assert (Hkinds : Forall (fun z => kind (key z)) (y :: l)) by by constructor.
      repeat split; try done.
      * constructor; [by constructor|].
        rewrite Forall_forall in Hbelow, Hkinds. apply Forall_forall. intros z Hz.
        rewrite (Hcmp _ _ (Hkinds z Hz) Hx). f_equal. apply Hasym. by apply Hbelow.
      * intros k Hk. rewrite (list_filter_cons _ x (y :: l)), (list_filter_cons _ x []).
        simpl List.filter at 3. rewrite app_nil_r.
        destruct (key_equiv k (key x)) eqn:Hkx; [|by rewrite app_nil_r].
        rewrite list_filter_none; [done|].
        rewrite Forall_forall in Hbelow, Hkinds. apply Forall_forall. intros z Hz.
        eapply key_equiv_above; [done|exact Hx|by apply Hkinds|by apply Hbelow|done].
    + destruct (IH Hl Hs) as (r & Hr & Hperm & Hasc & Hties).
      exists (y :: r). rewrite Hr. repeat split.
      * rewrite <- Hperm. apply Permutation_swap.
      * constructor; [done|]. rewrite <- Hperm. constructor; [|done].
        rewrite (Hcmp _ _ Hx Hy). by f_equal.
      * intros k Hk. simpl. rewrite (Hties k Hk). simpl.
        by destruct (key_equiv k (key y)).
Qed.

Lemma insertion_sort_ok (todo : list A) : forall done,
  Forall (fun y => kind (key y)) done -> Forall (fun y => kind (key y)) todo ->
  ascending key done ->
  exists r,
    insertion_sort key done todo = Some r /\
    done ++ todo ≡ₚ r /\
    ascending key r /\
    forall k, kind k ->
      List.filter (fun y => key_equiv k (key y)) r
      = List.filter (fun y => key_equiv k (key y)) done
          ++ List.filter (fun y => key_equiv k (key y)) todo.
Proof.
  induction todo as [|x todo IH]; intros done Hd Ht Hs.
  - exists done. rewrite app_nil_r. repeat split; try done.
    intros k _. simpl. by rewrite app_nil_r.
  - apply Forall_cons in Ht as [Hx Ht].
    destruct (insert_sorted_ok x done Hx Hd Hs) as (d' & Hd' & Hperm & Hasc & Hties).
    assert (Forall (fun y => kind (key y)) d') as Hkd'.
    { rewrite <- Hperm. by constructor. }
    destruct (IH d' Hkd' Ht Hasc) as (r & Hr & Hperm' & Hasc' & Hties').
    exists r. simpl. rewrite Hd'. repeat split; try done.
    + rewrite <- Hperm', <- Hperm. symmetry. apply Permutation_middle.
    + intros k Hk. rewrite (Hties' k Hk), (Hties k Hk).
      rewrite <- app_assoc. f_equal. simpl.
      by destruct (key_equiv k (key x)).
Qed.

(** On keys of one kind [sorted] returns a permutation of its input that
    is ordered in the direction asked for and keeps ties in input order. *)
Lemma py_sorted_ok (rev : bool) (l : list A) :
  Forall (fun y => kind (key y)) l ->
  exists r,
    py_sorted key rev l = Some r /\
    l ≡ₚ r /\
    (if rev then descending key r else ascending key r) /\
    same_order_of_ties key kind l r.
Proof.
  intros Hl. unfold py_sorted. destruct rev.
  - destruct (insertion_sort_ok (reverse l) []) as (r & Hr & Hperm & Hasc & Hties).
    { constructor. } { by apply Forall_reverse. } { constructor. }
    exists (reverse r). rewrite Hr. repeat split.
    + by rewrite reverse_Permutation, <- Hperm, reverse_Permutation.
    + unfold descending. by apply (StronglySorted_reverse _ _ Hasc).
    + intros k Hk. rewrite list_filter_reverse, (Hties k Hk). simpl.
      by rewrite list_filter_reverse, reverse_involutive.
  - destruct (insertion_sort_ok l []) as (r & Hr & Hperm & Hasc & Hties).
    { constructor. } { done. } { constructor. }
    exists r. repeat split; try done.
Qed.

End SortTheory.

(** ** [sorted] in general: a rearrangement, and the case of keys of
    different kinds *)

Section SortGeneral.
Context {A : Type}.
Variable key : A -> value.

Lemma insert_sorted_perm (x : A) (l : list A) : forall r,
  insert_sorted key x l = Some r -> x :: l ≡ₚ r.
Proof.
  induction l as [|y l IH]; intros r; simpl.
  - by intros [= <-].
  - destruct (py_lt (key x) (key y)) as [[|]|]; try done.
    + by intros [= <-].
    + destruct (insert_sorted key x l) as [r'|]; [|done].
      intros [= <-]. rewrite <- (IH r' eq_refl). apply Permutation_swap.
Qed.

Lemma insertion_sort_perm (todo : list A) : forall done r,
  insertion_sort key done todo = Some r -> done ++ todo ≡ₚ r.
Proof.
  induction todo as [|x todo IH]; intros done r; simpl.
  - intros [= <-]. by rewrite app_nil_r.
  - destruct (insert_sorted key x done) as [d'|] eqn:Hd'; [|done].
    intros Hr. rewrite <- (IH _ _ Hr), <- (insert_sorted_perm _ _ _ Hd').
    symmetry. apply Permutation_middle.
Qed.

Lemma py_sorted_perm (rev : bool) (l r : list A) :
  py_sorted key rev l = Some r -> l ≡ₚ r.
Proof.
  unfold py_sorted. destruct rev.
  - destruct (insertion_sort key [] (reverse l)) as [r'|] eqn:Hr'; [|done].
    intros [= <-]. apply insertion_sort_perm in Hr'. simpl in Hr'.
    by rewrite reverse_Permutation, <- Hr', reverse_Permutation.
  - intros Hr. by apply insertion_sort_perm in Hr.
Qed.






End SortGeneral.

Lemma number_cmp (a b : value) :
  is_number a -> is_number b ->
  py_lt a b = Some (number_rank a <? number_rank b).
Proof. destruct a, b; simpl; done. Qed.

Lemma string_cmp (a b : value) :
  is_string a -> is_string b ->
  py_lt a b = Some (str_ltb (string_rank a) (string_rank b)).
Proof. destruct a, b; simpl; done. Qed.

Lemma Z_ltb_asym (a b : Z) : (a <? b) = true -> (b <? a) = false.
Proof. intros H%Z.ltb_lt. apply Z.ltb_ge. lia. Qed.

Lemma Z_ltb_ntrans (a b c : Z) :
  (a <? b) = false -> (b <? c) = false -> (a <? c) = false.
Proof. intros H1%Z.ltb_ge H2%Z.ltb_ge. apply Z.ltb_ge. lia. Qed.

(** [sorted] on keys that are all numbers or all strings. *)
Lemma py_sorted_one_kind {A : Type} (key : A -> value) (rev : bool) (l : list A) :
  (Forall (fun y => is_number (key y)) l ->
   exists r, py_sorted key rev l = Some r /\ l ≡ₚ r /\
     (if rev then descending key r else ascending key r) /\
     same_order_of_ties key is_number l r) /\
  (Forall (fun y => is_string (key y)) l ->
   exists r, py_sorted key rev l = Some r /\ l ≡ₚ r /\
     (if rev then descending key r else ascending key r) /\
     same_order_of_ties key is_string l r).
Proof.
  split; intros Hl.
  - exact (py_sorted_ok key is_number number_rank Z.ltb number_cmp
             Z_ltb_asym Z_ltb_ntrans rev l Hl).
  - exact (py_sorted_ok key is_string string_rank str_ltb string_cmp
             str_ltb_asym str_ltb_ntrans rev l Hl).
Qed.

(** ** [sort_by_field] and [get_recent] *)

Lemma sort_by_field_perm (items : list record) (field : pystr) (rev : bool) :
  items ≡ₚ sort_by_field items field rev.
Proof.
  unfold sort_by_field.
  destruct (py_sorted (sort_key field) rev items) as [r|] eqn:Hr; [|done].
  by apply py_sorted_perm in Hr.
Qed.


Lemma sort_key_present (field : pystr) (item : record) (v : value) :
  dict_get item field = Some v -> sort_key field item = v.
Proof. unfold sort_key. by intros ->. Qed.



Lemma descending_cons_inv {A : Type} (key : A -> value) (x y : A) (l : list A) :
  descending key (x :: l) -> y ∈ l -> py_lt (key x) (key y) = Some false.
Proof.
  intros [_ H]%StronglySorted_inv Hy. rewrite Forall_forall in H. by apply H.
Qed.

(** C8: [get_recent] is the spec's composition, limit after the
    descending sort by the timestamp field, for every input; and for
    three records whose timestamps (all numbers or all strings) satisfy
    T1 < T2 < T3, given in any order, asking for the two most recent
    returns the record of T3 followed by the record of T2. *)
Theorem C8_get_recent_is_sort_then_limit :
  (forall (items : list record) (timestamp_field : pystr) (n : Z),
      get_recent items timestamp_field n
      = spec_most_recent items timestamp_field n) /\
  (forall (r1 r2 r3 : record) (t1 t2 t3 : value) (items : list record),
      dict_get r1 (lit "timestamp") = Some t1 ->
      dict_get r2 (lit "timestamp") = Some t2 ->
      dict_get r3 (lit "timestamp") = Some t3 ->
      one_kind (fun t => t) [t1; t2; t3] ->
      py_lt t1 t2 = Some true ->
      py_lt t2 t3 = Some true ->
      items ≡ₚ [r1; r2; r3] ->
      get_recent items (lit "timestamp") 2 = [r3; r2]).
Proof.
  split; [reflexivity|].
  intros r1 r2 r3 t1 t2 t3 items H1 H2 H3 Hkind H12 H23 Hperm.
  apply (sort_key_present (lit "timestamp")) in H1, H2, H3.
  set (key := sort_key (lit "timestamp")) in *.
  assert (exists r, py_sorted key true items = Some r /\ items ≡ₚ r /\
                    descending key r) as (r & Hr & Hpr & Hdesc).
  { destruct (py_sorted_one_kind key true items) as [Hnum Hstr].
    destruct Hkind as [Hk|Hk].
    - destruct Hnum as (r & ? & ? & ? & _); [|by exists r].
      rewrite Hperm.
      apply Forall_cons in Hk as [Ha Hk]. apply Forall_cons in Hk as [Hb Hk].
      apply Forall_cons in Hk as [Hc _].
      repeat constructor; by rewrite ?H1, ?H2, ?H3.
    - destruct Hstr as (r & ? & ? & ? & _); [|by exists r].
      rewrite Hperm.
      apply Forall_cons in Hk as [Ha Hk]. apply Forall_cons in Hk as [Hb Hk].
      apply Forall_cons in Hk as [Hc _].
      repeat constructor; by rewrite ?H1, ?H2, ?H3. }
  unfold get_recent, sort_by_field. fold key. rewrite Hr.
  rewrite Hperm in Hpr. apply permutations_Permutation in Hpr.
  simpl in Hpr.
  rewrite !elem_of_cons, elem_of_nil in Hpr.
  destruct Hpr as [->|[->|[->|[->|[->|[->|[]]]]]]].
  - pose proof (descending_cons_inv key r1 r2 _ Hdesc ltac:(rewrite !elem_of_cons; auto 10)) as H.
    rewrite H1, H2 in H. congruence.
  - pose proof (descending_cons_inv key r2 r3 _ Hdesc ltac:(rewrite !elem_of_cons; auto 10)) as H.
    rewrite H2, H3 in H. congruence.
  - pose proof (descending_cons_inv key r2 r3 _ Hdesc ltac:(rewrite !elem_of_cons; auto 10)) as H.
    rewrite H2, H3 in H. congruence.
  - pose proof (descending_cons_inv key r1 r2 _ Hdesc ltac:(rewrite !elem_of_cons; auto 10)) as H.
    rewrite H1, H2 in H. congruence.
  - apply StronglySorted_inv in Hdesc as [Hdesc _].
    pose proof (descending_cons_inv key r1 r2 _ Hdesc ltac:(rewrite !elem_of_cons; auto 10)) as H.
    rewrite H1, H2 in H. congruence.
  - reflexivity.
Qed.

Lemma C8_get_recent_is_sort_then_limit_witness :
  let r1 := [(lit "timestamp", PStr (lit "2024-01-01T10:00:00")); (lit "n", PInt 1)] in
  let r2 := [(lit "timestamp", PStr (lit "2024-01-02T10:00:00")); (lit "n", PInt 2)] in
  let r3 := [(lit "timestamp", PStr (lit "2024-01-03T10:00:00")); (lit "n", PInt 3)] in
  get_recent [r2; r3; r1] (lit "timestamp") 2 = [r3; r2].
Proof.
  apply (proj2 C8_get_recent_is_sort_then_limit
           [(lit "timestamp", PStr (lit "2024-01-01T10:00:00")); (lit "n", PInt 1)]
           [(lit "timestamp", PStr (lit "2024-01-02T10:00:00")); (lit "n", PInt 2)]
           [(lit "timestamp", PStr (lit "2024-01-03T10:00:00")); (lit "n", PInt 3)]
           (PStr (lit "2024-01-01T10:00:00"))
           (PStr (lit "2024-01-02T10:00:00"))
           (PStr (lit "2024-01-03T10:00:00"))).
  - reflexivity.
  - reflexivity.
  - reflexivity.
  - right. repeat constructor.
  - reflexivity.
  - reflexivity.
  - symmetry.
    apply (Permutation_cons_append
             [[(lit "timestamp", PStr (lit "2024-01-02T10:00:00")); (lit "n", PInt 2)];
              [(lit "timestamp", PStr (lit "2024-01-03T10:00:00")); (lit "n", PInt 3)]]).
Defined.

(** ** The bounds of the decoder are never the cause of an error *)

Lemma skip_ws_length (s : pystr) : (length (skip_ws s) <= length s)%nat.
Proof.
  induction s as [|c s IH]; simpl; [done|]. destruct (is_ws c); simpl; lia.
Qed.

Lemma scan_step_shorter (s : pystr) :
  match scan_step s with
  | ChunkEnd r | ChunkChar _ r => (length r < length s)%nat
  | ChunkError => True
  end.
Proof.
  unfold scan_step. repeat case_match; simplify_eq; simpl; try done; lia.
Qed.

Lemma scanstring_loop_enough (rounds : nat) : forall (s cs r : pystr),
  scanstring_loop rounds s = Some (cs, r) ->
  (length r < length s)%nat /\
  forall rounds', (length s <= rounds')%nat ->
    scanstring_loop rounds' s = Some (cs, r).
Proof.
  induction rounds as [|rounds IH]; intros s cs r; simpl; [done|].
  pose proof (scan_step_shorter s) as Hstep.
  destruct (scan_step s) as [r0|c r0|] eqn:Hs; [| |done].
  - intros [= <- <-]. split; [done|]. intros [|rounds'] Hr; [lia|].
    simpl. by rewrite Hs.
  - destruct (scanstring_loop rounds r0) as [[cs0 r1]|] eqn:Hloop; [|done].
    intros [= <- <-]. destruct (IH _ _ _ Hloop) as [Hlen Hmore].
    split; [lia|]. intros [|rounds'] Hr; [lia|].
    simpl. rewrite Hs, Hmore; [done|lia].
Qed.

Lemma scanstring_shorter (s cs r : pystr) :
  scanstring s = Some (cs, r) -> (length r < length s)%nat.
Proof. intros H. by apply scanstring_loop_enough in H as [? _]. Qed.

(** [scanstring] runs the loop as often as any successful run needs. *)
Lemma scanstring_rounds_adequate (rounds : nat) (s cs r : pystr) :
  scanstring_loop rounds s = Some (cs, r) -> scanstring s = Some (cs, r).
Proof. intros H. apply scanstring_loop_enough in H as [_ H]. by apply H. Qed.

Lemma take_digits_length (s : pystr) : forall acc,
  (length (snd (take_digits acc s)) <= length s)%nat.
Proof.
  induction s as [|c s IH]; intros acc; simpl; [done|].
  destruct (is_digit c); simpl; [|lia]. specialize (IH (10 * acc + (c - 48))). lia.
Qed.

Lemma match_integer_shorter (s : pystr) (n : Z) (r : pystr) :
  match_integer s = Some (n, r) -> (length r < length s)%nat.
Proof.
  unfold match_integer.
  set (negative := match s with c :: _ => c =? 45 | [] => false end).
  assert (length (if negative then drop 1 s else s) <= length s)%nat as Hs1.
  { destruct negative; [rewrite length_drop|]; lia. }
  destruct (if negative then drop 1 s else s) as [|c s1]; [done|].
  simpl in Hs1. destruct (c =? 48).
  - intros [= _ <-]. lia.
  - destruct (is_digit c); [|done].
    pose proof (take_digits_length s1 (c - 48)) as Hlen.
    destruct (take_digits (c - 48) s1) as [m r']. simpl in Hlen.
    intros [= _ <-]. lia.
Qed.

Lemma scan_number_shorter (s : pystr) (v : value) (r : pystr) :
  scan_number s = Some (v, r) -> (length r < length s)%nat.
Proof.
  unfold scan_number.
  destruct (match_integer s) as [[n r']|] eqn:Hm; [|done].
  apply match_integer_shorter in Hm.
  destruct (has_frac r' || has_exp r'); [done|]. by intros [= _ <-].
Qed.

(** A successful run of the scanner consumes text, and succeeds the same
    way at every depth from the number of characters consumed on. *)
Lemma scanner_depth_enough (depth : nat) :
  (forall s v r, scan_once depth s = Some (v, r) ->
     (length r < length s)%nat /\
     forall d', (length s - length r <= d')%nat -> scan_once d' s = Some (v, r)) /\
  (forall s vs r, array_loop depth s = Some (vs, r) ->
     (length r < length s)%nat /\
     forall d', (length s - length r <= d')%nat -> array_loop d' s = Some (vs, r)) /\
  (forall s ps r, object_loop depth s = Some (ps, r) ->
     (length r < length s)%nat /\
     forall d', (length s - length r <= d')%nat -> object_loop d' s = Some (ps, r)).
Proof.
  induction depth as [|n (IHs & IHa & IHo)]; [done|].
  split; [|split].
  - intros [|c r0] v r; [done|]. cbn [scan_once].
    destruct (c =? 34) eqn:H34.
    { destruct (scanstring r0) as [[str r']|] eqn:Hstr; [|done].
      intros [= <- <-]. apply scanstring_shorter in Hstr as Hlen.
      split; [simpl; lia|]. intros [|d'] Hd'; [simpl in Hd'; lia|].
      cbn [scan_once]. by rewrite H34, Hstr. }
    destruct (c =? 123) eqn:H123.
    { pose proof (skip_ws_length r0) as Hws.
      destruct (skip_ws r0) as [|q r1] eqn:Hskip; [done|]. simpl in Hws.
      destruct (q =? 125) eqn:H125.
      { intros [= <- <-]. split; [simpl; lia|].
        intros [|d'] Hd'; [simpl in Hd'; lia|].
        cbn [scan_once]. by rewrite H34, H123, Hskip, H125. }
      destruct (q =? 34) eqn:Hq; [|done].
      destruct (object_loop n r1) as [[pairs r']|] eqn:Hloop; [|done].
      intros [= <- <-]. destruct (IHo _ _ _ Hloop) as [Hlen Hmore].
      split; [simpl; lia|]. intros [|d'] Hd'; [simpl in Hd'; lia|].
      cbn [scan_once]. rewrite H34, H123, Hskip, H125, Hq, Hmore; [done|].
      simpl in Hd'. lia. }
    destruct (c =? 91) eqn:H91.
    { pose proof (skip_ws_length r0) as Hws.
      destruct (skip_ws r0) as [|q r1] eqn:Hskip; [done|]. simpl in Hws.
      destruct (q =? 93) eqn:H93.
      { intros [= <- <-]. split; [simpl; lia|].
        intros [|d'] Hd'; [simpl in Hd'; lia|].
        cbn [scan_once]. by rewrite H34, H123, H91, Hskip, H93. }
      destruct (array_loop n (q :: r1)) as [[values r']|] eqn:Hloop; [|done].
      intros [= <- <-]. destruct (IHa _ _ _ Hloop) as [Hlen Hmore].
      simpl in Hlen.
      split; [simpl; lia|]. intros [|d'] Hd'; [simpl in Hd'; lia|].
      cbn [scan_once]. rewrite H34, H123, H91, Hskip, H93, Hmore; [done|].
      simpl in Hd' |- *. lia. }
    intros H.
    assert ((length r < length (c :: r0))%nat) as Hlen.
    { destruct (starts_with (lit "null") (c :: r0));
        [injection H as <- <-; rewrite length_drop; simpl; lia|].
      destruct (starts_with (lit "true") (c :: r0));
        [injection H as <- <-; rewrite length_drop; simpl; lia|].
      destruct (starts_with (lit "false") (c :: r0));
        [injection H as <- <-; rewrite length_drop; simpl; lia|].
      by apply scan_number_shorter in H. }
    split; [done|]. intros [|d'] Hd'; [lia|].
    cbn [scan_once]. by rewrite H34, H123, H91.
  - intros s vs r. cbn [array_loop].
    destruct (scan_once n s) as [[v r1]|] eqn:Hscan; [|done].
    destruct (IHs _ _ _ Hscan) as [Hlen1 Hmore1].
    pose proof (skip_ws_length r1) as Hws.
    destruct (skip_ws r1) as [|c r2] eqn:Hskip; [done|]. simpl in Hws.
    destruct (c =? 93) eqn:H93.
    { intros [= <- <-]. split; [lia|]. intros [|d'] Hd'; [lia|].
      cbn [array_loop]. rewrite Hmore1, Hskip, H93; [done|lia]. }
    destruct (c =? 44) eqn:H44; [|done].
    pose proof (skip_ws_length r2) as Hws2.
    destruct (array_loop n (skip_ws r2)) as [[vs' r']|] eqn:Hloop; [|done].
    intros [= <- <-]. destruct (IHa _ _ _ Hloop) as [Hlen Hmore].
    split; [lia|]. intros [|d'] Hd'; [lia|].
    cbn [array_loop]. rewrite Hmore1, Hskip, H93, H44, Hmore; [done|lia|lia].
  - intros s ps r. cbn [object_loop].
    destruct (scanstring s) as [[k r1]|] eqn:Hkey; [|done].
    apply scanstring_shorter in Hkey as Hlen0.
    pose proof (skip_ws_length r1) as Hws1.
    destruct (skip_ws r1) as [|c r2] eqn:Hskip1; [done|]. simpl in Hws1.
    destruct (c =? 58) eqn:H58; [|done].
    pose proof (skip_ws_length r2) as Hws2.
    destruct (scan_once n (skip_ws r2)) as [[v r3]|] eqn:Hscan; [|done].
    destruct (IHs _ _ _ Hscan) as [Hlen3 Hmore3].
    pose proof (skip_ws_length r3) as Hws3.
    destruct (skip_ws r3) as [|c2 r4] eqn:Hskip3; [done|]. simpl in Hws3.
    destruct (c2 =? 125) eqn:H125.
    { intros [= <- <-]. split; [lia|]. intros [|d'] Hd'; [lia|].
      cbn [object_loop]. rewrite Hkey, Hskip1, H58, Hmore3, Hskip3, H125; [done|lia]. }
    destruct (c2 =? 44) eqn:H44; [|done].
    pose proof (skip_ws_length r4) as Hws4.
    destruct (skip_ws r4) as [|q r5] eqn:Hskip4; [done|]. simpl in Hws4.
    destruct (q =? 34) eqn:Hq; [|done].
    destruct (object_loop n r5) as [[ps' r']|] eqn:Hloop; [|done].
    intros [= <- <-]. destruct (IHo _ _ _ Hloop) as [Hlen Hmore].
    split; [lia|]. intros [|d'] Hd'; [lia|].
    cbn [object_loop].
    rewrite Hkey, Hskip1, H58, Hmore3, Hskip3, H125, H44, Hskip4, Hq, Hmore;
      [done|lia|lia].
Qed.

(** If the scanner can read a document at some depth, [loads] reads it:
    the depth [loads] allows is never what makes it fail. *)
Lemma loads_depth_adequate (depth : nat) (s : pystr) (v : value) (r : pystr) :
  scan_once depth (skip_ws s) = Some (v, r) -> skip_ws r = [] ->
  loads s = Some v.
Proof.
  intros Hscan Hrest. unfold loads.
  destruct (proj1 (scanner_depth_enough depth) _ _ _ Hscan) as [_ Hmore].
  rewrite Hmore; [by rewrite Hrest|lia].
Qed.

(** ** The codec: integers *)

Lemma nzhead_not_zero_headed (d l : Decimal.uint) :
  Decimal.nzhead d <> Decimal.D0 l.
Proof. induction d; simpl; congruence. Qed.

(** The decimal form of a positive number starts with a digit 1-9. *)
Lemma to_uint_head (p : positive) :
  match Pos.to_uint p with
  | Decimal.Nil | Decimal.D0 _ => False
  | _ => True
  end.
Proof.
  pose proof (DecimalPos.Unsigned.to_of (Pos.to_uint p)) as Hn.
  rewrite DecimalPos.Unsigned.of_to in Hn. simpl in Hn.
  pose proof (DecimalPos.Unsigned.to_uint_nonzero p) as Hz.
  destruct (Pos.to_uint p) as [|l| | | | | | | | |] eqn:Hp; try done.
  unfold Decimal.unorm in Hn. simpl in Hn.
  destruct (Decimal.nzhead l) as [|u| | | | | | | | |] eqn:Hl; try congruence.
  by destruct (nzhead_not_zero_headed l u).
Qed.

Lemma take_digits_uint (d : Decimal.uint) : forall (p : positive) (rest : pystr),
  match rest with [] => True | c :: _ => is_digit c = false end ->
  take_digits (Zpos p) (uint_codes d ++ rest) = (Zpos (Pos.of_uint_acc d p), rest).
Proof.
  induction d; intros p rest Hrest; simpl;
    try (rewrite <- IHd by done; f_equal; lia).
  destruct rest as [|c rest]; [done|]. simpl in *. by rewrite Hrest.
Qed.

Lemma match_integer_pos (p : positive) (rest : pystr) :
  match rest with [] => True | c :: _ => is_digit c = false end ->
  match_integer (uint_codes (Pos.to_uint p) ++ rest) = Some (Zpos p, rest) /\
  match_integer (45 :: uint_codes (Pos.to_uint p) ++ rest) = Some (Zneg p, rest).
Proof.
  intros Hrest.
  pose proof (to_uint_head p) as Hhead.
  pose proof (DecimalPos.Unsigned.of_to p) as Hof.
  destruct (Pos.to_uint p) as [|l|l|l|l|l|l|l|l|l|l]; try done;
    simpl in Hof; injection Hof as Hof;
    unfold match_integer; simpl;
    match goal with
    | |- context [take_digits ?k _] =>
        change k with (Zpos (Z.to_pos k));
        rewrite (take_digits_uint l (Z.to_pos k) rest Hrest)
    end; simpl; rewrite Hof; done.
Qed.

Lemma match_integer_repr (n : Z) (rest : pystr) :
  match rest with [] => True | c :: _ => is_digit c = false end ->
  match_integer (int_repr n ++ rest) = Some (n, rest).
Proof.
  intros Hrest. destruct n as [|p|p]; unfold int_repr; simpl.
  - reflexivity.
  - apply (match_integer_pos p rest Hrest).
  - apply (match_integer_pos p rest Hrest).
Qed.

Lemma value_end_not_digit (rest : pystr) :
  value_end rest -> match rest with [] => True | c :: _ => is_digit c = false end.
Proof. destruct rest as [|c rest]; [done|]. by intros [->|[->| ->]]. Qed.

Lemma value_end_not_float (rest : pystr) :
  value_end rest -> has_frac rest || has_exp rest = false.
Proof.
  destruct rest as [|c [|c' rest]]; [done|done|].
  by intros [->|[->| ->]].
Qed.

Lemma scan_number_repr (n : Z) (rest : pystr) :
  value_end rest -> scan_number (int_repr n ++ rest) = Some (PInt n, rest).
Proof.
  intros Hrest. unfold scan_number.
  rewrite (match_integer_repr n rest (value_end_not_digit rest Hrest)).
  by rewrite (value_end_not_float rest Hrest).
Qed.

Lemma uint_codes_head (d : Decimal.uint) :
  d <> Decimal.Nil ->
  exists c t, uint_codes d = c :: t /\ 48 <= c <= 57.
Proof. destruct d; intros Hd; try done; simpl; eexists _, _; split; try done; lia. Qed.

(** An int prints with a minus sign or a digit in front. *)
Lemma int_repr_head (n : Z) :
  exists c t, int_repr n = c :: t /\ (c = 45 \/ 48 <= c <= 57).
Proof.
  destruct n as [|p|p]; unfold int_repr; simpl.
  - exists 48, []. split; [done|]. right. lia.
  - destruct (uint_codes_head (Pos.to_uint p)) as (c & t & -> & Hc).
    { apply DecimalPos.Unsigned.to_uint_nonnil. }
    exists c, t. auto.
  - eexists 45, _. auto.
Qed.

(** ** The codec: hexadecimal escapes and surrogate pairs *)

Ltac zbool :=
  repeat match goal with
         | |- context [?a <=? ?b] => destruct (Z.leb_spec a b); try lia
         | |- context [?a <? ?b] => destruct (Z.ltb_spec a b); try lia
         | |- context [?a =? ?b] => destruct (Z.eqb_spec a b); try lia
         end;
  simpl.

Lemma hexval_hexdigit (n : Z) : 0 <= n < 16 -> hexval (hexdigit n) = Some n.
Proof.
  intros Hn. unfold hexval, hexdigit, is_digit.
  destruct (Z.ltb_spec n 10); zbool; f_equal; lia.
Qed.

Lemma nibble_range (c k : Z) : 0 <= Z.land (Z.shiftr c k) 15 < 16.
Proof.
  change 15 with (Z.ones 4). rewrite Z.land_ones by lia.
  apply Z.mod_pos_bound. lia.
Qed.

Lemma hex4_hex_digits (c : Z) :
  0 <= c < 65536 ->
  hex4 (hexdigit (Z.land (Z.shiftr c 12) 15)) (hexdigit (Z.land (Z.shiftr c 8) 15))
       (hexdigit (Z.land (Z.shiftr c 4) 15)) (hexdigit (Z.land (Z.shiftr c 0) 15))
  = Some c.
Proof.
  intros Hc. unfold hex4.
  rewrite !hexval_hexdigit by apply nibble_range.
  f_equal. change 15 with (Z.ones 4).
  rewrite !Z.land_ones, !Z.shiftr_div_pow2 by lia.
  change (2 ^ 12) with 4096. change (2 ^ 8) with 256.
  change (2 ^ 4) with 16. change (2 ^ 0) with 1.
  Z.div_mod_to_equations. lia.
Qed.

Lemma lor_above_1024 (a x : Z) :
  0 <= x < 1024 -> Z.lor (a * 1024) x = a * 1024 + x.
Proof.
  intros Hx.
  assert (Z.land (a * 1024) x = 0) as Hdisj.
  { apply Z.bits_inj'. intros n Hn. rewrite Z.land_spec, Z.bits_0.
    destruct (Z.ltb_spec n 10).
    - change 1024 with (2 ^ 10). by rewrite Z.mul_pow2_bits_low.
    - replace x with (Z.land x (Z.ones 10)).
      + rewrite Z.land_spec, Z.ones_spec_high by lia.
        by rewrite !andb_false_r.
      + rewrite Z.land_ones by lia. apply Z.mod_small. simpl. lia. }
  rewrite <- Z.lxor_lor by done. symmetry. by apply Z.add_nocarry_lxor.
Qed.

(** The two halves the encoder writes for a code point above U+FFFF, and
    what the decoder makes of them. *)
Lemma surrogate_halves (c : Z) :
  65536 <= c < 1114112 ->
  let n := c - 65536 in
  let s1 := Z.lor 55296 (Z.land (Z.shiftr n 10) 1023) in
  let s2 := Z.lor 56320 (Z.land n 1023) in
  55296 <= s1 <= 56319 /\ 56320 <= s2 <= 57343 /\ join_surrogates s1 s2 = c.
Proof.
  intros Hc n s1 s2.
  assert (0 <= Z.land (Z.shiftr n 10) 1023 < 1024) as Hhi.
  { change 1023 with (Z.ones 10). rewrite Z.land_ones by lia.
    apply Z.mod_pos_bound. lia. }
  assert (0 <= Z.land n 1023 < 1024) as Hlo.
  { change 1023 with (Z.ones 10). rewrite Z.land_ones by lia.
    apply Z.mod_pos_bound. lia. }
  assert (s1 = 55296 + Z.land (Z.shiftr n 10) 1023) as Hs1.
  { unfold s1. change 55296 with (54 * 1024). by apply lor_above_1024. }
  assert (s2 = 56320 + Z.land n 1023) as Hs2.
  { unfold s2. change 56320 with (55 * 1024). by apply lor_above_1024. }
  split; [lia|]. split; [lia|].
  unfold join_surrogates. rewrite Hs1, Hs2.
  replace (55296 + Z.land (Z.shiftr n 10) 1023 - 55296)
    with (Z.land (Z.shiftr n 10) 1023) by lia.
  replace (56320 + Z.land n 1023 - 56320) with (Z.land n 1023) by lia.
  rewrite Z.shiftl_mul_pow2 by lia. change (2 ^ 10) with 1024.
  rewrite lor_above_1024 by done.
  change 1023 with (Z.ones 10).
  rewrite !Z.land_ones, Z.shiftr_div_pow2 by lia. change (2 ^ 10) with 1024.
  unfold n. Z.div_mod_to_equations. lia.
Qed.

(** ** The codec: string literals *)

Lemma escape_char_nonempty (c : Z) : (1 <= length (escape_char c))%nat.
Proof. unfold escape_char. repeat case_match; simpl; lia. Qed.

(** The scanner reads back one escaped character, provided that a high
    surrogate is not followed by the escape of a low one. *)
Lemma scan_step_escape (c : Z) (tail : pystr) :
  valid_codepoint c = true ->
  (is_high_surrogate c = true -> low_escape_ahead tail = false) ->
  scan_step (escape_char c ++ tail) = ChunkChar c tail.
Proof.
  intros [Hc0 Hc1]%andb_true_iff Hahead.
  apply Z.leb_le in Hc0. apply Z.ltb_lt in Hc1.
  unfold escape_char.
  destruct (Z.eqb_spec c 34) as [->|H34]; [done|].
  destruct (Z.eqb_spec c 92) as [->|H92]; [done|].
  destruct (Z.eqb_spec c 10) as [->|H10]; [done|].
  destruct (Z.eqb_spec c 13) as [->|H13]; [done|].
  destruct (Z.eqb_spec c 9) as [->|H9]; [done|].
  destruct (Z.eqb_spec c 8) as [->|H8]; [done|].
  destruct (Z.eqb_spec c 12) as [->|H12]; [done|].
  destruct ((32 <=? c) && (c <=? 126)) eqn:Hprint.
  { apply andb_true_iff in Hprint as [Hlo%Z.leb_le Hhi%Z.leb_le].
    simpl. zbool. done. }
  destruct (Z.ltb_spec c 65536) as [Hbmp|Hastral].
  - cbn [hex_digits app Z.of_nat Z.mul Pos.of_succ_nat Pos.succ Pos.mul Pos.add].
    cbn [scan_step]. simpl (92 =? 34). simpl (92 =? 92). simpl (117 =? 117).
    cbv iota.
    change (4 * 3) with 12. change (4 * 2) with 8. change (4 * 1) with 4.
    change (4 * 0) with 0.
    rewrite hex4_hex_digits by lia.
    destruct (is_high_surrogate c) eqn:Hhigh; [|done].
    specialize (Hahead eq_refl).
    destruct tail as [|b [|u [|g1 [|g2 [|g3 [|g4 tail]]]]]]; try done.
    unfold low_escape_ahead in Hahead.
    destruct ((b =? 92) && (u =? 117)); [|done]. simpl in Hahead.
    destruct (hex4 g1 g2 g3 g4) as [uni2|]; [|done]. by rewrite Hahead.
  - pose proof (surrogate_halves c ltac:(lia)) as (Hs1 & Hs2 & Hjoin).
    simpl in Hs1, Hs2, Hjoin.
    set (s1 := Z.lor 55296 (Z.land (Z.shiftr (c - 65536) 10) 1023)) in *.
    set (s2 := Z.lor 56320 (Z.land (c - 65536) 1023)) in *.
    cbv zeta.
    cbn [hex_digits app Z.of_nat Z.mul Pos.of_succ_nat Pos.succ Pos.mul Pos.add].
    cbn [scan_step]. simpl (92 =? 34). simpl (92 =? 92). simpl (117 =? 117).
    cbv iota.
    change (4 * 3) with 12. change (4 * 2) with 8. change (4 * 1) with 4.
    change (4 * 0) with 0.
    rewrite !hex4_hex_digits by lia.
    replace (is_high_surrogate s1) with true
      by (symmetry; unfold is_high_surrogate; zbool; done).
    simpl.
    replace (is_low_surrogate s2) with true
      by (symmetry; unfold is_low_surrogate; zbool; done).
    by rewrite Hjoin.
Qed.

Lemma low_escape_ahead_short (a e : Z) (tail : pystr) :
  (a =? 92) && (e =? 117) = false -> low_escape_ahead (a :: e :: tail) = false.
Proof.
  intros H. destruct tail as [|g1 [|g2 [|g3 [|g4 tail]]]]; try done.
  unfold low_escape_ahead. by rewrite H.
Qed.

Lemma low_escape_ahead_quote (rest : pystr) : low_escape_ahead (34 :: rest) = false.
Proof. by destruct rest as [|u [|g1 [|g2 [|g3 [|g4 tail]]]]]. Qed.

(** Behind the escape of a character that is not a low surrogate there is
    no escape of a low surrogate. *)
Lemma low_escape_ahead_escape (d : Z) (tail : pystr) :
  valid_codepoint d = true -> is_low_surrogate d = false ->
  tail <> [] ->
  low_escape_ahead (escape_char d ++ tail) = false.
Proof.
  intros [Hc0 Hc1]%andb_true_iff Hlow Htail.
  apply Z.leb_le in Hc0. apply Z.ltb_lt in Hc1.
  unfold escape_char.
  destruct (Z.eqb_spec d 34) as [->|H34]; [by apply low_escape_ahead_short|].
  destruct (Z.eqb_spec d 92) as [->|H92]; [by apply low_escape_ahead_short|].
  destruct (Z.eqb_spec d 10) as [->|H10]; [by apply low_escape_ahead_short|].
  destruct (Z.eqb_spec d 13) as [->|H13]; [by apply low_escape_ahead_short|].
  destruct (Z.eqb_spec d 9) as [->|H9]; [by apply low_escape_ahead_short|].
  destruct (Z.eqb_spec d 8) as [->|H8]; [by apply low_escape_ahead_short|].
  destruct (Z.eqb_spec d 12) as [->|H12]; [by apply low_escape_ahead_short|].
  destruct ((32 <=? d) && (d <=? 126)) eqn:Hprint.
  { destruct tail as [|e tail]; [done|]. simpl. apply low_escape_ahead_short.
    zbool; try done. }
  destruct (Z.ltb_spec d 65536) as [Hbmp|Hastral].
  - cbn [hex_digits app Z.of_nat Z.mul Pos.of_succ_nat Pos.succ Pos.mul Pos.add].
    change (4 * 3) with 12. change (4 * 2) with 8. change (4 * 1) with 4.
    change (4 * 0) with 0.
    unfold low_escape_ahead. rewrite hex4_hex_digits by lia. by rewrite Hlow.
  - pose proof (surrogate_halves d ltac:(lia)) as (Hs1 & _ & _).
    simpl in Hs1.
    set (s1 := Z.lor 55296 (Z.land (Z.shiftr (d - 65536) 10) 1023)) in *.
    cbv zeta.
    cbn [hex_digits app Z.of_nat Z.mul Pos.of_succ_nat Pos.succ Pos.mul Pos.add].
    change (4 * 3) with 12. change (4 * 2) with 8. change (4 * 1) with 4.
    change (4 * 0) with 0.
    unfold low_escape_ahead. rewrite hex4_hex_digits by lia.
    simpl. unfold is_low_surrogate. zbool; try done.
Qed.

Lemma has_surrogate_pair_cons (c : Z) (s : pystr) :
  has_surrogate_pair (c :: s) = false ->
  has_surrogate_pair s = false /\
  (is_high_surrogate c = true ->
   match s with [] => True | d :: _ => is_low_surrogate d = false end).
Proof.
  destruct s as [|d s]; [done|].
  cbn [has_surrogate_pair]. intros [H1 H2]%orb_false_iff. split; [done|].
  intros Hc. by rewrite Hc in H1.
Qed.

(** The scanner reads back the body of a string literal the encoder wrote. *)
Lemma scanstring_loop_escaped (s : pystr) : forall (rounds : nat) (rest : pystr),
  forallb valid_codepoint s = true ->
  has_surrogate_pair s = false ->
  (length s < rounds)%nat ->
  scanstring_loop rounds (concat (escape_char <$> s) ++ 34 :: rest) = Some (s, rest).
Proof.
  induction s as [|c s IH]; intros rounds rest Hvalid Hpair Hrounds.
  - destruct rounds; [simpl in Hrounds; lia|]. done.
  - destruct rounds as [|rounds]; [simpl in Hrounds; lia|].
    cbn [forallb] in Hvalid. apply andb_true_iff in Hvalid as [Hc Hs].
    apply has_surrogate_pair_cons in Hpair as [Hpair Hnext].
    rewrite fmap_cons. cbn [concat]. rewrite <- app_assoc.
    cbn [scanstring_loop]. rewrite scan_step_escape; [|done|].
    + rewrite IH; [done|done|done|]. simpl in Hrounds. lia.
    + intros Hhigh. specialize (Hnext Hhigh).
      destruct s as [|d s]; [apply low_escape_ahead_quote|].
      rewrite fmap_cons. cbn [concat]. rewrite <- app_assoc.
      cbn [forallb] in Hs. apply andb_true_iff in Hs as [Hd _].
      apply low_escape_ahead_escape; [done|done|].
      by destruct (concat (escape_char <$> s)).
Qed.

Lemma escaped_length (s : pystr) :
  (length s <= length (concat (escape_char <$> s)))%nat.
Proof.
  induction s as [|c s IH]; [done|].
  rewrite fmap_cons. cbn [concat]. rewrite length_app. simpl.
  pose proof (escape_char_nonempty c). lia.
Qed.

Lemma scanstring_encoded (s rest : pystr) :
  forallb valid_codepoint s = true ->
  has_surrogate_pair s = false ->
  scanstring (concat (escape_char <$> s) ++ 34 :: rest) = Some (s, rest).
Proof.
  intros Hvalid Hpair. unfold scanstring.
  apply scanstring_loop_escaped; [done|done|].
  rewrite length_app. simpl. pose proof (escaped_length s). lia.
Qed.

(** ** The codec: values *)

(** Induction on values that reaches into lists and dicts. *)
Lemma value_ind_nested (P : value -> Prop) :
  P PNone ->
  (forall b, P (PBool b)) ->
  (forall n, P (PInt n)) ->
  (forall s, P (PStr s)) ->
  (forall l, Forall P l -> P (PList l)) ->
  (forall d, Forall (fun kv => P (snd kv)) d -> P (PDict d)) ->
  forall v, P v.
Proof.
  intros HNone HBool HInt HStr HList HDict.
  fix IH 1. intros [|b|n|s|l|d].
  - exact HNone.
  - apply HBool.
  - apply HInt.
  - apply HStr.
  - apply HList. induction l as [|x l IHl]; constructor; [apply IH|exact IHl].
  - apply HDict. induction d as [|[k x] d IHd]; constructor; [apply IH|exact IHd].
Qed.

Lemma join_with_more (sep p q : pystr) (ps : list pystr) :
  join_with sep (p :: q :: ps) = p ++ sep ++ join_with sep (q :: ps).
Proof. reflexivity. Qed.

(** The text of a value starts with a character that is neither white
    space nor a closing bracket. *)
Lemma dumps_head (v : value) :
  exists c t, dumps v = c :: t /\ is_ws c = false /\ (c =? 93) = false.
Proof.
  destruct v as [|[|]|n|s|l|d]; try (by eexists _, _).
  destruct (int_repr_head n) as (c & t & Hn & Hc).
  exists c, t. split; [done|]. unfold is_ws.
  destruct Hc as [->|Hc]; [done|]. zbool; done.
Qed.

Lemma skip_ws_dumps (v : value) (rest : pystr) :
  skip_ws (dumps v ++ rest) = dumps v ++ rest.
Proof.
  destruct (dumps_head v) as (c & t & -> & Hc & _). simpl. by rewrite Hc.
Qed.

Lemma dumps_nonempty (v : value) : (1 <= length (dumps v))%nat.
Proof. destruct (dumps_head v) as (c & t & -> & _). simpl. lia. Qed.

(** A text that starts with a minus sign or a digit is scanned as a number. *)
Lemma scan_once_number (fuel : nat) (c : Z) (t : pystr) :
  c = 45 \/ 48 <= c <= 57 ->
  scan_once (S fuel) (c :: t) = scan_number (c :: t).
Proof.
  intros Hc. cbn [scan_once].
  assert ((c =? 34) = false /\ (c =? 123) = false /\ (c =? 91) = false /\
          (110 =? c) = false /\ (116 =? c) = false /\ (102 =? c) = false)
    as (H1 & H2 & H3 & H4 & H5 & H6).
  { destruct Hc as [->|Hc]; [done|]. repeat split; zbool; done. }
  rewrite H1, H2, H3.
  change (lit "null") with [110; 117; 108; 108].
  change (lit "true") with [116; 114; 117; 101].
  change (lit "false") with [102; 97; 108; 115; 101].
  cbn [starts_with]. by rewrite H4, H5, H6.
Qed.

(** [dict(pairs)] of pairs with distinct keys is the list of pairs. *)
Lemma dict_set_fresh (d : record) (k : pystr) (v : value) :
  k ∉ (fst <$> d) -> dict_set d k v = d ++ [(k, v)].
Proof.
  induction d as [|[k' v'] d IH]; intros Hk; simpl; [done|].
  rewrite fmap_cons in Hk. apply not_elem_of_cons in Hk as [Hne Hk]. simpl in Hne.
  rewrite bool_decide_eq_false_2 by done. by rewrite IH.
Qed.

Lemma foldl_dict_set (pairs : record) : forall acc : record,
  NoDup (fst <$> (acc ++ pairs)) ->
  foldl (fun d kv => dict_set d (fst kv) (snd kv)) acc pairs = acc ++ pairs.
Proof.
  induction pairs as [|[k v] pairs IH]; intros acc Hnd; simpl.
  - by rewrite app_nil_r.
  - rewrite dict_set_fresh.
    + rewrite IH; rewrite <- app_assoc; done.
    + rewrite fmap_app, fmap_cons in Hnd. apply NoDup_app in Hnd as (_ & Hnd & _).
      intros Hin. apply (Hnd _ Hin). simpl. left.
Qed.

Lemma dict_of_pairs_distinct (pairs : record) :
  NoDup (fst <$> pairs) -> dict_of_pairs pairs = pairs.
Proof. intros Hnd. unfold dict_of_pairs. by rewrite foldl_dict_set. Qed.

Lemma skip_ws_other (c : Z) (t : pystr) : is_ws c = false -> skip_ws (c :: t) = c :: t.
Proof. intros H. simpl. by rewrite H. Qed.

Lemma skip_ws_space (t : pystr) : skip_ws (32 :: t) = skip_ws t.
Proof. reflexivity. Qed.

Lemma join_dumps_head (v : value) (l : list value) :
  exists c t, join_with (lit ", ") (List.map dumps (v :: l)) = c :: t /\
              is_ws c = false /\ (c =? 93) = false.
Proof.
  destruct (dumps_head v) as (c & t & Hv & Hc).
  destruct l as [|w l].
  - exists c, t. by rewrite <- Hv.
  - exists c, (t ++ lit ", " ++ join_with (lit ", ") (List.map dumps (w :: l))).
    split; [|done]. cbn [List.map]. rewrite join_with_more, Hv. done.
Qed.

(** The loop of JSONArray reads back the items the encoder wrote. *)
Lemma array_loop_dumps (l : list value) :
  l <> [] ->
  Forall scans_back l ->
  forallb wf_value l = true -> forallb no_surrogate_pairs l = true ->
  forall (depth : nat) (rest : pystr),
    (length (join_with (lit ", ") (List.map dumps l)) + 1 <= depth)%nat ->
    array_loop depth (join_with (lit ", ") (List.map dumps l) ++ 93 :: rest)
    = Some (l, rest).
Proof.
  induction l as [|v l IH]; [done|].
  intros _ Hback Hwf Hplain depth rest Hdepth.
  apply Forall_cons in Hback as [Hv Hback].
  cbn [forallb] in Hwf, Hplain.
  apply andb_true_iff in Hwf as [Hwv Hwf].
  apply andb_true_iff in Hplain as [Hpv Hplain].
  destruct depth as [|depth]; [lia|].
  destruct l as [|w l].
  - cbn [List.map join_with] in *. cbn [array_loop].
    rewrite (Hv depth (93 :: rest)); [|done|done|lia|simpl; auto].
    done.
  - cbn [List.map] in *. rewrite join_with_more in *.
    rewrite !length_app in Hdepth.
    change (length (lit ", ")) with 2%nat in Hdepth.
    rewrite <- !app_assoc. cbn [array_loop].
    rewrite (Hv depth); [|done|done|lia|simpl; auto].
    change (lit ", ") with [44; 32] at 1. cbn [app].
    rewrite (skip_ws_other 44) by done. cbv iota.
    change (44 =? 93) with false. change (44 =? 44) with true. cbv iota.
    rewrite skip_ws_space.
    destruct (join_dumps_head w l) as (c & t & Hj & Hc & _).
    cbn [List.map] in Hj.
    rewrite Hj. cbn [app]. rewrite (skip_ws_other c) by done.
    change (c :: t ++ 93 :: rest) with ((c :: t) ++ 93 :: rest). rewrite <- Hj.
    rewrite (IH ltac:(done) Hback Hwf Hplain depth rest); [done|].
    cbn [List.map]. pose proof (dumps_nonempty v). lia.
Qed.

Lemma entry_text (k : pystr) (v : value) :
  encode_basestring_ascii k ++ lit ": " ++ dumps v
  = 34 :: (concat (escape_char <$> k) ++ 34 :: 58 :: 32 :: dumps v).
Proof.
  unfold encode_basestring_ascii. change (lit ": ") with [58; 32].
  cbn [app]. by rewrite <- app_assoc.
Qed.

(** The loop of JSONObject reads back the entries the encoder wrote. *)
Lemma object_loop_dumps (d : record) :
  d <> [] ->
  Forall (fun kv => scans_back (snd kv)) d ->
  forallb (fun kv => forallb valid_codepoint (fst kv) && wf_value (snd kv)) d = true ->
  forallb (fun kv => negb (has_surrogate_pair (fst kv))
                     && no_surrogate_pairs (snd kv)) d = true ->
  forall (depth : nat) (rest : pystr),
    (length (join_with (lit ", ")
               (List.map (fun kv => encode_basestring_ascii (fst kv)
                                      ++ lit ": " ++ dumps (snd kv)) d))
     + 1 <= depth)%nat ->
    exists t,
      join_with (lit ", ")
        (List.map (fun kv => encode_basestring_ascii (fst kv)
                               ++ lit ": " ++ dumps (snd kv)) d) = 34 :: t /\
      object_loop depth (t ++ 125 :: rest) = Some (d, rest).
Proof.
  induction d as [|[k v] d IH]; [done|].
  intros _ Hback Hwf Hplain depth rest Hdepth.
  apply Forall_cons in Hback as [Hv Hback]. cbn [snd] in Hv.
  cbn [forallb fst snd] in Hwf, Hplain.
  apply andb_true_iff in Hwf as [[Hkv Hwv]%andb_true_iff Hwf].
  apply andb_true_iff in Hplain as [[Hkp%negb_true_iff Hpv]%andb_true_iff Hplain].
  destruct depth as [|depth]; [lia|].
  destruct d as [|kv' d].
  - cbn [List.map join_with fst snd] in Hdepth |- *.
    rewrite (entry_text k v) in Hdepth |- *.
    eexists. split; [reflexivity|].
    repeat (rewrite ?length_app in Hdepth; progress cbn [length] in Hdepth).
    rewrite <- app_assoc. cbn [app object_loop].
    rewrite scanstring_encoded by done.
    rewrite (skip_ws_other 58) by done. cbv iota.
    change (58 =? 58) with true. cbv iota.
    rewrite skip_ws_space, skip_ws_dumps.
    rewrite (Hv depth (125 :: rest)); [|done|done|lia|simpl; auto].
    rewrite (skip_ws_other 125) by done. done.
  - cbn [List.map fst snd] in Hdepth |- *. rewrite join_with_more in Hdepth |- *.
    rewrite (entry_text k v) in Hdepth |- *.
    repeat (rewrite ?length_app in Hdepth; progress cbn [length] in Hdepth).
    change (length (lit ", ")) with 2%nat in Hdepth.
    destruct (IH ltac:(done) Hback Hwf Hplain depth rest) as (t' & Ht' & Hloop).
    { cbn [List.map]. unfold pystr in *. lia. }
    cbn [List.map] in Ht'. unfold pystr in *. rewrite Ht'.
    eexists. split; [reflexivity|].
    rewrite <- !app_assoc. cbn [app object_loop].
    rewrite scanstring_encoded by done.
    rewrite (skip_ws_other 58) by done. cbv iota.
    change (58 =? 58) with true. cbv iota.
    rewrite skip_ws_space. rewrite <- ?app_assoc. rewrite skip_ws_dumps.
    rewrite (Hv depth); [|done|done|lia|].
    2:{ change (lit ", ") with [44; 32]. simpl. auto. }
    change (lit ", ") with [44; 32]. cbn [app].
    rewrite (skip_ws_other 44) by done. cbv iota.
    change (44 =? 125) with false. change (44 =? 44) with true. cbv iota.
    rewrite skip_ws_space, (skip_ws_other 34) by done. cbv iota.
    change (34 =? 34) with true. cbv iota.
    by rewrite Hloop.
Qed.

(** The scanner reads back the text of every well-formed value that has
    no surrogate pair in its strings. *)
Lemma dumps_scans_back (v : value) : scans_back v.
Proof.
  induction v as [|b|n|s|l IHl|d IHd] using value_ind_nested;
    intros depth rest Hwf Hplain Hdepth Hend;
    (destruct depth as [|depth];
     [match type of Hdepth with
      | (length (dumps ?x) <= _)%nat => pose proof (dumps_nonempty x); lia
      end|]).
  - reflexivity.
  - by destruct b.
  - destruct (int_repr_head n) as (c & t & Hn & Hc).
    change (dumps (PInt n)) with (int_repr n).
    rewrite Hn. cbn [app]. rewrite scan_once_number by done.
    change (c :: t ++ rest) with ((c :: t) ++ rest). rewrite <- Hn.
    by apply scan_number_repr.
  - cbn [wf_value no_surrogate_pairs] in Hwf, Hplain.
    apply negb_true_iff in Hplain.
    cbn [dumps]. unfold encode_basestring_ascii.
    cbn [app]. rewrite <- app_assoc. cbn [app scan_once].
    change (34 =? 34) with true. cbv iota.
    by rewrite scanstring_encoded.
  - cbn [wf_value no_surrogate_pairs] in Hwf, Hplain.
    destruct l as [|v l]; [reflexivity|].
    cbn [dumps] in Hdepth |- *. cbn [length] in Hdepth.
    rewrite length_app in Hdepth. cbn [length] in Hdepth.
    cbn [app]. rewrite <- app_assoc. cbn [app scan_once].
    change (91 =? 34) with false. change (91 =? 123) with false.
    change (91 =? 91) with true. cbv iota.
    destruct (join_dumps_head v l) as (c & t & Hj & Hc & Hc').
    rewrite Hj. cbn [app]. rewrite (skip_ws_other c) by done. cbv iota.
    rewrite Hc'.
    change (c :: t ++ 93 :: rest) with ((c :: t) ++ 93 :: rest). rewrite <- Hj.
    rewrite array_loop_dumps; try done. lia.
  - cbn [wf_value no_surrogate_pairs] in Hwf, Hplain.
    apply andb_true_iff in Hwf as [Hnd%bool_decide_eq_true Hwf].
    destruct d as [|kv d]; [reflexivity|].
    cbn [dumps] in Hdepth |- *. cbn [length] in Hdepth.
    rewrite length_app in Hdepth. cbn [length] in Hdepth.
    destruct (object_loop_dumps (kv :: d) ltac:(done) IHd Hwf Hplain depth rest)
      as (t & Ht & Hloop); [lia|].
    unfold pystr in *. rewrite Ht.
    cbn [app]. rewrite <- app_assoc. cbn [app scan_once].
    change (123 =? 34) with false. change (123 =? 123) with true. cbv iota.
    rewrite (skip_ws_other 34) by done. cbv iota.
    change (34 =? 125) with false. change (34 =? 34) with true. cbv iota.
    rewrite Hloop. by rewrite dict_of_pairs_distinct.
Qed.

(** The decoder reads back what the encoder wrote. *)
Lemma loads_dumps (v : value) :
  wf_value v = true -> no_surrogate_pairs v = true -> loads (dumps v) = Some v.
Proof.
  intros Hwf Hplain. unfold loads.
  pose proof (skip_ws_dumps v []) as Hws. rewrite app_nil_r in Hws. rewrite Hws.
  pose proof (dumps_scans_back v (S (length (dumps v))) [] Hwf Hplain) as Hscan.
  rewrite app_nil_r in Hscan. rewrite Hscan; [done|lia|done].
Qed.




(** ** Persistence backend: reads after writes *)

Lemma row_is_true (memory_id key : pystr) (row : data_row) :
  row_is memory_id key row = true <-> d_memory_id row = memory_id /\ d_key row = key.
Proof.
  unfold row_is. rewrite andb_true_iff, !bool_decide_eq_true. done.
Qed.

Lemma row_is_other (memory_id key memory_id' key' : pystr) (row : data_row) :
  memory_id' <> memory_id \/ key' <> key ->
  row_is memory_id key row = true -> row_is memory_id' key' row = false.
Proof.
  intros Hne [Hm Hk]%row_is_true. apply not_true_is_false.
  intros [Hm' Hk']%row_is_true. destruct Hne; congruence.
Qed.

Lemma find_none_existsb {A : Type} (p : A -> bool) (l : list A) :
  existsb p l = false -> List.find p l = None.
Proof.
  induction l as [|x l IH]; simpl; [done|].
  intros [Hx Hl]%orb_false_iff. rewrite Hx. by apply IH.
Qed.

Lemma find_app {A : Type} (p : A -> bool) (l l' : list A) :
  List.find p (l ++ l') =
  match List.find p l with Some x => Some x | None => List.find p l' end.
Proof.
  induction l as [|x l IH]; simpl; [done|]. by destruct (p x).
Qed.

(** After the upsert the first row of (memory_id, key) holds the payload. *)
Lemma find_upsert_same (now : Z) (memory_id key serialized : pystr) (new_id : Z)
    (rows : list data_row) :
  exists row,
    List.find (row_is memory_id key) (upsert now memory_id key serialized new_id rows)
    = Some row /\ d_data row = serialized.
Proof.
  unfold upsert. destruct (existsb (row_is memory_id key) rows) eqn:Hex.
  - induction rows as [|r rows IH]; [done|].
    rewrite fmap_cons. cbn [List.find existsb] in *.
    destruct (row_is memory_id key r) eqn:Hr.
    + assert (row_is memory_id key
                {| d_id := d_id r; d_memory_id := d_memory_id r; d_key := d_key r;
                   d_data := serialized; d_created_at := d_created_at r;
                   d_updated_at := now |} = true) as ->.
      { apply row_is_true. simpl. by apply row_is_true. }
      by eexists.
    + rewrite Hr. simpl in Hex. by apply IH.
  - rewrite find_app, (find_none_existsb _ _ Hex). simpl.
    assert (row_is memory_id key
              {| d_id := new_id; d_memory_id := memory_id; d_key := key;
                 d_data := serialized; d_created_at := now;
                 d_updated_at := now |} = true) as ->.
    { by apply row_is_true. }
    by eexists.
Qed.

(** The upsert does not change what any other (memory_id, key) finds. *)
Lemma find_upsert_other (now : Z) (memory_id key serialized : pystr) (new_id : Z)
    (memory_id' key' : pystr) (rows : list data_row) :
  memory_id' <> memory_id \/ key' <> key ->
  List.find (row_is memory_id' key') (upsert now memory_id key serialized new_id rows)
  = List.find (row_is memory_id' key') rows.
Proof.
  intros Hne. unfold upsert.
  destruct (existsb (row_is memory_id key) rows) eqn:Hex.
  - clear Hex. induction rows as [|r rows IH]; [done|].
    rewrite fmap_cons. cbn [List.find].
    destruct (row_is memory_id key r) eqn:Hr.
    + assert (row_is memory_id' key'
                {| d_id := d_id r; d_memory_id := d_memory_id r; d_key := d_key r;
                   d_data := serialized; d_created_at := d_created_at r;
                   d_updated_at := now |} = false) as ->.
      { apply (row_is_other memory_id key); [done|].
        apply row_is_true. simpl. by apply row_is_true. }
      by rewrite (row_is_other memory_id key memory_id' key' r Hne Hr).
    + destruct (row_is memory_id' key' r); [done|exact IH].
  - rewrite find_app. destruct (List.find (row_is memory_id' key') rows); [done|].
    simpl.
    assert (row_is memory_id' key'
              {| d_id := new_id; d_memory_id := memory_id; d_key := key;
                 d_data := serialized; d_created_at := now;
                 d_updated_at := now |} = false) as ->; [|done].
    apply (row_is_other memory_id key); [done|]. by apply row_is_true.
Qed.

(** The upsert does not change the rows of any other namespace. *)
Lemma filter_upsert_other (now : Z) (memory_id key serialized : pystr) (new_id : Z)
    (memory_id' : pystr) (rows : list data_row) :
  memory_id' <> memory_id ->
  List.filter (row_in memory_id') (upsert now memory_id key serialized new_id rows)
  = List.filter (row_in memory_id') rows.
Proof.
  intros Hne. unfold upsert.
  destruct (existsb (row_is memory_id key) rows) eqn:Hex.
  - clear Hex. induction rows as [|r rows IH]; [done|].
    rewrite fmap_cons. cbn [List.filter]. rewrite IH.
    destruct (row_is memory_id key r) eqn:Hr; [|done].
    apply row_is_true in Hr as [Hm _].
    assert (row_in memory_id' r = false) as ->.
    { unfold row_in. apply bool_decide_eq_false_2. congruence. }
    assert (row_in memory_id'
              {| d_id := d_id r; d_memory_id := d_memory_id r; d_key := d_key r;
                 d_data := serialized; d_created_at := d_created_at r;
                 d_updated_at := now |} = false) as ->; [|done].
    unfold row_in. apply bool_decide_eq_false_2. simpl. congruence.
  - rewrite List.filter_app. simpl. unfold row_in at 2. simpl.
    rewrite bool_decide_eq_false_2 by congruence. by rewrite app_nil_r.
Qed.

(** X1: on an open backend, [retrieve] right after [store] returns the
    record stored, for every record the codec restores. *)
Theorem store_then_retrieve (now : Z) (self : SQLiteStorage)
    (memory_id key : pystr) (data : record) :
  conn_closed self = false ->
  wf_value (PDict data) = true ->
  no_surrogate_pairs (PDict data) = true ->
  retrieve (snd (store now self memory_id key data)) memory_id key
  = Ok (Some (PDict data)).
Proof.
  intros Hopen Hwf Hplain. unfold store, retrieve, cursor. rewrite Hopen. simpl.
  rewrite ?Hopen. simpl.
  destruct (find_upsert_same now memory_id key (serialize_data data)
              (next_rowid (db self)) (memory_data (db self))) as (row & -> & Hdata).
  unfold decode_row, deserialize_data. rewrite Hdata.
  unfold serialize_data. by rewrite loads_dumps.
Qed.

Lemma store_then_retrieve_witness :
  retrieve (snd (store 100 new_storage (lit "short_term") (lit "msg_1")
                   [(lit "role", PStr (lit "user")); (lit "n", PInt 3)]))
    (lit "short_term") (lit "msg_1")
  = Ok (Some (PDict [(lit "role", PStr (lit "user")); (lit "n", PInt 3)])).
Proof.
  apply (store_then_retrieve 100 new_storage (lit "short_term") (lit "msg_1")
           [(lit "role", PStr (lit "user")); (lit "n", PInt 3)]);
    vm_compute; reflexivity.
Defined.

(** X2: [store] under (memory_id, key) changes nothing that can be read
    under another namespace or another key: [retrieve] of any other
    (memory_id', key') gives what it gave before, and [query] and
    [list_keys] of any other namespace give what they gave before. *)
Theorem store_isolation (now : Z) (self : SQLiteStorage)
    (memory_id key : pystr) (data : record) (memory_id' key' : pystr)
    (filters : record) :
  let after := snd (store now self memory_id key data) in
  (memory_id' <> memory_id \/ key' <> key ->
   retrieve after memory_id' key' = retrieve self memory_id' key') /\
  (memory_id' <> memory_id ->
   query after memory_id' filters = query self memory_id' filters /\
   list_keys after memory_id' = list_keys self memory_id').
Proof.
  unfold store, retrieve, query, list_keys, cursor.
  destruct (conn_closed self) eqn:Hopen; simpl; [by rewrite ?Hopen|].
  rewrite ?Hopen. simpl. split.
  - intros Hne. by rewrite find_upsert_other.
  - intros Hne. by rewrite filter_upsert_other.
Qed.

Lemma store_isolation_witness :
  let self := snd (store 100 new_storage (lit "y") (lit "a") [(lit "v", PInt 1)]) in
  retrieve (snd (store 200 self (lit "x") (lit "a") [(lit "v", PInt 2)]))
    (lit "y") (lit "a")
  = retrieve self (lit "y") (lit "a").
Proof.
  apply (proj1 (store_isolation 200
                  (snd (store 100 new_storage (lit "y") (lit "a") [(lit "v", PInt 1)]))
                  (lit "x") (lit "a") [(lit "v", PInt 2)] (lit "y") (lit "a") [])).
  left. vm_compute. discriminate.
Defined.

Lemma find_filter_negb_same {A : Type} (p : A -> bool) (l : list A) :
  List.find p (List.filter (fun x => negb (p x)) l) = None.
Proof.
  induction l as [|x l IH]; simpl; [done|].
  destruct (p x) eqn:Hx; simpl; [done|]. by rewrite Hx.
Qed.

Lemma find_filter_keep {A : Type} (p q : A -> bool) (l : list A) :
  (forall x, p x = true -> q x = true) ->
  List.find p (List.filter q l) = List.find p l.
Proof.
  intros Hpq. induction l as [|x l IH]; simpl; [done|].
  destruct (p x) eqn:Hx.
  - rewrite (Hpq x Hx). simpl. by rewrite Hx.
  - destruct (q x); simpl; [by rewrite Hx|done].
Qed.

Lemma filter_filter_keep {A : Type} (p q : A -> bool) (l : list A) :
  (forall x, p x = true -> q x = true) ->
  List.filter p (List.filter q l) = List.filter p l.
Proof.
  intros Hpq. induction l as [|x l IH]; simpl; [done|].
  destruct (p x) eqn:Hx.
  - rewrite (Hpq x Hx). simpl. by rewrite Hx, IH.
  - destruct (q x); simpl; [by rewrite Hx|done].
Qed.

Lemma row_in_of_row_is (memory_id key : pystr) (row : data_row) :
  row_is memory_id key row = true -> row_in memory_id row = true.
Proof. intros [Hm _]%row_is_true. by apply bool_decide_eq_true. Qed.

(** X3: on an open backend, after [delete] of (memory_id, key) a
    [retrieve] of it finds nothing, and every other (memory_id', key')
    reads as before; [query] and [list_keys] of other namespaces are
    unchanged. *)
Theorem delete_then_retrieve (self : SQLiteStorage) (memory_id key : pystr)
    (memory_id' key' : pystr) (filters : record) :
  conn_closed self = false ->
  let after := snd (delete self memory_id key) in
  retrieve after memory_id key = Ok None /\
  (memory_id' <> memory_id \/ key' <> key ->
   retrieve after memory_id' key' = retrieve self memory_id' key') /\
  (memory_id' <> memory_id ->
   query after memory_id' filters = query self memory_id' filters /\
   list_keys after memory_id' = list_keys self memory_id').
Proof.
  intros Hopen. unfold delete, retrieve, query, list_keys, cursor.
  rewrite Hopen. simpl. rewrite ?Hopen. simpl.
  split; [by rewrite find_filter_negb_same|]. split.
  - intros Hne. rewrite find_filter_keep; [done|].
    intros row Hrow. apply negb_true_iff.
    apply (row_is_other memory_id' key'); [|done].
    destruct Hne; [left|right]; congruence.
  - intros Hne. rewrite filter_filter_keep; [done|].
    intros row Hrow. apply negb_true_iff, not_true_is_false.
    intros [Hm _]%row_is_true. apply bool_decide_eq_true in Hrow. congruence.
Qed.

Lemma delete_then_retrieve_witness :
  let self := snd (store 100 new_storage (lit "x") (lit "a") [(lit "v", PInt 1)]) in
  retrieve (snd (delete self (lit "x") (lit "a"))) (lit "x") (lit "a") = Ok None.
Proof.
  pose proof (delete_then_retrieve
                (snd (store 100 new_storage (lit "x") (lit "a") [(lit "v", PInt 1)]))
                (lit "x") (lit "a") (lit "x") (lit "a") [] eq_refl) as H.
  exact (proj1 H).
Defined.

Lemma apply_filters_nil (filters : record) : apply_filters filters [] = Ok [].
Proof. induction filters as [|[f v] filters IH]; simpl; done. Qed.

Lemma filter_negb_same {A : Type} (p : A -> bool) (l : list A) :
  List.filter p (List.filter (fun x => negb (p x)) l) = [].
Proof. apply filter_negb_twice. Qed.

(** X4: on an open backend [delete_memory] empties the namespace: a
    [query] of it returns no record whatever the filters, [retrieve]
    finds nothing under any key, [list_keys] is empty and the tracking
    entry is gone; other namespaces read as before; and doing it again
    changes nothing. The namespace need not exist. *)
Theorem delete_memory_clears (self : SQLiteStorage) (memory_id : pystr)
    (key memory_id' key' : pystr) (filters : record) :
  conn_closed self = false ->
  let after := snd (delete_memory self memory_id) in
  fst (delete_memory self memory_id) = Ok tt /\
  query after memory_id filters = Ok [] /\
  retrieve after memory_id key = Ok None /\
  list_keys after memory_id = Ok [] /\
  (memory_id ∉ (m_memory_id <$> memories (db after))) /\
  (memory_id' <> memory_id ->
   retrieve after memory_id' key' = retrieve self memory_id' key' /\
   query after memory_id' filters = query self memory_id' filters /\
   list_keys after memory_id' = list_keys self memory_id') /\
  delete_memory after memory_id = (Ok tt, after).
Proof.
  intros Hopen. unfold delete_memory, retrieve, query, list_keys, cursor.
  rewrite Hopen. simpl. rewrite ?Hopen. simpl.
  rewrite (filter_negb_twice (row_in memory_id)). simpl.
  split; [done|]. split; [apply apply_filters_nil|]. split.
  { rewrite find_none_existsb; [done|].
    apply not_true_is_false. intros (row & Hin & Hrow)%existsb_exists.
    apply List.filter_In in Hin as [_ Hin]. apply negb_true_iff in Hin.
    apply row_in_of_row_is in Hrow. congruence. }
  split; [done|]. split.
  { intros (m & Hm & Hin)%list_elem_of_fmap.
    apply list_elem_of_In, List.filter_In in Hin as [_ Hin].
    apply negb_true_iff, bool_decide_eq_false in Hin. congruence. }
  split.
  - intros Hne.
    assert (forall row, row_in memory_id' row = true ->
                        negb (row_in memory_id row) = true) as Hkeep.
    { intros row Hrow. apply negb_true_iff, bool_decide_eq_false.
      apply bool_decide_eq_true in Hrow. congruence. }
    rewrite (filter_filter_keep _ _ _ Hkeep). split; [|done].
    rewrite find_filter_keep; [done|].
    intros row Hrow. apply Hkeep. by apply (row_in_of_row_is _ key').
  - by rewrite !filter_negb_idem.
Qed.

Lemma delete_memory_clears_witness :
  let self := snd (store 100 new_storage (lit "x") (lit "a") [(lit "v", PInt 1)]) in
  query (snd (delete_memory self (lit "x"))) (lit "x") [] = Ok [].
Proof.
  pose proof (delete_memory_clears
                (snd (store 100 new_storage (lit "x") (lit "a") [(lit "v", PInt 1)]))
                (lit "x") (lit "a") (lit "y") (lit "a") [] eq_refl) as H.
  exact (proj1 (proj2 H)).
Defined.

(** ** Persistence backend: what the schema promises is kept *)

Lemma foldr_max_above (ids : list Z) (start : Z) :
  start <= foldr Z.max start ids /\ Forall (fun i => i <= foldr Z.max start ids) ids.
Proof.
  induction ids as [|i ids [IH1 IH2]]; simpl; [split; [lia|constructor]|].
  split; [lia|]. constructor; [lia|].
  eapply Forall_impl; [exact IH2|]. simpl. intros. lia.
Qed.

Lemma Forall_through_fmap {A B : Type} (f : A -> B) (P : B -> Prop) (l : list A) :
  Forall P (f <$> l) <-> Forall (fun x => P (f x)) l.
Proof.
  induction l as [|x l IH]; [split; constructor|].
  rewrite fmap_cons. split; intros [Hx Hl]%Forall_cons; constructor; tauto.
Qed.

(** AUTOINCREMENT: the next rowid is above the counter and above every
    rowid in the table. *)
Lemma next_rowid_above (d : database) :
  sequence d < next_rowid d /\
  Forall (fun row => d_id row < next_rowid d) (memory_data d).
Proof.
  unfold next_rowid.
  destruct (foldr_max_above (d_id <$> memory_data d) (sequence d)) as [H1 H2].
  split; [lia|].
  apply (proj1 (Forall_through_fmap d_id
                  (fun i => i <= foldr Z.max (sequence d) (d_id <$> memory_data d)) _))
    in H2.
  eapply Forall_impl; [exact H2|]. simpl. intros. lia.
Qed.

Lemma upsert_pairs_existing (now : Z) (memory_id key serialized : pystr)
    (new_id : Z) (rows : list data_row) :
  existsb (row_is memory_id key) rows = true ->
  (fun row => (d_memory_id row, d_key row, d_id row))
    <$> upsert now memory_id key serialized new_id rows
  = (fun row => (d_memory_id row, d_key row, d_id row)) <$> rows.
Proof.
  intros Hex. unfold upsert. rewrite Hex. rewrite <- list_fmap_compose.
  apply list_fmap_ext. intros i row _. simpl.
  by destruct (row_is memory_id key row).
Qed.

Lemma existsb_row_is_pairs (memory_id key : pystr) (rows : list data_row) :
  existsb (row_is memory_id key) rows = false ->
  (memory_id, key) ∉ ((fun row => (d_memory_id row, d_key row)) <$> rows).
Proof.
  intros Hex (row & Hpair & Hin)%list_elem_of_fmap.
  injection Hpair as Hm Hk.
  assert (existsb (row_is memory_id key) rows = true); [|congruence].
  apply existsb_exists. exists row. split; [by apply list_elem_of_In|].
  by apply row_is_true.
Qed.

(** [store] keeps the schema's constraints. *)
Lemma store_db_ok (now : Z) (self : SQLiteStorage) (memory_id key : pystr)
    (data : record) :
  db_ok (db self) -> db_ok (db (snd (store now self memory_id key data))).
Proof.
  intros (Hpairs & Hids & Hseq & Hmem & Hfk). unfold store, cursor.
  destruct (conn_closed self); simpl; [done|].
  destruct (next_rowid_above (db self)) as [Habove Hbelow].
  set (new_id := next_rowid (db self)) in *.
  assert (Hms : forall m, m ∈ (m_memory_id <$> memories (db self)) ->
                  m ∈ (m_memory_id <$> insert_or_ignore_memory now memory_id
                                         (memories (db self)))).
  { intros m Hm. unfold insert_or_ignore_memory.
    destruct (existsb _ (memories (db self))); [done|].
    rewrite fmap_app. apply elem_of_app. by left. }
  assert (Hnew : memory_id ∈ (m_memory_id <$> insert_or_ignore_memory now memory_id
                                               (memories (db self)))).
  { unfold insert_or_ignore_memory.
    destruct (existsb _ (memories (db self))) eqn:Hex.
    - apply existsb_exists in Hex as (m & Hin & Hm%bool_decide_eq_true).
      apply list_elem_of_fmap. exists m. split; [done|by apply list_elem_of_In].
    - rewrite fmap_app. apply elem_of_app. right. simpl. apply list_elem_of_singleton.
      done. }
  unfold db_ok. simpl.
  destruct (existsb (row_is memory_id key) (memory_data (db self))) eqn:Hex.
  - pose proof (upsert_pairs_existing now memory_id key (serialize_data data)
                  new_id _ Hex) as Hsame.
    assert ((fun row => (d_memory_id row, d_key row))
              <$> upsert now memory_id key (serialize_data data) new_id
                    (memory_data (db self))
            = (fun row => (d_memory_id row, d_key row)) <$> memory_data (db self))
      as Hp.
    { apply (f_equal (fmap (fun t : pystr * pystr * Z => (t.1.1, t.1.2)))) in Hsame.
      by rewrite <- !list_fmap_compose in Hsame. }
    assert (d_id <$> upsert now memory_id key (serialize_data data) new_id
                       (memory_data (db self))
            = d_id <$> memory_data (db self)) as Hi.
    { apply (f_equal (fmap (fun t : pystr * pystr * Z => t.2))) in Hsame.
      by rewrite <- !list_fmap_compose in Hsame. }
    assert (d_memory_id <$> upsert now memory_id key (serialize_data data) new_id
                              (memory_data (db self))
            = d_memory_id <$> memory_data (db self)) as Hm.
    { apply (f_equal (fmap (fun t : pystr * pystr * Z => t.1.1))) in Hsame.
      by rewrite <- !list_fmap_compose in Hsame. }
    rewrite Hp, Hi. split; [done|]. split; [done|]. split.
    { apply (Forall_through_fmap d_id (fun i => i <= new_id)).
      rewrite Hi. apply (Forall_through_fmap d_id (fun i => i <= new_id)).
      eapply Forall_impl; [exact Hseq|]. simpl. intros. lia. }
    split.
    { unfold insert_or_ignore_memory.
      destruct (existsb _ (memories (db self))) eqn:Hm'; [done|].
      rewrite fmap_app. apply NoDup_app. split; [done|]. split; [|apply NoDup_singleton].
      intros m Hin Hm''%list_elem_of_singleton. simpl in Hm''. subst m.
      apply list_elem_of_fmap in Hin as (m & Heq & Hin).
      assert (existsb (fun m0 => bool_decide (m_memory_id m0 = memory_id))
                (memories (db self)) = true); [|congruence].
      apply existsb_exists. exists m. split; [by apply list_elem_of_In|].
      by apply bool_decide_eq_true. }
    apply (Forall_through_fmap d_memory_id
             (fun m => m ∈ (m_memory_id <$> insert_or_ignore_memory now memory_id
                                             (memories (db self))))).
    rewrite Hm.
    apply (Forall_through_fmap d_memory_id
             (fun m => m ∈ (m_memory_id <$> insert_or_ignore_memory now memory_id
                                             (memories (db self))))).
    eapply Forall_impl; [exact Hfk|]. simpl. intros m Hin. by apply Hms.
  - unfold upsert. rewrite Hex. rewrite !fmap_app. simpl.
    split.
    { apply NoDup_app. split; [done|]. split; [|apply NoDup_singleton].
      intros p Hin Hp%list_elem_of_singleton. subst p.
      by apply (existsb_row_is_pairs _ _ _ Hex). }
    split.
    { apply NoDup_app. split; [done|]. split; [|apply NoDup_singleton].
      intros i Hin Hi%list_elem_of_singleton. subst i.
      apply list_elem_of_fmap in Hin as (row & Heq & Hin).
      rewrite Forall_forall in Hbelow. specialize (Hbelow row Hin). lia. }
    split.
    { apply Forall_app. split.
      - eapply Forall_impl; [exact Hbelow|]. simpl. intros. lia.
      - repeat constructor. simpl. lia. }
    split.
    { unfold insert_or_ignore_memory.
      destruct (existsb _ (memories (db self))) eqn:Hm'; [done|].
      rewrite fmap_app. apply NoDup_app. split; [done|]. split; [|apply NoDup_singleton].
      intros m Hin Hm''%list_elem_of_singleton. simpl in Hm''. subst m.
      apply list_elem_of_fmap in Hin as (m & Heq & Hin).
      assert (existsb (fun m0 => bool_decide (m_memory_id m0 = memory_id))
                (memories (db self)) = true); [|congruence].
      apply existsb_exists. exists m. split; [by apply list_elem_of_In|].
      by apply bool_decide_eq_true. }
    apply Forall_app. split.
    + eapply Forall_impl; [exact Hfk|]. simpl. intros row Hin. by apply Hms.
    + repeat constructor. simpl. exact Hnew.
Qed.

Lemma filter_keeps_NoDup {A B : Type} (f : A -> B) (p : A -> bool) (l : list A) :
  NoDup (f <$> l) -> NoDup (f <$> List.filter p l).
Proof.
  induction l as [|x l IH]; [done|].
  rewrite fmap_cons. intros [Hx Hl]%NoDup_cons. simpl.
  destruct (p x); [|by apply IH].
  rewrite fmap_cons. apply NoDup_cons. split; [|by apply IH].
  intros (y & Hy & Hin)%list_elem_of_fmap. apply Hx.
  apply list_elem_of_fmap. exists y. split; [done|].
  apply list_elem_of_In. apply list_elem_of_In, List.filter_In in Hin. tauto.
Qed.

Lemma filter_keeps_Forall {A : Type} (P : A -> Prop) (p : A -> bool) (l : list A) :
  Forall P l -> Forall P (List.filter p l).
Proof.
  intros H. apply Forall_forall. intros x Hin.
  apply list_elem_of_In, List.filter_In in Hin as [Hin _].
  rewrite Forall_forall in H. by apply H, list_elem_of_In.
Qed.

Lemma delete_db_ok (self : SQLiteStorage) (memory_id key : pystr) :
  db_ok (db self) -> db_ok (db (snd (delete self memory_id key))).
Proof.
  intros (Hpairs & Hids & Hseq & Hmem & Hfk). unfold delete, cursor.
  destruct (conn_closed self); simpl; [done|].
  unfold db_ok. simpl.
  split; [by apply filter_keeps_NoDup|]. split; [by apply filter_keeps_NoDup|].
  split; [by apply filter_keeps_Forall|]. split; [done|].
  by apply filter_keeps_Forall.
Qed.

Lemma delete_memory_db_ok (self : SQLiteStorage) (memory_id : pystr) :
  db_ok (db self) -> db_ok (db (snd (delete_memory self memory_id))).
Proof.
  intros (Hpairs & Hids & Hseq & Hmem & Hfk). unfold delete_memory, cursor.
  destruct (conn_closed self); simpl; [done|].
  unfold db_ok. simpl.
  split; [by apply filter_keeps_NoDup|]. split; [by apply filter_keeps_NoDup|].
  split; [by apply filter_keeps_Forall|]. split; [by apply filter_keeps_NoDup|].
  apply Forall_forall. intros row Hin.
  apply list_elem_of_In, List.filter_In in Hin as [Hin Hrow].
  apply negb_true_iff, bool_decide_eq_false in Hrow.
  rewrite Forall_forall in Hfk.
  specialize (Hfk row (proj2 (list_elem_of_In _ _) Hin)).
  apply list_elem_of_fmap in Hfk as (m & Hm & Hmin).
  apply list_elem_of_fmap. exists m. split; [done|].
  apply list_elem_of_In, List.filter_In. split; [by apply list_elem_of_In|].
  apply negb_true_iff, bool_decide_eq_false. congruence.
Qed.

(** X5: the constraints the schema declares hold in a new database and
    are kept by every operation: (memory_id, key) stays unique, rowids
    stay distinct and never above the AUTOINCREMENT counter, memory_id
    stays unique in the tracking table, and every data row keeps a
    tracking entry. *)
Theorem schema_constraints_kept (now : Z) (self : SQLiteStorage)
    (memory_id key : pystr) (data : record) :
  db_ok (db new_storage) /\
  (db_ok (db self) ->
   db_ok (db (snd (store now self memory_id key data))) /\
   db_ok (db (snd (delete self memory_id key))) /\
   db_ok (db (snd (delete_memory self memory_id))) /\
   db_ok (db (snd (close self)))).
Proof.
  split.
  - unfold db_ok. simpl. repeat split; constructor.
  - intros Hok. split; [by apply store_db_ok|].
    split; [by apply delete_db_ok|]. split; [by apply delete_memory_db_ok|done].
Qed.

Lemma schema_constraints_kept_witness :
  db_ok (db (snd (store 200
                    (snd (store 100 new_storage (lit "x") (lit "a") [(lit "v", PInt 1)]))
                    (lit "x") (lit "a") [(lit "v", PInt 2)]))).
Proof.
  apply (proj2 (schema_constraints_kept 200
                  (snd (store 100 new_storage (lit "x") (lit "a") [(lit "v", PInt 1)]))
                  (lit "x") (lit "a") [(lit "v", PInt 2)])).
  apply (proj2 (schema_constraints_kept 100 new_storage (lit "x") (lit "a")
                  [(lit "v", PInt 1)])).
  apply (proj1 (schema_constraints_kept 100 new_storage (lit "x") (lit "a")
                  [(lit "v", PInt 1)])).
Defined.

(** *** The backend's query against the retriever's filters *)

Lemma filter_items_records (field : pystr) (v : value) (records : list record) :
  filter_items field v (PDict <$> records)
  = Ok (PDict <$> filter_by_field records field v).
Proof.
  unfold filter_by_field.
  induction records as [|r records IH]; [done|].
  rewrite fmap_cons. cbn [filter_items item_matches]. rewrite IH.
  cbn [List.filter]. cbn [mbind result_bind].
  by destruct (py_eq (get_or_none r field) v).
Qed.

Lemma apply_filters_records (filters : record) :
  forall records,
    apply_filters filters (PDict <$> records)
    = Ok (PDict <$> filter_by_multiple records filters).
Proof.
  unfold filter_by_multiple.
  induction filters as [|[field v] filters IH]; intros records; [done|].
  cbn [apply_filters foldl fst snd]. rewrite filter_items_records.
  cbn [mbind result_bind]. apply IH.
Qed.

Lemma comprehension_records (rows : list data_row) (records : list record) :
  Forall2 (fun row r => d_data row = serialize_data r /\
                        wf_value (PDict r) = true /\
                        no_surrogate_pairs (PDict r) = true) rows records ->
  comprehension decode_row rows = Ok (PDict <$> records).
Proof.
  induction 1 as [|row r rows records (Hdata & Hwf & Hplain) _ IH]; [done|].
  cbn [comprehension]. rewrite (decode_row_some row (PDict r)).
  - cbn [mbind result_bind]. rewrite IH. done.
  - rewrite Hdata. unfold deserialize_data, serialize_data. by apply loads_dumps.
Qed.

(** X6: on a namespace whose rows hold the encodings of the records
    [records], in table order, the backend's [query] answers what
    [SimpleRetriever.filter_by_multiple] answers on [records]: the two
    filter loops agree, on every filter dict. *)
Theorem query_is_filter_by_multiple (self : SQLiteStorage) (memory_id : pystr)
    (records : list record) (filters : record) :
  conn_closed self = false ->
  holds_records (db self) memory_id records ->
  query self memory_id filters
  = Ok (PDict <$> filter_by_multiple records filters).
Proof.
  intros Hopen Hrows. unfold query, cursor. rewrite Hopen.
  cbn [mbind result_bind]. rewrite (comprehension_records _ records Hrows).
  cbn [mbind result_bind]. apply apply_filters_records.
Qed.

Lemma query_is_filter_by_multiple_witness :
  query (snd (store 100 new_storage (lit "x") (lit "a") [(lit "v", PInt 1)]))
    (lit "x") [(lit "v", PInt 1)]
  = Ok [PDict [(lit "v", PInt 1)]].
Proof.
  apply (query_is_filter_by_multiple
           (snd (store 100 new_storage (lit "x") (lit "a") [(lit "v", PInt 1)]))
           (lit "x") [[(lit "v", PInt 1)]] [(lit "v", PInt 1)] eq_refl).
  unfold holds_records.
  set (rows := List.filter _ _). vm_compute in rows. subst rows.
  repeat constructor.
Defined.

(** *** What a store does to the records of its namespace *)

Lemma fmap_unhit {A : Type} (g : A -> A) (hit : A -> bool) (l : list A) :
  (forall a, hit a = false -> g a = a) ->
  Forall (fun a => hit a = false) l -> g <$> l = l.
Proof.
  intros Hg. induction 1 as [|a l Ha _ IH]; [done|].
  rewrite fmap_cons, IH, (Hg a Ha). done.
Qed.

Lemma Forall2_replace_at {A B : Type} (P : A -> B -> Prop) (g : A -> A)
    (hit : A -> bool) (b : B) (l : list A) (k : list B) :
  (forall a, hit a = false -> g a = a) ->
  (forall a, hit a = true -> P (g a) b) ->
  Forall2 P l k ->
  forall i : nat,
    (forall j a, l !! j = Some a -> hit a = true -> j = i) ->
    (exists a, l !! i = Some a /\ hit a = true) ->
    Forall2 P (g <$> l) (<[i:=b]> k).
Proof.
  intros Hmiss Hhit.
  induction 1 as [|a0 b0 l k Hab Hlk IH]; intros i Huniq (a & Hi & Ha).
  - done.
  - destruct i as [|i].
    + injection Hi as ->. rewrite fmap_cons. simpl. constructor; [by apply Hhit|].
      rewrite (fmap_unhit g hit l Hmiss); [done|].
      apply Forall_lookup. intros j a' Hj. apply not_true_is_false. intros Ha'.
      by specialize (Huniq (S j) a' Hj Ha').
    + rewrite fmap_cons. simpl.
      assert (hit a0 = false) as Ha0.
      { apply not_true_is_false. intros Ha0.
        by specialize (Huniq 0%nat a0 eq_refl Ha0). }
      rewrite (Hmiss a0 Ha0). constructor; [done|].
      apply IH.
      * intros j a' Hj Ha'. specialize (Huniq (S j) a' Hj Ha'). lia.
      * by exists a.
Qed.

Lemma filter_fmap_kept {A : Type} (g : A -> A) (p : A -> bool) (l : list A) :
  (forall a, p (g a) = p a) ->
  List.filter p (g <$> l) = g <$> List.filter p l.
Proof.
  intros Hg. induction l as [|a l IH]; [done|].
  rewrite fmap_cons. cbn [List.filter]. rewrite Hg, IH. by destruct (p a).
Qed.

Lemma namespace_key_row (memory_id key : pystr) (rows : list data_row) (i : nat) :
  (d_key <$> List.filter (row_in memory_id) rows) !! i = Some key ->
  exists row, List.filter (row_in memory_id) rows !! i = Some row /\
              row_is memory_id key row = true.
Proof.
  rewrite list_lookup_fmap. intros Hi.
  destruct (List.filter (row_in memory_id) rows !! i) as [row|] eqn:Hrow; [|done].
  injection Hi as Hkey. exists row. split; [done|].
  apply list_elem_of_lookup_2, list_elem_of_In, List.filter_In in Hrow as [_ Hin].
  apply row_is_true. split; [|done]. by apply bool_decide_eq_true in Hin.
Qed.

Lemma namespace_key_absent (memory_id key : pystr) (rows : list data_row) :
  key ∉ (d_key <$> List.filter (row_in memory_id) rows) ->
  existsb (row_is memory_id key) rows = false.
Proof.
  intros Hnot. apply not_true_is_false.
  intros (row & Hin & [Hm Hk]%row_is_true)%existsb_exists.
  apply Hnot, list_elem_of_fmap. exists row. split; [done|].
  apply list_elem_of_In, List.filter_In. split; [done|].
  by apply bool_decide_eq_true.
Qed.

Lemma new_storage_db_ok : db_ok (db new_storage).
Proof. unfold db_ok. simpl. repeat split; constructor. Qed.

(** X7: a store under a key that is new to the namespace puts the record
    after the ones already there; a store under an existing key replaces
    that record where it stands, and leaves the others and their order
    alone. *)
Theorem store_updates_namespace (now : Z) (self : SQLiteStorage)
    (memory_id key : pystr) (data : record) (records : list record) :
  conn_closed self = false ->
  db_ok (db self) ->
  wf_value (PDict data) = true ->
  no_surrogate_pairs (PDict data) = true ->
  holds_records (db self) memory_id records ->
  let keys := d_key <$> List.filter (row_in memory_id) (memory_data (db self)) in
  let after := db (snd (store now self memory_id key data)) in
  (key ∉ keys -> holds_records after memory_id (records ++ [data])) /\
  (forall i : nat, keys !! i = Some key ->
     holds_records after memory_id (<[i:=data]> records)).
Proof.
  intros Hopen (Hpairs & _) Hwf Hplain Hrows keys after.
  subst keys after. unfold store, cursor, holds_records in *. rewrite Hopen.
  cbn [snd db memory_data]. split.
  - intros Hnew. apply namespace_key_absent in Hnew.
    unfold upsert. rewrite Hnew. rewrite List.filter_app.
    apply Forall2_app; [done|]. cbn [List.filter].
    assert (row_in memory_id
              {| d_id := next_rowid (db self); d_memory_id := memory_id;
                 d_key := key; d_data := serialize_data data;
                 d_created_at := now; d_updated_at := now |} = true) as ->
      by by apply bool_decide_eq_true.
    by constructor.
  - intros i Hi. apply namespace_key_row in Hi as (row & Hi & Hrow).
    assert (existsb (row_is memory_id key) (memory_data (db self)) = true) as Hex.
    { apply existsb_exists. exists row. split; [|done].
      apply list_elem_of_lookup_2, list_elem_of_In, List.filter_In in Hi. tauto. }
    unfold upsert. rewrite Hex. rewrite filter_fmap_kept.
    2:{ intros a. by destruct (row_is memory_id key a). }
    apply (Forall2_replace_at _ _ (row_is memory_id key)); [| |done| |].
    + by intros a ->.
    + by intros a ->.
    + intros j a Hj Ha.
      apply (filter_keeps_NoDup _ (row_in memory_id)) in Hpairs.
      apply (NoDup_lookup _ j i (memory_id, key) Hpairs).
      * rewrite list_lookup_fmap, Hj. simpl. apply row_is_true in Ha as [-> ->]. done.
      * rewrite list_lookup_fmap, Hi. simpl. apply row_is_true in Hrow as [-> ->]. done.
    + by exists row.
Qed.

Lemma store_updates_namespace_witness :
  holds_records
    (db (snd (store 200
                (snd (store 100 new_storage (lit "x") (lit "a") [(lit "v", PInt 1)]))
                (lit "x") (lit "a") [(lit "v", PInt 2)])))
    (lit "x") [[(lit "v", PInt 2)]].
Proof.
  assert (holds_records
            (db (snd (store 100 new_storage (lit "x") (lit "a") [(lit "v", PInt 1)])))
            (lit "x") [[(lit "v", PInt 1)]]) as Hfirst.
  { apply (proj1 (store_updates_namespace 100 new_storage (lit "x") (lit "a")
                    [(lit "v", PInt 1)] [] eq_refl
                    new_storage_db_ok
                    eq_refl eq_refl (List.Forall2_nil _))).
    vm_compute. apply not_elem_of_nil. }
  apply (proj2 (store_updates_namespace 200
                  (snd (store 100 new_storage (lit "x") (lit "a") [(lit "v", PInt 1)]))
                  (lit "x") (lit "a") [(lit "v", PInt 2)] [[(lit "v", PInt 1)]]
                  eq_refl
                  (store_db_ok 100 new_storage (lit "x") (lit "a") [(lit "v", PInt 1)]
                     new_storage_db_ok)
                  eq_refl eq_refl Hfirst) 0%nat).
  reflexivity.
Defined.

(** ** Enumeration of a namespace *)

Lemma insert_by_created_at_perm (row : data_row) (l : list data_row) :
  insert_by_created_at row l ≡ₚ row :: l.
Proof.
  induction l as [|r l IH]; simpl; [done|].
  destruct (d_created_at row <? d_created_at r); [done|].
  rewrite IH. apply Permutation_swap.
Qed.

Lemma order_from_perm (l : list data_row) :
  forall acc,
    foldl (fun sorted row => insert_by_created_at row sorted) acc l ≡ₚ acc ++ l.
Proof.
  induction l as [|r l IH]; intros acc; simpl.
  - by rewrite app_nil_r.
  - rewrite IH, insert_by_created_at_perm. simpl. apply Permutation_middle.
Qed.

Lemma order_by_created_at_perm (l : list data_row) : order_by_created_at l ≡ₚ l.
Proof. unfold order_by_created_at. by rewrite order_from_perm. Qed.

Lemma insert_by_created_at_sorted (row : data_row) (l : list data_row) :
  StronglySorted (fun a b => d_created_at a <= d_created_at b) l ->
  StronglySorted (fun a b => d_created_at a <= d_created_at b)
    (insert_by_created_at row l).
Proof.
  induction 1 as [|r l Hl IH Hr]; simpl.
  - repeat constructor.
  - destruct (d_created_at row <? d_created_at r) eqn:Hlt.
    + apply Z.ltb_lt in Hlt. constructor; [by constructor|].
      constructor; [lia|]. eapply Forall_impl; [exact Hr|]. simpl. intros; lia.
    + apply Z.ltb_ge in Hlt. constructor; [done|].
      rewrite insert_by_created_at_perm. by constructor.
Qed.

Lemma order_from_sorted (l : list data_row) :
  forall acc,
    StronglySorted (fun a b => d_created_at a <= d_created_at b) acc ->
    StronglySorted (fun a b => d_created_at a <= d_created_at b)
      (foldl (fun sorted row => insert_by_created_at row sorted) acc l).
Proof.
  induction l as [|r l IH]; intros acc Hacc; simpl; [done|].
  by apply IH, insert_by_created_at_sorted.
Qed.

(** A row not older than any row of a sorted list goes to its end. *)
Lemma insert_by_created_at_last (row : data_row) (l : list data_row) :
  Forall (fun r => d_created_at r <= d_created_at row) l ->
  insert_by_created_at row l = l ++ [row].
Proof.
  induction 1 as [|r l Hr _ IH]; simpl; [done|].
  assert ((d_created_at row <? d_created_at r) = false) as -> by (by apply Z.ltb_ge).
  by rewrite IH.
Qed.

Lemma order_from_ordered (l : list data_row) :
  forall acc,
    StronglySorted (fun a b => d_created_at a <= d_created_at b) (acc ++ l) ->
    foldl (fun sorted row => insert_by_created_at row sorted) acc l = acc ++ l.
Proof.
  induction l as [|r l IH]; intros acc Hsorted; simpl.
  - by rewrite app_nil_r.
  - rewrite insert_by_created_at_last.
    + rewrite IH; rewrite <- app_assoc; done.
    + apply Forall_forall. intros a Ha.
      apply (StronglySorted_app_1_elem_of _ acc (r :: l) a r Hsorted Ha).
      apply elem_of_cons. by left.
Qed.

(** Rows of one creation time come out in the order they went in. *)
Lemma insert_by_created_at_ties (t : Z) (row : data_row) (l : list data_row) :
  StronglySorted (fun a b => d_created_at a <= d_created_at b) l ->
  List.filter (fun r => d_created_at r =? t) (insert_by_created_at row l)
  = List.filter (fun r => d_created_at r =? t) l
    ++ (if d_created_at row =? t then [row] else []).
Proof.
  induction 1 as [|r l Hl IH Hr]; simpl; [by destruct (d_created_at row =? t)|].
  destruct (d_created_at row <? d_created_at r) eqn:Hlt.
  - apply Z.ltb_lt in Hlt. cbn [List.filter].
    destruct (d_created_at row =? t) eqn:Hrow; [|by rewrite app_nil_r].
    apply Z.eqb_eq in Hrow.
    assert ((d_created_at r =? t) = false) as -> by (apply Z.eqb_neq; lia).
    rewrite list_filter_none; [done|].
    eapply Forall_impl; [exact Hr|]. simpl. intros a Ha. apply Z.eqb_neq. lia.
  - cbn [List.filter]. rewrite IH. by destruct (d_created_at r =? t).
Qed.

Lemma order_from_ties (t : Z) (l : list data_row) :
  forall acc,
    StronglySorted (fun a b => d_created_at a <= d_created_at b) acc ->
    List.filter (fun r => d_created_at r =? t)
      (foldl (fun sorted row => insert_by_created_at row sorted) acc l)
    = List.filter (fun r => d_created_at r =? t) acc
      ++ List.filter (fun r => d_created_at r =? t) l.
Proof.
  induction l as [|r l IH]; intros acc Hacc; simpl.
  - by rewrite app_nil_r.
  - rewrite IH by by apply insert_by_created_at_sorted.
    rewrite insert_by_created_at_ties by done. rewrite <- app_assoc.
    by destruct (d_created_at r =? t).
Qed.

(** X8: [list_keys] gives the keys of the namespace's rows by ascending
    creation time, rows of one creation time in table order; when the
    table is already in creation order, that is table order, the order in
    which [query] returns the records. *)
Theorem list_keys_order (self : SQLiteStorage) (memory_id : pystr) :
  conn_closed self = false ->
  let rows := List.filter (row_in memory_id) (memory_data (db self)) in
  exists sorted,
    list_keys self memory_id = Ok (d_key <$> sorted) /\
    sorted ≡ₚ rows /\
    StronglySorted (fun a b => d_created_at a <= d_created_at b) sorted /\
    (forall t, List.filter (fun r => d_created_at r =? t) sorted
               = List.filter (fun r => d_created_at r =? t) rows) /\
    (StronglySorted (fun a b => d_created_at a <= d_created_at b) rows ->
     sorted = rows).
Proof.
  intros Hopen rows. exists (order_by_created_at rows).
  split; [|split; [|split; [|split]]].
  - unfold list_keys, cursor. by rewrite Hopen.
  - apply order_by_created_at_perm.
  - apply order_from_sorted. constructor.
  - intros t. unfold order_by_created_at. rewrite order_from_ties; [done|constructor].
  - intros Hrows. by apply (order_from_ordered rows []).
Qed.

Lemma list_keys_order_witness :
  exists sorted,
    list_keys (snd (store 100 new_storage (lit "x") (lit "a") [(lit "v", PInt 1)]))
      (lit "x") = Ok (d_key <$> sorted) /\
    length sorted = 1%nat.
Proof.
  destruct (list_keys_order
              (snd (store 100 new_storage (lit "x") (lit "a") [(lit "v", PInt 1)]))
              (lit "x") eq_refl) as (sorted & Hkeys & Hperm & _).
  exists sorted. split; [exact Hkeys|].
  apply Permutation_length in Hperm. exact Hperm.
Defined.






Lemma insert_by_created_at_fmap (g : data_row -> data_row) (row : data_row)
    (l : list data_row) :
  (forall r, d_created_at (g r) = d_created_at r) ->
  insert_by_created_at (g row) (g <$> l) = g <$> insert_by_created_at row l.
Proof.
  intros Hg. induction l as [|r l IH]; [done|].
  rewrite fmap_cons. cbn [insert_by_created_at]. rewrite !Hg, IH.
  by destruct (d_created_at row <? d_created_at r).
Qed.

Lemma order_from_fmap (g : data_row -> data_row) (l : list data_row) :
  (forall r, d_created_at (g r) = d_created_at r) ->
  forall acc,
    foldl (fun sorted row => insert_by_created_at row sorted) (g <$> acc) (g <$> l)
    = g <$> foldl (fun sorted row => insert_by_created_at row sorted) acc l.
Proof.
  intros Hg. induction l as [|r l IH]; intros acc; [done|].
  rewrite fmap_cons. cbn [foldl]. rewrite insert_by_created_at_fmap by done.
  apply IH.
Qed.

(** What a store does to the list of keys of its namespace. *)
Lemma store_keeps_or_appends_key (now : Z) (self : SQLiteStorage) (memory_id key : pystr)
    (data : record) (keys : list pystr) :
  list_keys self memory_id = Ok keys ->
  let after := snd (store now self memory_id key data) in
  (key ∈ keys -> list_keys after memory_id = Ok keys) /\
  (key ∉ keys ->
   Forall (fun row => d_created_at row <= now)
     (List.filter (row_in memory_id) (memory_data (db self))) ->
   list_keys after memory_id = Ok (keys ++ [key])).
Proof.
  unfold list_keys, store, cursor.
  destruct (conn_closed self) eqn:Hopen; [done|].
  cbn [mbind result_bind snd db memory_data conn_closed]. intros [= <-].
  pose proof (order_by_created_at_perm
                (List.filter (row_in memory_id) (memory_data (db self)))) as Hperm.
  split.
  - intros Hin. rewrite Hperm in Hin.
    apply list_elem_of_fmap in Hin as (row & Hkey & Hin).
    apply list_elem_of_In, List.filter_In in Hin as [Hin Hns].
    assert (existsb (row_is memory_id key) (memory_data (db self)) = true) as Hex.
    { apply existsb_exists. exists row. split; [done|].
      apply row_is_true. by apply bool_decide_eq_true in Hns. }
    unfold upsert. rewrite Hex.
    match goal with |- context [List.filter _ (?f <$> _)] => set (g := f) end.
    assert (forall r, d_created_at (g r) = d_created_at r) as Hg
      by (intros r; unfold g; by destruct (row_is memory_id key r)).
    rewrite filter_fmap_kept.
    2:{ intros a. unfold g. by destruct (row_is memory_id key a). }
    unfold order_by_created_at.
    rewrite (order_from_fmap g _ Hg []).
    rewrite <- list_fmap_compose. f_equal. apply list_fmap_ext.
    intros i r _. simpl. unfold g. by destruct (row_is memory_id key r).
  - intros Hnew Hclock. rewrite Hperm in Hnew.
    apply namespace_key_absent in Hnew.
    unfold upsert. rewrite Hnew, List.filter_app. cbn [List.filter].
    assert (row_in memory_id
              {| d_id := next_rowid (db self); d_memory_id := memory_id;
                 d_key := key; d_data := serialize_data data;
                 d_created_at := now; d_updated_at := now |} = true) as ->
      by (by apply bool_decide_eq_true).
    unfold order_by_created_at. rewrite foldl_app. cbn [foldl].
    rewrite insert_by_created_at_last; [by rewrite fmap_app|].
    fold (order_by_created_at
            (List.filter (row_in memory_id) (memory_data (db self)))).
    by rewrite Hperm.
Qed.

(** X10: a store under a key the namespace already lists leaves
    [list_keys] as it was (the row keeps its creation time); a store
    under a new key, at a time not before the creation of the rows
    already there, puts the key last. *)
Theorem store_list_keys (now : Z) (self : SQLiteStorage) (memory_id key : pystr)
    (data : record) (keys : list pystr) :
  list_keys self memory_id = Ok keys ->
  let after := snd (store now self memory_id key data) in
  (key ∈ keys -> list_keys after memory_id = Ok keys) /\
  (key ∉ keys ->
   Forall (fun row => d_created_at row <= now)
     (List.filter (row_in memory_id) (memory_data (db self))) ->
   list_keys after memory_id = Ok (keys ++ [key])).
Proof. apply store_keeps_or_appends_key. Qed.

Lemma store_list_keys_witness :
  list_keys
    (snd (store 200
            (snd (store 100 new_storage (lit "x") (lit "a") [(lit "v", PInt 1)]))
            (lit "x") (lit "a") [(lit "v", PInt 2)]))
    (lit "x")
  = Ok [lit "a"].
Proof.
  apply (proj1 (store_list_keys 200
                  (snd (store 100 new_storage (lit "x") (lit "a") [(lit "v", PInt 1)]))
                  (lit "x") (lit "a") [(lit "v", PInt 2)] [lit "a"] eq_refl)).
  apply list_elem_of_singleton. reflexivity.
Defined.

(** ** Retrieval engine: more on filters, limit and sort *)

Lemma list_filter_filter {A : Type} (p q : A -> bool) (l : list A) :
  List.filter q (List.filter p l) = List.filter (fun x => p x && q x) l.
Proof.
  induction l as [|x l IH]; simpl; [done|].
  destruct (p x); simpl; [|exact IH]. rewrite IH. by destruct (q x).
Qed.

Lemma forallb_perm {A : Type} (p : A -> bool) (l l' : list A) :
  l ≡ₚ l' -> forallb p l = forallb p l'.
Proof.
  induction 1 as [|x l l' _ IH|x y l|l l' l'' _ IH1 _ IH2]; simpl.
  - done.
  - by rewrite IH.
  - by destruct (p x), (p y).
  - by rewrite IH1.
Qed.

(** Whether a record passes every filter of the dict. *)
Lemma filter_by_multiple_filter (filters : record) : forall items,
  filter_by_multiple items filters
  = List.filter
      (fun item => forallb (fun fv => py_eq (get_or_none item (fst fv)) (snd fv))
                     filters)
      items.
Proof.
  unfold filter_by_multiple.
  induction filters as [|[f v] filters IH]; intros items.
  - simpl. induction items as [|x items IHi]; simpl; [done|]. by rewrite <- IHi.
  - cbn [foldl fst snd]. rewrite IH. unfold filter_by_field.
    rewrite list_filter_filter. done.
Qed.

(** X11: [filter_by_multiple] keeps exactly the records that pass every
    filter of the dict, in input order; so the order in which the dict
    lists its filters does not matter, and filtering twice is filtering
    once. *)
Theorem filter_by_multiple_conjunction (items : list record) (filters : record) :
  filter_by_multiple items filters
  = List.filter
      (fun item => forallb (fun fv => py_eq (get_or_none item (fst fv)) (snd fv))
                     filters)
      items /\
  (forall filters', filters ≡ₚ filters' ->
     filter_by_multiple items filters' = filter_by_multiple items filters) /\
  filter_by_multiple (filter_by_multiple items filters) filters
  = filter_by_multiple items filters.
Proof.
  split; [apply filter_by_multiple_filter|]. split.
  - intros filters' Hperm. rewrite !filter_by_multiple_filter.
    apply List.filter_ext. intros item. symmetry. by apply forallb_perm.
  - rewrite !filter_by_multiple_filter, list_filter_filter.
    apply List.filter_ext. intros item. by destruct (forallb _ filters).
Qed.

Lemma filter_by_multiple_conjunction_witness :
  filter_by_multiple [[(lit "a", PInt 1); (lit "b", PInt 2)]; [(lit "a", PInt 1)]]
    [(lit "b", PInt 2); (lit "a", PInt 1)]
  = filter_by_multiple [[(lit "a", PInt 1); (lit "b", PInt 2)]; [(lit "a", PInt 1)]]
      [(lit "a", PInt 1); (lit "b", PInt 2)].
Proof.
  apply (proj1 (proj2 (filter_by_multiple_conjunction
                         [[(lit "a", PInt 1); (lit "b", PInt 2)]; [(lit "a", PInt 1)]]
                         [(lit "a", PInt 1); (lit "b", PInt 2)]))).
  apply Permutation_swap.
Defined.

(** X12: [limit_results] returns a prefix of its input. A limit of zero
    or more gives that many records, or all when there are fewer; a
    negative limit does not give the empty list but drops that many
    records from the end. [get_recent] returns as many. *)
Theorem limit_results_prefix (items : list record) (limit : Z) (field : pystr) :
  limit_results items limit `prefix_of` items /\
  Z.of_nat (length (limit_results items limit))
  = (if 0 <=? limit then Z.min limit (Z.of_nat (length items))
     else Z.max 0 (Z.of_nat (length items) + limit)) /\
  length (get_recent items field limit) = length (limit_results items limit).
Proof.
  assert (forall l : list record,
             Z.of_nat (length (limit_results l limit))
             = (if 0 <=? limit then Z.min limit (Z.of_nat (length l))
                else Z.max 0 (Z.of_nat (length l) + limit))) as Hlen.
  { intros l. unfold limit_results.
    destruct (0 <=? limit) eqn:Hsign; rewrite length_take.
    - apply Z.leb_le in Hsign. lia.
    - apply Z.leb_gt in Hsign. lia. }
  split; [|split].
  - unfold limit_results. destruct (0 <=? limit); apply prefix_take.
  - apply Hlen.
  - unfold get_recent. apply Nat2Z.inj. rewrite !Hlen.
    by rewrite <- (Permutation_length (sort_by_field_perm items field true)).
Qed.

Lemma insert_sorted_last {A : Type} (key : A -> value) (x : A) (l : list A) :
  Forall (fun y => py_lt (key x) (key y) = Some false) l ->
  insert_sorted key x l = Some (l ++ [x]).
Proof.
  induction 1 as [|y l Hy _ IH]; simpl; [done|]. by rewrite Hy, IH.
Qed.

Lemma insertion_sort_ascending {A : Type} (key : A -> value) (l : list A) :
  forall done,
    ascending key (done ++ l) -> insertion_sort key done l = Some (done ++ l).
Proof.
  induction l as [|x l IH]; intros done Hasc; simpl.
  - by rewrite app_nil_r.
  - rewrite insert_sorted_last.
    + rewrite IH; rewrite <- app_assoc; done.
    + apply Forall_forall. intros y Hy.
      apply (StronglySorted_app_1_elem_of _ done (x :: l) y x Hasc Hy).
      apply elem_of_cons. by left.
Qed.

Lemma py_sorted_ordered {A : Type} (key : A -> value) (rev : bool) (l : list A) :
  (if rev then descending key l else ascending key l) ->
  py_sorted key rev l = Some l.
Proof.
  unfold py_sorted. destruct rev; intros Hl.
  - rewrite (insertion_sort_ascending key (reverse l) []).
    + simpl. by rewrite reverse_involutive.
    + simpl. unfold ascending. by apply (StronglySorted_reverse _ _ Hl).
  - by apply (insertion_sort_ascending key l []).
Qed.

(** X13: [sort_by_field] returns a list that is already in the order
    asked for as it is, and sorting a second time changes nothing when
    the keys are all numbers or all strings. *)
Theorem sort_by_field_fixed (items : list record) (field : pystr) :
  (ascending (sort_key field) items -> sort_by_field items field false = items) /\
  (descending (sort_key field) items -> sort_by_field items field true = items) /\
  (one_kind (sort_key field) items ->
   forall rev,
     sort_by_field (sort_by_field items field rev) field rev
     = sort_by_field items field rev).
Proof.
  split; [|split].
  - intros Hasc. unfold sort_by_field.
    by rewrite (py_sorted_ordered (sort_key field) false items).
  - intros Hdesc. unfold sort_by_field.
    by rewrite (py_sorted_ordered (sort_key field) true items).
  - intros Hkind rev.
    assert (exists r, py_sorted (sort_key field) rev items = Some r /\
                      (if rev then descending (sort_key field) r
                       else ascending (sort_key field) r)) as (r & Hr & Hord).
    { destruct (py_sorted_one_kind (sort_key field) rev items) as [Hnum Hstr].
      destruct Hkind as [Hk|Hk].
      - destruct (Hnum Hk) as (r & ? & _ & ? & _). by exists r.
      - destruct (Hstr Hk) as (r & ? & _ & ? & _). by exists r. }
    unfold sort_by_field. rewrite Hr.
    by rewrite (py_sorted_ordered (sort_key field) rev r).
Qed.

Lemma sort_by_field_fixed_witness :
  sort_by_field
    (sort_by_field [[(lit "t", PInt 2)]; [(lit "t", PInt 1)]] (lit "t") false)
    (lit "t") false
  = sort_by_field [[(lit "t", PInt 2)]; [(lit "t", PInt 1)]] (lit "t") false.
Proof.
  apply (proj2 (proj2 (sort_by_field_fixed
                         [[(lit "t", PInt 2)]; [(lit "t", PInt 1)]] (lit "t")))).
  left. repeat constructor.
Defined.

Lemma str_contains_empty (hay : pystr) : str_contains [] hay = true.
Proof. by destruct hay. Qed.

(** X14: an empty search term is in every text, so [search_text] with
    the empty term keeps the records that have something to scan: one of
    the listed fields when a non-empty field list is given, a field whose
    value is a string otherwise. *)
Theorem search_text_empty_term (isprintable : Z -> bool) (lower : pystr -> pystr)
    (items : list record) (fields : option (list pystr)) :
  lower [] = [] ->
  search_text isprintable lower items [] fields
  = List.filter
      (fun item =>
         if truthy_fields fields
         then existsb (fun field => match dict_get item field with
                                    | Some _ => true
                                    | None => false
                                    end) (default [] fields)
         else existsb (fun kv => match snd kv with
                                 | PStr _ => true
                                 | _ => false
                                 end) item)
      items.
Proof.
  intros Hlower. rewrite search_text_filter. apply List.filter_ext. intros item.
  unfold spec_field_match, spec_string_match. rewrite Hlower.
  destruct (truthy_fields fields).
  - induction (default [] fields) as [|f fs IH]; [done|]. simpl. rewrite IH.
    destruct (dict_get item f); [|done]. by rewrite str_contains_empty.
  - induction item as [|[k v] item IH]; [done|]. simpl. rewrite IH.
    destruct v; try done. by rewrite str_contains_empty.
Qed.

Lemma search_text_empty_term_witness :
  search_text (fun _ => true) ascii_lower
    [[(lit "n", PInt 1)]; [(lit "s", PStr (lit "Ada"))]] [] None
  = [[(lit "s", PStr (lit "Ada"))]].
Proof.
  apply (search_text_empty_term (fun _ => true) ascii_lower
           [[(lit "n", PInt 1)]; [(lit "s", PStr (lit "Ada"))]] None).
  reflexivity.
Defined.

(** ** Codec: the shape of the encoded text *)

Lemma uint_codes_ascii (d : Decimal.uint) :
  Forall (fun c => 32 <= c <= 126) (uint_codes d).
Proof. induction d; simpl; constructor; (lia || done). Qed.

Lemma int_repr_ascii (n : Z) : Forall (fun c => 32 <= c <= 126) (int_repr n).
Proof.
  unfold int_repr. destruct (Z.to_int n).
  - apply uint_codes_ascii.
  - constructor; [lia|apply uint_codes_ascii].
Qed.

Lemma hex_digits_ascii (width : nat) (c : Z) :
  Forall (fun c => 32 <= c <= 126) (hex_digits width c).
Proof.
  induction width as [|w IH]; simpl; constructor; [|exact IH].
  change 15 with (Z.ones 4). rewrite Z.land_ones by lia.
  pose proof (Z.mod_pos_bound (c ≫ (4 * Z.of_nat w)) (2 ^ 4) ltac:(lia)) as Hb.
  unfold hexdigit. destruct (_ <? 10); lia.
Qed.

Lemma escape_char_ascii (c : Z) : Forall (fun c => 32 <= c <= 126) (escape_char c).
Proof.
  unfold escape_char.
  repeat (match goal with |- context [if ?b then _ else _] =>
            destruct b eqn:? end;
          [repeat constructor; lia|]).
  destruct ((32 <=? c) && (c <=? 126)) eqn:Hp.
  - apply andb_true_iff in Hp as [?%Z.leb_le ?%Z.leb_le]. repeat constructor; lia.
  - destruct (c <? 65536).
    + constructor; [lia|]. constructor; [lia|]. apply hex_digits_ascii.
    + cbv zeta. apply Forall_app. split.
      * constructor; [lia|]. constructor; [lia|]. apply hex_digits_ascii.
      * constructor; [lia|]. constructor; [lia|]. apply hex_digits_ascii.
Qed.

Lemma encode_basestring_ascii_ascii (s : pystr) :
  Forall (fun c => 32 <= c <= 126) (encode_basestring_ascii s).
Proof.
  unfold encode_basestring_ascii. constructor; [lia|].
  apply Forall_app. split; [|repeat constructor; lia].
  induction s as [|c s IH]; simpl; [constructor|].
  apply Forall_app. split; [apply escape_char_ascii|exact IH].
Qed.

Lemma join_with_ascii (parts : list pystr) :
  Forall (Forall (fun c => 32 <= c <= 126)) parts ->
  Forall (fun c => 32 <= c <= 126) (join_with (lit ", ") parts).
Proof.
  induction 1 as [|p ps Hp Hps IH]; [constructor|].
  destruct ps as [|q ps]; [exact Hp|].
  rewrite join_with_more. apply Forall_app. split; [exact Hp|].
  apply Forall_app. split; [|exact IH].
  change (lit ", ") with [44; 32]. repeat constructor; lia.
Qed.

Lemma dumps_ascii (v : value) : Forall (fun c => 32 <= c <= 126) (dumps v).
Proof.
  induction v as [|b|n|s|l IH|d IH] using value_ind_nested.
  - change (dumps PNone) with [110; 117; 108; 108]. repeat constructor; lia.
  - destruct b.
    + change (dumps (PBool true)) with [116; 114; 117; 101]. repeat constructor; lia.
    + change (dumps (PBool false)) with [102; 97; 108; 115; 101].
      repeat constructor; lia.
  - apply int_repr_ascii.
  - apply encode_basestring_ascii_ascii.
  - cbn [dumps]. constructor; [lia|]. apply Forall_app.
    split; [|repeat constructor; lia].
    apply join_with_ascii. induction IH as [|x l Hx _ IHl]; simpl; by constructor.
  - cbn [dumps]. constructor; [lia|]. apply Forall_app.
    split; [|repeat constructor; lia].
    apply join_with_ascii.
    induction IH as [|[k x] d Hx _ IHd]; cbn [List.map fst snd] in *; constructor.
    + apply Forall_app. split; [apply encode_basestring_ascii_ascii|].
      apply Forall_app. split; [|exact Hx].
      change (lit ": ") with [58; 32]. repeat constructor; lia.
    + exact IHd.
Qed.

(** X15: the text [serialize_data] writes is printable ASCII on one
    line: every character of it is between U+0020 and U+007E, whatever
    code points the record's strings hold. *)
Theorem serialize_data_ascii (data : record) :
  Forall (fun c => 32 <= c <= 126) (serialize_data data).
Proof. apply dumps_ascii. Qed.

(** X16: records the codec restores have encodings of their own: two of
    them with the same encoded text are the same record, field order
    included. *)
Theorem serialize_data_injective (r r' : record) :
  wf_value (PDict r) = true -> no_surrogate_pairs (PDict r) = true ->
  wf_value (PDict r') = true -> no_surrogate_pairs (PDict r') = true ->
  serialize_data r = serialize_data r' -> r = r'.
Proof.
  intros Hwf Hplain Hwf' Hplain' Heq.
  pose proof (loads_dumps (PDict r) Hwf Hplain) as Hr.
  pose proof (loads_dumps (PDict r') Hwf' Hplain') as Hr'.
  unfold serialize_data in Heq. rewrite Heq in Hr. congruence.
Qed.

Lemma serialize_data_injective_witness :
  [(lit "a", PList [PInt 1; PNone])] = [(lit "a", PList [PInt 1; PNone])].
Proof.
  apply (serialize_data_injective [(lit "a", PList [PInt 1; PNone])]
           [(lit "a", PList [PInt 1; PNone])]);
    reflexivity.
Defined.

(** ** Memory types: the metadata added by [store] *)



Lemma dict_set_absent (d : record) (k : pystr) (v : value) :
  dict_get d k = None -> dict_set d k v = d ++ [(k, v)].
Proof.
  induction d as [|[k' v'] d IH]; simpl; [done|].
  destruct (bool_decide (k' = k)); [done|]. intros H. by rewrite IH.
Qed.

Lemma dict_get_absent (d : record) (k : pystr) :
  dict_get d k = None <-> k ∉ (fst <$> d).
Proof.
  induction d as [|[k' v'] d IH]; simpl.
  - split; [intros _; apply not_elem_of_nil|done].
  - rewrite not_elem_of_cons. destruct (bool_decide (k' = k)) eqn:Hk.
    + apply bool_decide_eq_true in Hk. split; [done|]. intros [H _]. by destruct H.
    + apply bool_decide_eq_false in Hk. rewrite IH. split; [|tauto].
      intros H. split; [congruence|done].
Qed.









Lemma wf_set_default (d : record) (k : pystr) (v : value) :
  wf_value (PDict d) = true -> forallb valid_codepoint k = true ->
  wf_value v = true -> wf_value (PDict (set_default d k v)) = true.
Proof.
  intros Hd Hk Hv. unfold set_default.
  destruct (dict_get d k) eqn:Hget; [done|].
  rewrite dict_set_absent by done. cbn [wf_value] in *.
  apply andb_true_iff in Hd as [Hnodup Hall].
  apply bool_decide_eq_true in Hnodup. apply andb_true_iff. split.
  - apply bool_decide_eq_true. rewrite fmap_app. apply NoDup_app.
    split; [done|]. split; [|apply NoDup_singleton].
    intros x Hx Hin. apply list_elem_of_singleton in Hin. simpl in Hin. subst x.
    by apply dict_get_absent in Hget.
  - rewrite forallb_app. apply andb_true_iff. split; [exact Hall|].
    simpl. by rewrite Hk, Hv.
Qed.

Lemma plain_set_default (d : record) (k : pystr) (v : value) :
  no_surrogate_pairs (PDict d) = true -> has_surrogate_pair k = false ->
  no_surrogate_pairs v = true ->
  no_surrogate_pairs (PDict (set_default d k v)) = true.
Proof.
  intros Hd Hk Hv. unfold set_default.
  destruct (dict_get d k) eqn:Hget; [done|].
  rewrite dict_set_absent by done. cbn [no_surrogate_pairs] in *.
  rewrite forallb_app. apply andb_true_iff. split; [exact Hd|].
  simpl. by rewrite Hk, Hv.
Qed.

Lemma add_metadata_restorable (c : memory_class) (key stamp : pystr)
    (data : record) :
  wf_value (PDict data) = true -> no_surrogate_pairs (PDict data) = true ->
  wf_value (PStr stamp) = true -> no_surrogate_pairs (PStr stamp) = true ->
  wf_value (PStr key) = true -> no_surrogate_pairs (PStr key) = true ->
  wf_value (PDict (add_metadata c key stamp data)) = true /\
  no_surrogate_pairs (PDict (add_metadata c key stamp data)) = true.
Proof.
  intros Hwf Hplain Hs Hs' Hk Hk'. unfold add_metadata.
  destruct c; cbv zeta; split;
    repeat first [ apply wf_set_default | apply plain_set_default ];
    done.
Qed.

(** X18: on an open storage, [store] of a memory object succeeds, the
    dict the caller passed is afterwards the dict with the metadata, and
    [retrieve] of the key returns that same dict, for every record, clock
    text and key the codec restores. *)
Theorem mem_store_then_retrieve (now : Z) (stamp : pystr) (self : Memory)
    (storage : SQLiteStorage) (key : pystr) (data : record) :
  conn_closed storage = false ->
  wf_value (PDict data) = true -> no_surrogate_pairs (PDict data) = true ->
  wf_value (PStr stamp) = true -> no_surrogate_pairs (PStr stamp) = true ->
  wf_value (PStr key) = true -> no_surrogate_pairs (PStr key) = true ->
  let after := mem_store now stamp self storage key data in
  fst (fst after) = Return tt /\
  snd after = add_metadata (mem_class self) key stamp data /\
  mem_retrieve self (snd (fst after)) key = Return (PDict (snd after)).
Proof.
  intros Hopen Hwf Hplain Hs Hs' Hk Hk' after. subst after.
  destruct (add_metadata_restorable (mem_class self) key stamp data)
    as [Hwf' Hplain']; try done.
  unfold mem_store, mem_retrieve. cbn [fst snd].
  split; [|split; [done|]].
  - unfold store, cursor. by rewrite Hopen.
  - unfold store, retrieve, cursor. rewrite Hopen. cbn [snd conn_closed].
    rewrite ?Hopen. cbn [mbind result_bind db memory_data].
    destruct (find_upsert_same now (mem_id self) key
                (serialize_data (add_metadata (mem_class self) key stamp data))
                (next_rowid (db storage)) (memory_data (db storage)))
      as (row & -> & Hdata).
    unfold decode_row, deserialize_data. rewrite Hdata.
    unfold serialize_data. by rewrite loads_dumps.
Qed.

Lemma mem_store_then_retrieve_witness :
  mem_retrieve {| mem_class := LongTermMemory; mem_id := lit "long_term" |}
    (snd (fst (mem_store 100 (lit "2024-01-01T00:00:00")
                 {| mem_class := LongTermMemory; mem_id := lit "long_term" |}
                 new_storage (lit "fact_1") [(lit "content", PStr (lit "sky"))])))
    (lit "fact_1")
  = Return (PDict [(lit "content", PStr (lit "sky"));
                   (lit "timestamp", PStr (lit "2024-01-01T00:00:00"));
                   (lit "memory_type", PStr (lit "long_term"));
                   (lit "category", PStr (lit "general"))]).
Proof.
  apply (proj2 (proj2 (mem_store_then_retrieve 100 (lit "2024-01-01T00:00:00")
                         {| mem_class := LongTermMemory; mem_id := lit "long_term" |}
                         new_storage (lit "fact_1")
                         [(lit "content", PStr (lit "sky"))]
                         eq_refl eq_refl eq_refl eq_refl eq_refl eq_refl eq_refl))).
Defined.

(** ** Memory types: queries over the records of a namespace *)

Lemma find_row_unique (rows : list data_row) (row : data_row) :
  NoDup ((fun row => (d_memory_id row, d_key row)) <$> rows) ->
  row ∈ rows ->
  List.find (row_is (d_memory_id row) (d_key row)) rows = Some row.
Proof.
  induction rows as [|r rows IH]; [by intros _ ?%elem_of_nil|].
  rewrite fmap_cons. intros [Hr Hrows]%NoDup_cons Hin. cbn [List.find].
  destruct (row_is (d_memory_id row) (d_key row) r) eqn:Hhit.
  - apply row_is_true in Hhit as [Hm Hk].
    apply elem_of_cons in Hin as [->|Hin]; [done|].
    destruct Hr. apply list_elem_of_fmap. exists row. split; [|done].
    by rewrite Hm, Hk.
  - apply elem_of_cons in Hin as [->|Hin]; [|by apply IH].
    assert (row_is (d_memory_id r) (d_key r) r = true) by by apply row_is_true.
    congruence.
Qed.

Lemma Forall2_with_left {A B : Type} (P : A -> B -> Prop) (Q : A -> Prop)
    (l : list A) (k : list B) :
  Forall2 P l k -> Forall Q l -> Forall2 (fun a b => Q a /\ P a b) l k.
Proof.
  induction 1 as [|a b l k Hab _ IH]; [constructor|].
  intros [Ha Hl]%Forall_cons. constructor; [done|by apply IH].
Qed.

Lemma comprehension_as_dict (records : list record) :
  comprehension as_dict (PDict <$> records) = Ok records.
Proof.
  induction records as [|r records IH]; [done|].
  rewrite fmap_cons. cbn [comprehension as_dict mbind result_bind].
  by rewrite IH.
Qed.

Lemma sort_objects_records (records : list record) (field : pystr) (rev : bool) :
  sort_objects (PDict <$> records) field rev
  = Ok (PDict <$> sort_by_field records field rev).
Proof. unfold sort_objects. by rewrite comprehension_as_dict. Qed.

(** Reading a namespace back key by key: the records, less the empty
    ones, which are false. *)
Lemma retrieve_each_records (self : Memory) (storage : SQLiteStorage)
    (rows : list data_row) (records : list record) :
  conn_closed storage = false ->
  Forall2 (fun row r =>
             List.find (row_is (mem_id self) (d_key row)) (memory_data (db storage))
             = Some row /\
             decode_row row = Ok (PDict r)) rows records ->
  retrieve_each self storage (d_key <$> rows)
  = Return (PDict <$> List.filter (fun r => truthy (PDict r)) records).
Proof.
  intros Hopen. induction 1 as [|row r rows records [Hfind Hrow] _ IH]; [done|].
  rewrite fmap_cons. cbn [retrieve_each]. rewrite IH.
  assert (mem_retrieve self storage (d_key row) = Return (PDict r)) as ->.
  { unfold mem_retrieve, retrieve, cursor. rewrite Hopen.
    cbn [mbind result_bind]. rewrite Hfind, Hrow. done. }
  cbn [mbind outcome_bind List.filter].
  destruct (truthy (PDict r)); done.
Qed.

Section MemoryQueries.
Variable isprintable : Z -> bool.
Variable lower : pystr -> pystr.

Lemma search_objects_records (records : list record) (term : pystr) :
  search_objects isprintable lower (PDict <$> records) term
  = Ok (PDict <$> search_text isprintable lower records term None).
Proof. unfold search_objects. by rewrite comprehension_as_dict. Qed.

Lemma scan_fields_object_dict (term_lower : pystr) (d : record)
    (fields : list pystr) :
  scan_fields_object isprintable lower term_lower (PDict d) fields
  = Return (scan_fields isprintable lower term_lower d fields).
Proof.
  induction fields as [|f fields IH]; [done|].
  cbn [scan_fields_object scan_fields].
  destruct (dict_get d f) as [v|]; [|exact IH].
  destruct (str_contains _ _); [done|exact IH].
Qed.

Lemma search_fields_objects_records (records : list record) (term : pystr)
    (f : pystr) (fields : list pystr) :
  search_fields_objects isprintable lower (PDict <$> records) term (f :: fields)
  = Return (PDict <$> search_text isprintable lower records term
                        (Some (f :: fields))).
Proof.
  unfold search_fields_objects, search_text. cbn [truthy_fields default].
  rewrite (foldl_append_filter
             (fun item => scan_fields isprintable lower (lower term) item
                            (f :: fields))).
  rewrite app_nil_l.
  induction records as [|r records IH]; [done|].
  rewrite fmap_cons. cbn [search_fields_loop].
  rewrite scan_fields_object_dict, IH. cbn [mbind outcome_bind List.filter].
  by destruct (scan_fields _ _ _ r _).
Qed.

End MemoryQueries.

Lemma all_data_records (self : Memory) (storage : SQLiteStorage)
    (records : list record) :
  conn_closed storage = false ->
  db_ok (db storage) ->
  in_creation_order (db storage) (mem_id self) ->
  holds_records (db storage) (mem_id self) records ->
  all_data self storage
  = Return (PDict <$> List.filter (fun r => truthy (PDict r)) records).
Proof.
  intros Hopen (Hpairs & _) Horder Hrows. unfold all_data, list_keys, cursor.
  rewrite Hopen. cbn [mbind result_bind of_result outcome_bind].
  unfold order_by_created_at.
  rewrite (order_from_ordered _ []) by exact Horder. rewrite app_nil_l.
  apply retrieve_each_records; [done|].
  unfold holds_records in Hrows.
  eapply Forall2_impl.
  - apply (Forall2_with_left _
             (fun row => row ∈ memory_data (db storage) /\
                         d_memory_id row = mem_id self) _ _ Hrows).
    apply Forall_forall. intros row Hin.
    apply list_elem_of_In, List.filter_In in Hin as [Hin Hns].
    split; [by apply list_elem_of_In|]. by apply bool_decide_eq_true in Hns.
  - intros row r [[Hin Hns] (Hdata & Hwf & Hplain)]. split.
    + rewrite <- Hns. by apply find_row_unique.
    + apply decode_row_some. rewrite Hdata.
      unfold deserialize_data, serialize_data. by apply loads_dumps.
Qed.

(** X19: over a namespace that holds the records [records], [query] of
    a memory object is the retriever's pipeline on them: the records that
    are not empty, filtered by the keyword filters, searched for the
    query text when there is one (SemanticMemory in [title], [content]
    and [tags], the others in every str field), and for ShortTermMemory
    and EpisodicMemory sorted by [timestamp], newest first. *)
Theorem mem_query_pipeline (isprintable : Z -> bool) (lower : pystr -> pystr)
    (self : Memory) (storage : SQLiteStorage) (records : list record)
    (query : pystr) (kwargs : record) :
  conn_closed storage = false ->
  db_ok (db storage) ->
  in_creation_order (db storage) (mem_id self) ->
  holds_records (db storage) (mem_id self) records ->
  let stored := List.filter (fun r => truthy (PDict r)) records in
  let filtered := filter_by_multiple stored kwargs in
  let found :=
    match query with
    | [] => filtered
    | _ :: _ =>
        search_text isprintable lower filtered query
          match mem_class self with
          | SemanticMemory => Some [lit "title"; lit "content"; lit "tags"]
          | _ => None
          end
    end in
  mem_query isprintable lower self storage query kwargs
  = Return (PDict <$> match mem_class self with
                      | ShortTermMemory | EpisodicMemory =>
                          sort_by_field found (lit "timestamp") true
                      | LongTermMemory | SemanticMemory => found
                      end).
Proof.
  intros Hopen Hok Horder Hrows. cbv zeta. unfold mem_query.
  rewrite (all_data_records self storage records) by done.
  cbn [mbind outcome_bind].
  set (stored := List.filter (fun r => truthy (PDict r)) records).
  assert (match kwargs with
          | [] => Return (PDict <$> stored)
          | _ :: _ => of_result (apply_filters kwargs (PDict <$> stored))
          end = Return (PDict <$> filter_by_multiple stored kwargs)) as ->.
  { destruct kwargs; [done|]. by rewrite apply_filters_records. }
  cbn [mbind outcome_bind].
  set (filtered := filter_by_multiple stored kwargs).
  destruct query as [|c query].
  - cbn [mbind outcome_bind].
    destruct (mem_class self); by rewrite ?sort_objects_records.
  - destruct (mem_class self);
      rewrite ?search_objects_records, ?search_fields_objects_records;
      cbn [of_result mbind outcome_bind];
      by rewrite ?sort_objects_records.
Qed.

Lemma mem_query_pipeline_witness :
  mem_query (fun _ => true) ascii_lower
    {| mem_class := ShortTermMemory; mem_id := lit "short_term" |}
    (snd (store 100 new_storage (lit "short_term") (lit "a")
            [(lit "role", PStr (lit "user"))]))
    [] [(lit "role", PStr (lit "user"))]
  = Return [PDict [(lit "role", PStr (lit "user"))]].
Proof.
  apply (mem_query_pipeline (fun _ => true) ascii_lower
           {| mem_class := ShortTermMemory; mem_id := lit "short_term" |}
           (snd (store 100 new_storage (lit "short_term") (lit "a")
                   [(lit "role", PStr (lit "user"))]))
           [[(lit "role", PStr (lit "user"))]]
           [] [(lit "role", PStr (lit "user"))] eq_refl).
  - apply store_db_ok, new_storage_db_ok.
  - unfold in_creation_order. cbn [mem_id].
    set (rows := List.filter _ _). vm_compute in rows. subst rows.
    repeat constructor.
  - unfold holds_records. cbn [mem_id].
    set (rows := List.filter _ _). vm_compute in rows. subst rows.
    repeat constructor.
Defined.

(** X20: [MemoryManager.get_recent] answers alike for the four types,
    by the method of ShortTermMemory or by the fallback: the records of
    the namespace that are not empty, sorted by [timestamp] newest
    first, cut at the limit, as [SimpleRetriever.get_recent] gives
    them. *)
Theorem mgr_get_recent_uniform (storage : SQLiteStorage) (memory_type : pystr)
    (memory : Memory) (records : list record) (limit : Z) :
  memory_of memory_type = Some memory ->
  conn_closed storage = false ->
  db_ok (db storage) ->
  in_creation_order (db storage) (mem_id memory) ->
  holds_records (db storage) (mem_id memory) records ->
  mgr_get_recent storage memory_type limit
  = Return (PDict <$> get_recent (List.filter (fun r => truthy (PDict r)) records)
                        (lit "timestamp") limit).
Proof.
  intros Hknown Hopen Hok Horder Hrows. unfold mgr_get_recent. rewrite Hknown.
  assert (forall l : list record,
             slice_to (PDict <$> l) limit = PDict <$> limit_results l limit) as Hcut.
  { intros l. unfold slice_to, limit_results. rewrite length_fmap.
    destruct (0 <=? limit); by rewrite fmap_take. }
  unfold mem_get_recent, get_recent_objects, get_recent.
  destruct (mem_class memory);
    rewrite (all_data_records memory storage records) by done;
    cbn [mbind outcome_bind]; rewrite sort_objects_records;
    cbn [of_result mbind result_bind outcome_bind]; by rewrite Hcut.
Qed.

Lemma mgr_get_recent_uniform_witness :
  mgr_get_recent
    (snd (store 100 new_storage (lit "long_term") (lit "a")
            [(lit "timestamp", PStr (lit "2024"))]))
    (lit "long_term") 5
  = Return [PDict [(lit "timestamp", PStr (lit "2024"))]].
Proof.
  apply (mgr_get_recent_uniform
           (snd (store 100 new_storage (lit "long_term") (lit "a")
                   [(lit "timestamp", PStr (lit "2024"))]))
           (lit "long_term")
           {| mem_class := LongTermMemory; mem_id := lit "long_term" |}
           [[(lit "timestamp", PStr (lit "2024"))]] 5 eq_refl eq_refl).
  - apply store_db_ok, new_storage_db_ok.
  - unfold in_creation_order. cbn [mem_id].
    set (rows := List.filter _ _). vm_compute in rows. subst rows.
    repeat constructor.
  - unfold holds_records. cbn [mem_id].
    set (rows := List.filter _ _). vm_compute in rows. subst rows.
    repeat constructor.
Defined.

(** ** MemoryManager: what it refuses *)

Lemma search_loop_unknown (isprintable : Z -> bool) (lower : pystr -> pystr)
    (storage : SQLiteStorage) (query : pystr) (limit : Z) (types : list pystr) :
  Forall (fun t => memory_of t = None) types ->
  forall results,
    search_loop isprintable lower storage query types limit results
    = Return results.
Proof.
  induction 1 as [|t types Ht _ IH]; intros results; [done|].
  cbn [search_loop]. rewrite Ht. apply IH.
Qed.

(** X21: a memory type that is not one of the manager's four makes
    [store], [retrieve], [query], [get_recent], [delete] and [clear]
    raise ValueError before the storage is touched (so also on a closed
    storage, and leaving it as it was), while [search] passes over such
    names without a word: asked for unknown types only, it returns the
    empty dict. For a type the manager has, [query] raises TypeError when
    a filter is named [query]: that name is taken by the parameter of
    the memory's method that receives the search text. *)
Theorem mgr_unknown_type (isprintable : Z -> bool) (lower : pystr -> pystr)
    (now : Z) (stamp : pystr) (storage : SQLiteStorage) (memory_type : pystr)
    (data : store_data) (key : option pystr) (k query : pystr)
    (search_query : option pystr) (filters : record) (limit : Z)
    (types : list pystr) :
  memory_of memory_type = None ->
  mgr_store now stamp storage memory_type data key = (Fail ValueError, storage) /\
  mgr_retrieve storage memory_type k = Fail ValueError /\
  mgr_query isprintable lower storage memory_type search_query filters
  = Fail ValueError /\
  mgr_get_recent storage memory_type limit = Fail ValueError /\
  mgr_delete storage memory_type k = (Fail ValueError, storage) /\
  mgr_clear storage memory_type = (Fail ValueError, storage) /\
  (Forall (fun t => memory_of t = None) types ->
   mgr_search isprintable lower storage query (Some types) limit = Return []) /\
  (forall known, is_Some (memory_of known) ->
     is_Some (dict_get filters (lit "query")) ->
     mgr_query isprintable lower storage known search_query filters
     = Fail TypeError).
Proof.
  intros Hunknown.
  unfold mgr_store, mgr_retrieve, mgr_query, mgr_get_recent, mgr_delete, mgr_clear.
  rewrite Hunknown. repeat split.
  - intros Htypes. unfold mgr_search. by apply search_loop_unknown.
  - intros known [memory ->] [v ->]. done.
Qed.

Lemma mgr_unknown_type_witness :
  mgr_query (fun _ => true) ascii_lower new_storage (lit "conversation") None []
  = Fail ValueError /\
  mgr_search (fun _ => true) ascii_lower new_storage (lit "hi")
    (Some [lit "conversation"; lit "facts"]) 10
  = Return [].
Proof.
  pose proof (mgr_unknown_type (fun _ => true) ascii_lower 0 [] new_storage
                (lit "conversation") (Text []) None [] (lit "hi") None [] 10
                [lit "conversation"; lit "facts"] eq_refl)
    as (_ & _ & Hquery & _ & _ & _ & Hsearch & _).
  split; [exact Hquery|]. apply Hsearch. repeat constructor.
Defined.

(** ** MemoryManager: the keys it makes up *)





(** ** The order of the table *)

Lemma StronglySorted_filter {A : Type} (R : A -> A -> Prop) (p : A -> bool)
    (l : list A) :
  StronglySorted R l -> StronglySorted R (List.filter p l).
Proof.
  induction 1 as [|x l _ IH Hx]; simpl; [constructor|].
  destruct (p x); [|exact IH]. constructor; [exact IH|].
  by apply filter_keeps_Forall.
Qed.

Lemma StronglySorted_fmap_created (g : data_row -> data_row) (l : list data_row) :
  (forall r, d_created_at (g r) = d_created_at r) ->
  StronglySorted (fun a b => d_created_at a <= d_created_at b) l ->
  StronglySorted (fun a b => d_created_at a <= d_created_at b) (g <$> l).
Proof.
  intros Hg. induction 1 as [|x l _ IH Hx]; [constructor|].
  rewrite fmap_cons. constructor; [exact IH|].
  apply Forall_fmap. eapply Forall_impl; [exact Hx|].
  intros r Hr. simpl. by rewrite !Hg.
Qed.

Lemma list_filter_comm {A : Type} (p q : A -> bool) (l : list A) :
  List.filter p (List.filter q l) = List.filter q (List.filter p l).
Proof.
  rewrite !list_filter_filter. apply List.filter_ext. intros x. apply andb_comm.
Qed.

(** X23: the rows of a namespace stand in the table in creation order
    from the start, and stay so: under [delete] and [delete_memory]
    always, and under [store] whenever the clock has not gone back
    behind the creation time of a row of the namespace. (A store into
    another namespace, or under a key the namespace has, needs no
    clock at all.) *)
Theorem creation_order_kept (now : Z) (storage : SQLiteStorage)
    (memory_id target key : pystr) (data : record) :
  in_creation_order (db new_storage) memory_id /\
  (in_creation_order (db storage) memory_id ->
   (Forall (fun row => d_created_at row <= now)
      (List.filter (row_in memory_id) (memory_data (db storage))) ->
    in_creation_order (db (snd (store now storage target key data))) memory_id) /\
   (target <> memory_id \/
    existsb (row_is target key) (memory_data (db storage)) = true ->
    in_creation_order (db (snd (store now storage target key data))) memory_id) /\
   in_creation_order (db (snd (delete storage target key))) memory_id /\
   in_creation_order (db (snd (delete_memory storage target))) memory_id).
Proof.
  split; [constructor|]. unfold in_creation_order. intros Horder.
  assert (forall g : data_row -> data_row,
             (forall r, d_created_at (g r) = d_created_at r) ->
             (forall r, row_in memory_id (g r) = row_in memory_id r) ->
             StronglySorted (fun a b => d_created_at a <= d_created_at b)
               (List.filter (row_in memory_id) (g <$> memory_data (db storage))))
    as Hupdate.
  { intros g Hcreated Hns. rewrite filter_fmap_kept by done.
    by apply StronglySorted_fmap_created. }
  split; [|split; [|split]].
  - intros Hclock. unfold store, cursor.
    destruct (conn_closed storage); [done|]. cbn [snd db memory_data].
    unfold upsert. destruct (existsb _ _).
    + apply Hupdate; intros r; by destruct (row_is target key r).
    + rewrite List.filter_app. apply StronglySorted_app_2; [|done|].
      * intros a b Ha Hb. simpl in Hb. destruct (row_in memory_id _); [|by apply elem_of_nil in Hb].
        apply list_elem_of_singleton in Hb. subst b. simpl.
        rewrite Forall_forall in Hclock. by apply Hclock.
      * simpl. destruct (row_in memory_id _); repeat constructor.
  - intros Hcase. unfold store, cursor.
    destruct (conn_closed storage); [done|]. cbn [snd db memory_data].
    unfold upsert. destruct (existsb _ _) eqn:Hex.
    + apply Hupdate; intros r; by destruct (row_is target key r).
    + destruct Hcase as [Hne|?]; [|done].
      rewrite List.filter_app. simpl.
      assert (row_in memory_id
                {| d_id := next_rowid (db storage); d_memory_id := target;
                   d_key := key; d_data := serialize_data data;
                   d_created_at := now; d_updated_at := now |} = false) as ->
        by (by apply bool_decide_eq_false).
      by rewrite app_nil_r.
  - unfold delete, cursor. destruct (conn_closed storage); [done|].
    cbn [snd db memory_data]. rewrite list_filter_comm.
    by apply StronglySorted_filter.
  - unfold delete_memory, cursor. destruct (conn_closed storage); [done|].
    cbn [snd db memory_data]. rewrite list_filter_comm.
    by apply StronglySorted_filter.
Qed.

Lemma creation_order_kept_witness :
  in_creation_order
    (db (snd (store 200
                (snd (store 100 new_storage (lit "x") (lit "a") [(lit "v", PInt 1)]))
                (lit "x") (lit "b") [(lit "v", PInt 2)])))
    (lit "x").
Proof.
  apply (proj1 (proj2 (creation_order_kept 200
                         (snd (store 100 new_storage (lit "x") (lit "a")
                                 [(lit "v", PInt 1)]))
                         (lit "x") (lit "x") (lit "b") [(lit "v", PInt 2)])
                  ltac:(unfold in_creation_order; repeat constructor))).
  repeat constructor. simpl. lia.
Defined.

(** ** EpisodicMemory and SemanticMemory: the two special searches *)

Lemma date_range_loop_strings (start_date end_date : pystr)
    (records : list record) :
  Forall (fun r => is_string (sort_key (lit "timestamp") r)) records ->
  date_range_loop start_date end_date (PDict <$> records)
  = Return (PDict <$>
              List.filter
                (fun r =>
                   negb (str_ltb (string_rank (sort_key (lit "timestamp") r))
                           start_date)
                   && negb (str_ltb end_date
                              (string_rank (sort_key (lit "timestamp") r))))
                records).
Proof.
  induction 1 as [|r records Hr _ IH]; [done|].
  rewrite fmap_cons. cbn [date_range_loop in_date_range List.filter].
  rewrite IH. destruct (sort_key (lit "timestamp") r) as [| | |t| |]; try done.
  cbn [string_rank mbind outcome_bind].
  by destruct (str_ltb t start_date), (str_ltb end_date t).
Qed.

Lemma date_range_loop_other (start_date end_date : pystr)
    (records : list record) :
  Exists (fun r => ~ is_string (sort_key (lit "timestamp") r)) records ->
  date_range_loop start_date end_date (PDict <$> records) = Fail TypeError.
Proof.
  induction 1 as [r records Hr|r records _ IH];
    rewrite fmap_cons; cbn [date_range_loop in_date_range].
  - destruct (sort_key (lit "timestamp") r); try done; by destruct Hr.
  - rewrite IH. by destruct (sort_key (lit "timestamp") r).
Qed.

(** X24: [get_by_date_range] over a namespace that holds [records]:
    when the timestamp of every record that is not empty is a str (a
    missing one counts as the empty str), the result is the records with
    start_date <= timestamp <= end_date as strs, newest first, and
    nothing at all when end_date is before start_date; when one of them
    has a timestamp of another kind the call raises TypeError. *)
Theorem get_by_date_range_records (self : Memory) (storage : SQLiteStorage)
    (records : list record) (start_date end_date : pystr) :
  conn_closed storage = false ->
  db_ok (db storage) ->
  in_creation_order (db storage) (mem_id self) ->
  holds_records (db storage) (mem_id self) records ->
  let stored := List.filter (fun r => truthy (PDict r)) records in
  let timestamp := fun r => string_rank (sort_key (lit "timestamp") r) in
  (Forall (fun r => is_string (sort_key (lit "timestamp") r)) stored ->
   get_by_date_range self storage start_date end_date
   = Return (PDict <$>
               sort_by_field
                 (List.filter
                    (fun r => negb (str_ltb (timestamp r) start_date)
                              && negb (str_ltb end_date (timestamp r)))
                    stored)
                 (lit "timestamp") true) /\
   (str_ltb end_date start_date = true ->
    get_by_date_range self storage start_date end_date = Return [])) /\
  (Exists (fun r => ~ is_string (sort_key (lit "timestamp") r)) stored ->
   get_by_date_range self storage start_date end_date = Fail TypeError).
Proof.
  intros Hopen Hok Horder Hrows. cbv zeta. unfold get_by_date_range.
  rewrite (all_data_records self storage records) by done.
  cbn [mbind outcome_bind]. split.
  - intros Hstr. rewrite date_range_loop_strings by done.
    cbn [mbind outcome_bind]. rewrite sort_objects_records. split; [done|].
    intros Hempty. rewrite list_filter_none; [done|].
    apply Forall_forall. intros r _.
    destruct (str_ltb (string_rank (sort_key (lit "timestamp") r)) start_date)
      eqn:Hlow; [done|].
    destruct (str_ltb end_date (string_rank (sort_key (lit "timestamp") r)))
      eqn:Hhigh; [done|].
    by rewrite (str_ltb_ntrans _ _ _ Hhigh Hlow) in Hempty.
  - intros Hother. by rewrite date_range_loop_other.
Qed.

Lemma get_by_date_range_records_witness :
  get_by_date_range {| mem_class := EpisodicMemory; mem_id := lit "episodic" |}
    (snd (store 100 new_storage (lit "episodic") (lit "e1")
            [(lit "timestamp", PStr (lit "2024-05"))]))
    (lit "2024-01") (lit "2024-12")
  = Return [PDict [(lit "timestamp", PStr (lit "2024-05"))]].
Proof.
  apply (proj1 (proj1 (get_by_date_range_records
                         {| mem_class := EpisodicMemory; mem_id := lit "episodic" |}
                         (snd (store 100 new_storage (lit "episodic") (lit "e1")
                                 [(lit "timestamp", PStr (lit "2024-05"))]))
                         [[(lit "timestamp", PStr (lit "2024-05"))]]
                         (lit "2024-01") (lit "2024-12") eq_refl
                         (store_db_ok _ _ _ _ _ new_storage_db_ok)
                         ltac:(unfold in_creation_order; repeat constructor)
                         ltac:(unfold holds_records; repeat constructor))
                  ltac:(repeat constructor))).
Defined.

Lemma tags_loop_no_tags (items : list value) : tags_loop [] items = Return [].
Proof.
  induction items as [|item items IH]; [done|].
  cbn [tags_loop any_tag mbind outcome_bind]. by rewrite IH.
Qed.

Lemma any_tag_list (tags : list pystr) (r : record) (l : list value) :
  default (PList []) (dict_get r (lit "tags")) = PList l ->
  any_tag tags (PDict r)
  = Return (existsb (fun tag => existsb (fun x => py_eq x (PStr tag)) l) tags).
Proof.
  intros Hl. induction tags as [|tag tags IH]; [done|].
  cbn [any_tag existsb]. rewrite Hl. cbn [tag_in mbind outcome_bind].
  destruct (existsb (fun x => py_eq x (PStr tag)) l); [done|exact IH].
Qed.

(** X25: [search_by_tags] with no tag to look for returns the empty
    list whatever the namespace holds, without looking into any item;
    and over a namespace that holds [records], each with a list (or
    nothing) under [tags], it returns the records that are not empty
    and have one of the tags in that list, in the order of the table. *)
Theorem search_by_tags_records (self : Memory) (storage : SQLiteStorage)
    (records : list record) (tags : list pystr) :
  (forall items, all_data self storage = Return items ->
                 search_by_tags self storage [] = Return []) /\
  (conn_closed storage = false ->
   db_ok (db storage) ->
   in_creation_order (db storage) (mem_id self) ->
   holds_records (db storage) (mem_id self) records ->
   let stored := List.filter (fun r => truthy (PDict r)) records in
   let tags_of := fun r => match default (PList []) (dict_get r (lit "tags")) with
                           | PList l => l
                           | _ => []
                           end in
   Forall (fun r => exists l,
               default (PList []) (dict_get r (lit "tags")) = PList l) stored ->
   search_by_tags self storage tags
   = Return (PDict <$>
               List.filter
                 (fun r => existsb
                             (fun tag => existsb (fun x => py_eq x (PStr tag))
                                           (tags_of r))
                             tags)
                 stored)).
Proof.
  split.
  - intros items Hitems. unfold search_by_tags. rewrite Hitems.
    cbn [mbind outcome_bind]. apply tags_loop_no_tags.
  - intros Hopen Hok Horder Hrows. cbv zeta. intros Hlists.
    unfold search_by_tags.
    rewrite (all_data_records self storage records) by done.
    cbn [mbind outcome_bind].
    induction Hlists as [|r stored [l Hl] _ IH]; [done|].
    rewrite fmap_cons. cbn [tags_loop List.filter].
    rewrite (any_tag_list tags r l Hl), IH, Hl. cbn [mbind outcome_bind].
    by destruct (existsb _ tags).
Qed.

Lemma search_by_tags_records_witness :
  search_by_tags {| mem_class := SemanticMemory; mem_id := lit "semantic" |}
    (snd (store 100 new_storage (lit "semantic") (lit "f1")
            [(lit "tags", PList [PStr (lit "ai")])]))
    [lit "ai"]
  = Return [PDict [(lit "tags", PList [PStr (lit "ai")])]].
Proof.
  apply (proj2 (search_by_tags_records
                  {| mem_class := SemanticMemory; mem_id := lit "semantic" |}
                  (snd (store 100 new_storage (lit "semantic") (lit "f1")
                          [(lit "tags", PList [PStr (lit "ai")])]))
                  [[(lit "tags", PList [PStr (lit "ai")])]] [lit "ai"])
           eq_refl (store_db_ok _ _ _ _ _ new_storage_db_ok)
           ltac:(unfold in_creation_order; repeat constructor)
           ltac:(unfold holds_records; repeat constructor)).
  repeat constructor. by eexists.
Defined.
